(** * SystemProduct: the discrete-event simulation sidecar

    A shallow embedding of [src/sidecar/simulation_engine.py]:
    the closed-form fallback [run_deterministic], the SimPy based
    [run_with_simpy] with its two generators [block_process] and
    [event_injector], and the dispatcher [process].

    Modelling conventions.
    - JSON numbers and Python floats are exact rationals ([Q]): no rounding
      error, no infinities, no NaN.
    - A JSON object read with [.get] is a record of optional fields, one per
      key the engine reads; [None] stands for an absent key or [null].
    - Python dictionaries keyed by block id are association lists in
      insertion order ([dict]).
    - SimPy's [Environment] is a time, a counter of event ids and the heap of
      scheduled events, kept as a list sorted by (time, priority, event id);
      a generator is the record of the [yield] it is suspended at.
    - [random.random()] is a sequence of draws [draw 0, draw 1, ...] given to
      the run; the state counts how many were taken.
    - A [sim_script] is the function from the item and the simulated time to
      what [exec] leaves behind; scripts that keep a state of their own
      between items are outside the model.
    - SimPy is a library the engine imports.  Its [Environment], [Process],
      [Timeout] and [Store] are modelled as SimPy 4 runs them: [Initialize]
      and the [until] event are scheduled URGENT, everything else NORMAL; a
      put appends the item at once and schedules the put event, whose
      callback serves a waiting get; a served get is an event of its own,
      whose callback resumes the block; an exception leaving a generator
      fails its process event, and [env.step] raises it when that event is
      popped.
    - A loop that need not end takes fuel: [run_steps], [run_with_simpy]
      and [process] return [None] when the fuel runs out. *)

From Stdlib Require Import ZArith QArith Qround.
From Stdlib Require Import List Sorted Permutation String Bool Arith Lia Lqa.
Import ListNotations.

Local Open Scope Q_scope.

(* ------------------------------------------------------------------ *)
(** ** Python values *)

Module Py.

(** [bool(x)] of an optional number: [None] and [0] are falsy. *)
Definition truthy (x : option Q) : bool :=
  match x with
  | Some q => negb (Qeq_bool q 0)
  | None => false
  end.

(** [float(x or d)]. *)
Definition num_or (x : option Q) (d : Q) : Q :=
  match x with
  | Some q => if Qeq_bool q 0 then d else q
  | None => d
  end.

(** [x or y] on optional strings: the empty string is falsy. *)
Definition str_or (x y : option string) : option string :=
  match x with
  | Some s => if String.eqb s "" then y else x
  | None => y
  end.

(** [bool(s)] of an optional string. *)
Definition str_truthy (x : option string) : bool :=
  match x with
  | Some s => negb (String.eqb s "")
  | None => false
  end.

(** [int(x)] of a float: truncation toward zero. *)
Definition int (q : Q) : Z := Z.quot (Qnum q) (Zpos (Qden q)).

Definition ltb (a b : Q) : bool :=
  match a ?= b with
  | Lt => true
  | _ => false
  end.

Definition leb (a b : Q) : bool := Qle_bool a b.

(** [min(a, b)] and [max(a, b)]: the first argument wins a tie. *)
Definition min (a b : Q) : Q := if ltb b a then b else a.
Definition max (a b : Q) : Q := if ltb a b then b else a.

(** Nearest integer, ties to the even one. *)
Definition round_half_even (q : Q) : Z :=
  let n := Qfloor q in
  match ((q - inject_Z n) ?= (1 # 2))%Q with
  | Lt => n
  | Gt => (n + 1)%Z
  | Eq => if Z.even n then n else (n + 1)%Z
  end.

(** [round(x, 4)]. *)
Definition round4 (q : Q) : Q := round_half_even (q * 10000)%Q # 10000.

End Py.

(* ------------------------------------------------------------------ *)
(** ** Dictionaries keyed by strings, in insertion order *)

Section Dict.
Context {V : Type}.

Definition dict := list (string * V).

Fixpoint dict_get (k : string) (d : dict) : option V :=
  match d with
  | [] => None
  | (k', v) :: d' => if String.eqb k k' then Some v else dict_get k d'
  end.

(** [k in d] *)
Definition dict_mem (k : string) (d : dict) : bool :=
  match dict_get k d with
  | Some _ => true
  | None => false
  end.

(** [d[k] = v]: an existing key keeps its place. *)
Fixpoint dict_set (k : string) (v : V) (d : dict) : dict :=
  match d with
  | [] => [(k, v)]
  | (k', v') :: d' =>
      if String.eqb k k' then (k', v) :: d' else (k', v') :: dict_set k v d'
  end.

(** [d[k] = f(d[k])] for a key that is present. *)
Fixpoint dict_update (k : string) (f : V -> V) (d : dict) : dict :=
  match d with
  | [] => []
  | (k', v') :: d' =>
      if String.eqb k k' then (k', f v') :: d' else (k', v') :: dict_update k f d'
  end.

Definition dict_keys (d : dict) : list string := map fst d.
End Dict.

Arguments dict V : clear implicits.

(* ------------------------------------------------------------------ *)
(** ** Request and response *)

Record Node := {
  node_id : string;                 (* n["id"] *)
  node_kind : option string         (* n.get("kind") *)
}.

Record Edge := {
  edge_kind : option string;        (* edge.get("kind") *)
  source_id : option string;        (* edge.get("source_id") *)
  target_id : option string         (* edge.get("target_id") *)
}.

Record Project := {
  nodes : list Node;
  edges : list Edge
}.

(** Modelled from the spec: the key [target_block_id], which the spec's data
    model gives to a StimulusEvent; the type of the request's events is
    declared outside [src/].  The other fields are the keys that
    [event_injector] reads from an entry of [scenario["events"]]:
    [time_ms], [block_id], [target_id], [signal_type] and [value]. *)
Record StimulusEvent := {
  time_ms : option Q;
  block_id : option string;
  ev_target_id : option string;
  target_block_id : option string;
  signal_type : option string;
  value : option Q
}.

Record Scenario := {
  duration_ms : option Q;
  events : list StimulusEvent
}.

Record SimParams := {
  processing_time_ms : option Q;
  failure_rate : option Q;
  queue_capacity : option Q;
  throughput_per_sec : option Q
}.

Definition no_params : SimParams :=
  {| processing_time_ms := None; failure_rate := None;
     queue_capacity := None; throughput_per_sec := None |}.

(** What a block process puts on and takes from a Store: the injector's
    [{"signal": ..., "value": ...}] or a forwarded [item_seq]. *)
Inductive Item :=
| StimulusItem (signal : string) (val : option Q)
| SeqItem (seq : nat).

(** [result["processing_time_ms"]] after the script ran. *)
Inductive TimeField :=
| TimeAbsent                        (* key removed: [.get] gives the default *)
| TimeInvalid                       (* [float(...)] raises *)
| TimeNum (q : Q).

(** What [exec(script, {}, local_ctx)] and the two reads after it do. *)
Inductive ScriptOutcome :=
| ScriptRaises                      (* an [Exception] *)
| ScriptExits                       (* a [BaseException] that is no [Exception] *)
| ScriptNoResult                    (* [local_ctx["result"].get] raises *)
| ScriptResult (failed : bool) (ptime : TimeField).

(** A non-empty [sim_script], applied to [item] and [env_now]. *)
Definition Script := Item -> Q -> ScriptOutcome.

Record Behavior := {
  sim_params : option SimParams;
  sim_script : option Script
}.

Definition no_behavior : Behavior := {| sim_params := None; sim_script := None |}.

(** [behavior = block_behaviors.get(block_id) or {}] *)
Definition behavior_of (block_behaviors : dict Behavior) (b : string) : Behavior :=
  match dict_get b block_behaviors with
  | Some bh => bh
  | None => no_behavior
  end.

(** [params = behavior.get("sim_params") or {}] *)
Definition params_of (bh : Behavior) : SimParams :=
  match sim_params bh with
  | Some p => p
  | None => no_params
  end.

Record Payload := {
  project_json : option Project;
  scenario : option Scenario;
  block_behaviors : option (dict Behavior)
}.

(** The request with all three keys present. *)
Definition request (pj : Project) (sc : Scenario) (bhs : dict Behavior) : Payload :=
  {| project_json := Some pj; scenario := Some sc; block_behaviors := Some bhs |}.

Inductive EventType := processed_ev | failure_ev | stimulus_ev.

(** The [detail] text, by its format and arguments. *)
Inductive Detail :=
| ItemFailed (seq : nat) (elapsed : Q)   (* "item {seq} failed after {elapsed:.1f}ms" *)
| ItemDone (seq : nat) (elapsed : Q)     (* "item {seq} done in {elapsed:.1f}ms" *)
| Signal (s : string).                   (* "signal={s}" *)

Record TimelineEntry := {
  timestamp_ms : Q;
  te_block_id : string;
  event_type : EventType;
  detail : Detail
}.

Record BlockMetrics := {
  utilization : Q;
  queue_depth : Z;
  processed_count : Z;
  failures : Z
}.

(** Exceptions the run can meet. *)
Inductive Exn :=
| NegativeDelay (d : Q)             (* ValueError of [env.timeout] *)
| UntilNotAfterNow (at_ : Q)        (* ValueError of [env.run] *)
| CapacityNotPositive               (* ValueError of [Store(...)] *)
| NoScheduledEvents                 (* RuntimeError of [env.run] *)
| SystemExit.                       (* raised by a script; no [Exception] *)

Definition is_Exception (e : Exn) : bool :=
  match e with
  | SystemExit => false
  | _ => true
  end.

(** An entry of [errors]. *)
Inductive ErrorEntry :=
| SimPyNotInstalled                 (* "SimPy is not installed - results are theoretical ..." *)
| ExcText (e : Exn)                 (* str(exc) *)
| ExcTraceback (e : Exn).           (* traceback.format_exc() *)

Inductive Status := complete | error.

Record Response := {
  status : Status;
  metrics : dict BlockMetrics;
  timeline : list TimelineEntry;
  errors : list ErrorEntry
}.

Definition is_block (n : Node) : bool :=
  match node_kind n with
  | Some k => String.eqb k "block"
  | None => false
  end.

Definition project_or_empty (p : option Project) : Project :=
  match p with
  | Some p => p
  | None => {| nodes := []; edges := [] |}
  end.

Definition scenario_or_empty (s : option Scenario) : Scenario :=
  match s with
  | Some s => s
  | None => {| duration_ms := None; events := [] |}
  end.

Definition behaviors_or_empty (b : option (dict Behavior)) : dict Behavior :=
  match b with
  | Some b => b
  | None => []
  end.

(** [float(scenario.get("duration_ms") or 10000)] *)
Definition duration_of (sc : Scenario) : Q := Py.num_or (duration_ms sc) 10000.

(* ------------------------------------------------------------------ *)
(** ** run_deterministic *)

Module Deterministic.

(** The three-way choice of [processed]; [if throughput_per_sec:] is false
    for an absent and for a zero throughput. *)
Definition processed_of (duration : Q) (params : SimParams) : Z :=
  let ptime := Py.num_or (processing_time_ms params) 100 in
  let by_time := if Py.ltb 0 ptime then Py.int (duration / ptime)%Q else 0%Z in
  match throughput_per_sec params with
  | Some tp =>
      if Py.truthy (Some tp) then Py.int (tp * (duration / 1000))%Q else by_time
  | None => by_time
  end.

Definition failures_of (duration : Q) (params : SimParams) : Z :=
  Py.int (inject_Z (processed_of duration params) * Py.num_or (failure_rate params) 0)%Q.

Definition util_of (duration : Q) (params : SimParams) : Q :=
  let ptime := Py.num_or (processing_time_ms params) 100 in
  if Py.ltb 0 duration
  then Py.min (ptime * inject_Z (processed_of duration params) / duration) 1
  else 0.

(** The body of the loop for one block node. *)
Definition block_metrics (duration : Q) (params : SimParams) : BlockMetrics :=
  let processed := processed_of duration params in
  let fails := failures_of duration params in
  {| utilization := Py.round4 (util_of duration params);
     queue_depth := 0;
     processed_count := Z.max 0 (processed - fails);
     failures := fails |}.

Fixpoint loop (duration : Q) (bhs : dict Behavior) (ns : list Node)
         (metrics : dict BlockMetrics) : dict BlockMetrics :=
  match ns with
  | [] => metrics
  | n :: ns' =>
      if is_block n
      then loop duration bhs ns'
             (dict_set (node_id n)
                (block_metrics duration (params_of (behavior_of bhs (node_id n))))
                metrics)
      else loop duration bhs ns' metrics
  end.

Definition run_deterministic (pj : Project) (sc : Scenario) (bhs : dict Behavior)
  : Response :=
  {| status := complete;
     metrics := loop (duration_of sc) bhs (nodes pj) [];
     timeline := [];
     errors := [SimPyNotInstalled] |}.

End Deterministic.

(* ------------------------------------------------------------------ *)
(** ** SimPy: the environment, the Stores and the two generators *)

(** A SimPy process of the run. *)
Inductive Proc :=
| BlockProc (b : string)            (* block_process(env, b, block_stores[b]) *)
| Injector.                         (* event_injector(env) *)

(** A scheduled SimPy event, by what its callbacks do. *)
Inductive Event :=
| Initialize (p : Proc)             (* starts the generator of [p] *)
| Timeout (p : Proc)                (* env.timeout(...) that [p] waits for *)
| StorePut (b : string)             (* a succeeded put: calls _trigger_get *)
| StoreGet (b : string) (it : Item) (* a succeeded get: resumes the block with [it] *)
| ProcessEnd (p : Proc) (exc : option Exn)  (* the generator returned or raised *)
| Until.                            (* the stop event of env.run(until=...) *)

(** URGENT = 0 for [Initialize] and the [until] event, NORMAL = 1 otherwise. *)
Definition priority (e : Event) : nat :=
  match e with
  | Initialize _ | Until => 0
  | _ => 1
  end.

(** An entry [(time, priority, eid, event)] of the heap. *)
Record Scheduled := {
  s_time : Q;
  s_eid : nat;
  s_event : Event
}.

(** Tuple comparison of two heap entries. *)
Definition key_lt (a b : Scheduled) : bool :=
  match s_time a ?= s_time b with
  | Lt => true
  | Gt => false
  | Eq =>
      (priority (s_event a) <? priority (s_event b))%nat
      || ((priority (s_event a) =? priority (s_event b))%nat
          && (s_eid a <? s_eid b)%nat)
  end.

(** [heappush]: the heap is kept as the sorted list of its entries, so that
    [heappop] takes the head. *)
Fixpoint heappush (x : Scheduled) (q : list Scheduled) : list Scheduled :=
  match q with
  | [] => [x]
  | y :: q' => if key_lt x y then x :: q else y :: heappush x q'
  end.

(** A [simpy.Store].  Only the owning block process calls [get], one call
    at a time, so the queue of pending gets is a flag; every put is made
    when there is room and succeeds at once, so no put is ever pending. *)
Record Store := {
  items : list Item;
  capacity : Z;
  get_waiting : bool
}.

Definition has_room (st : Store) : bool :=
  (Z.of_nat (List.length (items st)) <? capacity st)%Z.

(** [block_counters[b]] *)
Record Counters := {
  processed : Z;
  failed_count : Z;                 (* "failures" *)
  busy_time : Q
}.

(** Where the generator of a block is suspended. *)
Inductive Suspended :=
| AtStart                           (* not started *)
| AtGet                             (* item = yield store.get() *)
| AtTimeout (start : Q) (failed : bool)  (* yield env.timeout(proc_time) *)
| Finished.                         (* the generator raised *)

Record Frame := {
  item_seq : nat;
  at_yield : Suspended
}.

(** The state of a run. *)
Record Sim := {
  now : Q;
  queue : list Scheduled;
  next_eid : nat;
  block_stores : dict Store;
  block_counters : dict Counters;
  frames : dict Frame;
  pending : list StimulusEvent;     (* what is left of the injector's [for] loop *)
  sim_timeline : list TimelineEntry;
  draws : nat                       (* calls of random.random() so far *)
}.

Definition set_now (t : Q) (s : Sim) : Sim :=
  {| now := t; queue := queue s; next_eid := next_eid s;
     block_stores := block_stores s; block_counters := block_counters s;
     frames := frames s; pending := pending s;
     sim_timeline := sim_timeline s; draws := draws s |}.

Definition set_queue (q : list Scheduled) (s : Sim) : Sim :=
  {| now := now s; queue := q; next_eid := next_eid s;
     block_stores := block_stores s; block_counters := block_counters s;
     frames := frames s; pending := pending s;
     sim_timeline := sim_timeline s; draws := draws s |}.

Definition set_stores (st : dict Store) (s : Sim) : Sim :=
  {| now := now s; queue := queue s; next_eid := next_eid s;
     block_stores := st; block_counters := block_counters s;
     frames := frames s; pending := pending s;
     sim_timeline := sim_timeline s; draws := draws s |}.

Definition set_counters (c : dict Counters) (s : Sim) : Sim :=
  {| now := now s; queue := queue s; next_eid := next_eid s;
     block_stores := block_stores s; block_counters := c;
     frames := frames s; pending := pending s;
     sim_timeline := sim_timeline s; draws := draws s |}.

Definition set_frames (f : dict Frame) (s : Sim) : Sim :=
  {| now := now s; queue := queue s; next_eid := next_eid s;
     block_stores := block_stores s; block_counters := block_counters s;
     frames := f; pending := pending s;
     sim_timeline := sim_timeline s; draws := draws s |}.

Definition set_pending (p : list StimulusEvent) (s : Sim) : Sim :=
  {| now := now s; queue := queue s; next_eid := next_eid s;
     block_stores := block_stores s; block_counters := block_counters s;
     frames := frames s; pending := p;
     sim_timeline := sim_timeline s; draws := draws s |}.

Definition set_draws (n : nat) (s : Sim) : Sim :=
  {| now := now s; queue := queue s; next_eid := next_eid s;
     block_stores := block_stores s; block_counters := block_counters s;
     frames := frames s; pending := pending s;
     sim_timeline := sim_timeline s; draws := n |}.

(** [timeline.append(e)] *)
Definition timeline_append (e : TimelineEntry) (s : Sim) : Sim :=
  {| now := now s; queue := queue s; next_eid := next_eid s;
     block_stores := block_stores s; block_counters := block_counters s;
     frames := frames s; pending := pending s;
     sim_timeline := sim_timeline s ++ [e]; draws := draws s |}.

(** [env.schedule(event, priority, delay)]: the priority is that of the
    event's kind. *)
Definition schedule (delay : Q) (e : Event) (s : Sim) : Sim :=
  {| now := now s;
     queue := heappush {| s_time := now s + delay; s_eid := next_eid s; s_event := e |}
                (queue s);
     next_eid := S (next_eid s);
     block_stores := block_stores s; block_counters := block_counters s;
     frames := frames s; pending := pending s;
     sim_timeline := sim_timeline s; draws := draws s |}.

(** [store.put(item)] on a Store with room: the item is appended and the put
    event succeeds, that is, it is scheduled at the current time. *)
Definition store_put (b : string) (it : Item) (s : Sim) : Sim :=
  schedule 0 (StorePut b)
    (set_stores
       (dict_update b
          (fun st => {| items := items st ++ [it]; capacity := capacity st;
                        get_waiting := get_waiting st |})
          (block_stores s)) s).

(** [if len(store.items) < store.capacity: store.put(item)]; the flag tells
    whether the put was made. *)
Definition try_put (b : string) (it : Item) (s : Sim) : Sim * bool :=
  match dict_get b (block_stores s) with
  | Some st => if has_room st then (store_put b it s, true) else (s, false)
  | None => (s, false)
  end.

(** [store.get()] by the owner: with an item at hand the get succeeds at
    once (the item leaves the buffer, the event is scheduled), otherwise it
    waits in the Store. *)
Definition store_get (b : string) (s : Sim) : Sim :=
  match dict_get b (block_stores s) with
  | Some st =>
      match items st with
      | it :: rest =>
          schedule 0 (StoreGet b it)
            (set_stores
               (dict_update b
                  (fun st => {| items := rest; capacity := capacity st;
                                get_waiting := false |})
                  (block_stores s)) s)
      | [] =>
          set_stores
            (dict_update b
               (fun st => {| items := items st; capacity := capacity st;
                             get_waiting := true |})
               (block_stores s)) s
      end
  | None => s
  end.

(** [_trigger_get], the callback of a put event: a waiting get is served. *)
Definition trigger_get (b : string) (s : Sim) : Sim :=
  match dict_get b (block_stores s) with
  | Some st => if get_waiting st then store_get b s else s
  | None => s
  end.

Inductive StepResult :=
| Running (s : Sim)
| Stopped (s : Sim)                 (* StopSimulation: the until event was reached *)
| Raised (e : Exn).

(** What lines 112-135 decide for one item. *)
Inductive Policy :=
| Decided (failed : bool) (proc_time : Q)
| Exits.                            (* the script's BaseException leaves the generator *)

(** [float(ev.get("time_ms") or 0)] *)
Definition ev_time (ev : StimulusEvent) : Q := Py.num_or (time_ms ev) 0.

(** [sorted(events, key=...)]: a stable sort. *)
Fixpoint insert_event (ev : StimulusEvent) (l : list StimulusEvent) : list StimulusEvent :=
  match l with
  | [] => [ev]
  | x :: l' => if Py.ltb (ev_time ev) (ev_time x) then ev :: l else x :: insert_event ev l'
  end.

Definition sorted_events (l : list StimulusEvent) : list StimulusEvent :=
  fold_left (fun acc ev => insert_event ev acc) l [].

(** [ev.get("block_id") or ev.get("target_id")] *)
Definition target_of (ev : StimulusEvent) : option string :=
  Py.str_or (block_id ev) (ev_target_id ev).

(** [ev.get("signal_type", "trigger")] *)
Definition signal_of (ev : StimulusEvent) : string :=
  match signal_type ev with
  | Some s => s
  | None => "trigger"
  end.

Section Run.
Variable run_edges : list Edge.
Variable bhs : dict Behavior.
Variable draw : nat -> Q.

(** [float(params.get("processing_time_ms") or 100.0)] *)
Definition ptime_of (b : string) : Q :=
  Py.num_or (processing_time_ms (params_of (behavior_of bhs b))) 100.

(** [float(params.get("failure_rate") or 0.0)] *)
Definition frate_of (b : string) : Q :=
  Py.num_or (failure_rate (params_of (behavior_of bhs b))) 0.

(** The [try] around [exec] and its [except Exception]. *)
Definition script_policy (default_time : Q) (o : ScriptOutcome) : Policy :=
  match o with
  | ScriptResult failed (TimeNum q) => Decided failed q
  | ScriptResult failed TimeAbsent => Decided failed default_time
  | ScriptResult _ TimeInvalid => Decided false default_time
  | ScriptRaises => Decided false default_time
  | ScriptNoResult => Decided false default_time
  | ScriptExits => Exits
  end.

(** [if script: ... else: failed = random.random() < failure_rate]. *)
Definition policy (b : string) (it : Item) (s : Sim) : Policy * Sim :=
  match sim_script (behavior_of bhs b) with
  | Some script => (script_policy (ptime_of b) (script it (now s)), s)
  | None =>
      (Decided (Py.ltb (draw (draws s)) (frate_of b)) (ptime_of b),
       set_draws (S (draws s)) s)
  end.

Definition set_frame (b : string) (fr : Frame) (s : Sim) : Sim :=
  set_frames (dict_update b (fun _ => fr) (frames s)) s.

(** The generator of block [b] starts and stops at its first [store.get()]. *)
Definition block_start (b : string) (s : Sim) : Sim :=
  match dict_get b (frames s) with
  | Some fr =>
      match at_yield fr with
      | AtStart => store_get b (set_frame b {| item_seq := 0; at_yield := AtGet |} s)
      | _ => s
      end
  | None => s
  end.

(** Block [b] receives [it]: from [item = yield store.get()] to
    [yield env.timeout(proc_time)].  A negative delay makes [env.timeout]
    raise, a script may exit: the process then ends with that exception. *)
Definition block_take (b : string) (it : Item) (s : Sim) : Sim :=
  match dict_get b (frames s) with
  | Some fr =>
      match at_yield fr with
      | AtGet =>
          let seq := S (item_seq fr) in
          match policy b it s with
          | (Decided failed proc_time, s1) =>
              if Py.ltb proc_time 0
              then schedule 0 (ProcessEnd (BlockProc b) (Some (NegativeDelay proc_time)))
                     (set_frame b {| item_seq := seq; at_yield := Finished |} s1)
              else schedule proc_time (Timeout (BlockProc b))
                     (set_frame b {| item_seq := seq; at_yield := AtTimeout (now s) failed |} s1)
          | (Exits, s1) =>
              schedule 0 (ProcessEnd (BlockProc b) (Some SystemExit))
                (set_frame b {| item_seq := seq; at_yield := Finished |} s1)
          end
      | _ => s
      end
  | None => s
  end.

(** The target of [edge] when it is a "connects" edge leaving [b]. *)
Definition forwards_to (b : string) (e : Edge) : option string :=
  match edge_kind e, source_id e, target_id e with
  | Some k, Some src, Some t =>
      if String.eqb k "connects" && String.eqb src b then Some t else None
  | _, _, _ => None
  end.

(** [for edge in edges: ...] after a processed item. *)
Fixpoint forward (b : string) (seq : nat) (es : list Edge) (s : Sim) : Sim :=
  match es with
  | [] => s
  | e :: es' =>
      forward b seq es'
        match forwards_to b e with
        | Some t => fst (try_put t (SeqItem seq) s)
        | None => s
        end
  end.

Definition add_busy (elapsed : Q) (c : Counters) : Counters :=
  {| processed := processed c; failed_count := failed_count c;
     busy_time := busy_time c + elapsed |}.

Definition add_failure (c : Counters) : Counters :=
  {| processed := processed c; failed_count := (failed_count c + 1)%Z;
     busy_time := busy_time c |}.

Definition add_processed (c : Counters) : Counters :=
  {| processed := (processed c + 1)%Z; failed_count := failed_count c;
     busy_time := busy_time c |}.

Definition count (b : string) (f : Counters -> Counters) (s : Sim) : Sim :=
  set_counters (dict_update b f (block_counters s)) s.

(** The timeout of block [b] fired: counters, timeline entry, forwarding,
    and the next [store.get()]. *)
Definition block_done (b : string) (s : Sim) : Sim :=
  match dict_get b (frames s) with
  | Some fr =>
      match at_yield fr with
      | AtTimeout start failed =>
          let elapsed := now s - start in
          let s1 := count b (add_busy elapsed) s in
          let s2 :=
            if failed
            then timeline_append
                   {| timestamp_ms := now s; te_block_id := b;
                      event_type := failure_ev;
                      detail := ItemFailed (item_seq fr) elapsed |}
                   (count b add_failure s1)
            else forward b (item_seq fr) run_edges
                   (timeline_append
                      {| timestamp_ms := now s; te_block_id := b;
                         event_type := processed_ev;
                         detail := ItemDone (item_seq fr) elapsed |}
                      (count b add_processed s1)) in
          store_get b (set_frame b {| item_seq := item_seq fr; at_yield := AtGet |} s2)
      | _ => s
      end
  | None => s
  end.

(** The head of the injector's loop: wait for the next event's time, or
    return when none is left. *)
Definition injector_wait (s : Sim) : Sim :=
  match pending s with
  | ev :: _ => schedule (Py.max 0 (ev_time ev - now s)) (Timeout Injector) s
  | [] => schedule 0 (ProcessEnd Injector None) s
  end.

(** Lines 181-193 for one event. *)
Definition deliver (ev : StimulusEvent) (s : Sim) : Sim :=
  match target_of ev with
  | Some t =>
      if Py.str_truthy (Some t)
      then match try_put t (StimulusItem (signal_of ev) (value ev)) s with
           | (s1, true) =>
               timeline_append
                 {| timestamp_ms := now s; te_block_id := t;
                    event_type := stimulus_ev; detail := Signal (signal_of ev) |}
                 s1
           | (_, false) => s
           end
      else s
  | None => s
  end.

(** The injector's timeout fired. *)
Definition injector_fire (s : Sim) : Sim :=
  match pending s with
  | ev :: rest => injector_wait (set_pending rest (deliver ev s))
  | [] => s
  end.

(** The callbacks of a popped event. *)
Definition fire (e : Event) (s : Sim) : StepResult :=
  match e with
  | Initialize (BlockProc b) => Running (block_start b s)
  | Initialize Injector =>
      Running (injector_wait (set_pending (sorted_events (pending s)) s))
  | Timeout (BlockProc b) => Running (block_done b s)
  | Timeout Injector => Running (injector_fire s)
  | StorePut b => Running (trigger_get b s)
  | StoreGet b it => Running (block_take b it s)
  | ProcessEnd _ None => Running s
  | ProcessEnd _ (Some exc) => Raised exc
  | Until => Stopped s
  end.

(** [env.step()] *)
Definition step (s : Sim) : StepResult :=
  match queue s with
  | [] => Raised NoScheduledEvents
  | x :: q => fire (s_event x) (set_now (s_time x) (set_queue q s))
  end.

(** The [while True: self.step()] of [env.run]; [None] when [fuel] steps
    do not reach the end. *)
Fixpoint run_steps (fuel : nat) (s : Sim) : option (Sim + Exn) :=
  match fuel with
  | O => None
  | S fuel' =>
      match step s with
      | Running s' => run_steps fuel' s'
      | Stopped s' => Some (inl s')
      | Raised e => Some (inr e)
      end
  end.

(** [env.run(until=at)] *)
Definition env_run (at_ : Q) (fuel : nat) (s : Sim) : option (Sim + Exn) :=
  if Py.leb at_ (now s)
  then Some (inr (UntilNotAfterNow at_))
  else run_steps fuel (schedule (at_ - now s) Until s).

End Run.

(* ------------------------------------------------------------------ *)
(** ** run_with_simpy *)

(** [{n["id"]: n for n in nodes if n.get("kind") == "block"}] *)
Definition block_nodes (ns : list Node) : dict Node :=
  fold_left (fun d n => if is_block n then dict_set (node_id n) n d else d) ns [].

(** The blocks of the request. *)
Definition block_ids (pj : Project) : list string := dict_keys (block_nodes (nodes pj)).

(** [int(params.get("queue_capacity") or 100)] *)
Definition capacity_of (bhs : dict Behavior) (b : string) : Z :=
  Py.int (Py.num_or (queue_capacity (params_of (behavior_of bhs b))) 100).

(** One [sp.Store(env, capacity=capacity)] per block; SimPy refuses a
    capacity that is not positive. *)
Fixpoint make_stores (bhs : dict Behavior) (ids : list string) (acc : dict Store)
  : dict Store + Exn :=
  match ids with
  | [] => inl acc
  | b :: ids' =>
      if (capacity_of bhs b <=? 0)%Z
      then inr CapacityNotPositive
      else make_stores bhs ids'
             (dict_set b {| items := []; capacity := capacity_of bhs b;
                            get_waiting := false |} acc)
  end.

Definition zero_counters : Counters :=
  {| processed := 0; failed_count := 0; busy_time := 0 |}.

(** [env.process(block_process(env, bid, store))] for every Store, then the
    injector when the scenario has events. *)
Definition launch (ids : list string) (evs : list StimulusEvent) (s : Sim) : Sim :=
  let s1 := fold_left (fun s b => schedule 0 (Initialize (BlockProc b)) s) ids s in
  match evs with
  | [] => s1
  | _ :: _ => schedule 0 (Initialize Injector) s1
  end.

(** The state when [env.run] is called. *)
Definition initial (ids : list string) (stores : dict Store) (evs : list StimulusEvent)
  : Sim :=
  launch (dict_keys stores) evs
    {| now := 0; queue := []; next_eid := 0;
       block_stores := stores;
       block_counters := map (fun b => (b, zero_counters)) ids;
       frames := map (fun b => (b, {| item_seq := 0; at_yield := AtStart |})) ids;
       pending := evs;
       sim_timeline := [];
       draws := 0 |}.

(** The metrics of one block, lines 209-216. *)
Definition block_metrics (duration : Q) (c : Counters) (st : Store) : BlockMetrics :=
  let util := if Py.ltb 0 duration then busy_time c / duration else 0 in
  {| utilization := Py.round4 (Py.min util 1);
     queue_depth := Z.of_nat (List.length (items st));
     processed_count := processed c;
     failures := failed_count c |}.

Fixpoint collect_metrics (duration : Q) (s : Sim) (ids : list string)
         (acc : dict BlockMetrics) : dict BlockMetrics :=
  match ids with
  | [] => acc
  | b :: ids' =>
      match dict_get b (block_counters s), dict_get b (block_stores s) with
      | Some c, Some st =>
          collect_metrics duration s ids' (dict_set b (block_metrics duration c st) acc)
      | _, _ => collect_metrics duration s ids' acc
      end
  end.

Definition run_with_simpy (fuel : nat) (draw : nat -> Q)
           (pj : Project) (sc : Scenario) (bhs : dict Behavior)
  : option (Response + Exn) :=
  let duration := duration_of sc in
  let ids := dict_keys (block_nodes (nodes pj)) in
  match make_stores bhs ids [] with
  | inr e => Some (inr e)
  | inl stores =>
      match env_run (edges pj) bhs draw duration fuel (initial ids stores (events sc)) with
      | None => None
      | Some (inr e) => Some (inr e)
      | Some (inl s) =>
          Some (inl {| status := complete;
                       metrics := collect_metrics duration s ids [];
                       timeline := sim_timeline s;
                       errors := [] |})
      end
  end.

(* ------------------------------------------------------------------ *)
(** ** process *)

(** What a call of [process] comes to: a response, or an exception that its
    [except Exception] does not catch. *)
Inductive Outcome :=
| Returned (r : Response)
| Escaped (e : Exn).

Definition error_response (e : Exn) : Response :=
  {| status := error; metrics := []; timeline := [];
     errors := [ExcText e; ExcTraceback e] |}.

(** [SIMPY_OK] is whether [import simpy] succeeded. *)
Definition process (SIMPY_OK : bool) (fuel : nat) (draw : nat -> Q) (payload : Payload)
  : option Outcome :=
  let pj := project_or_empty (project_json payload) in
  let sc := scenario_or_empty (scenario payload) in
  let bhs := behaviors_or_empty (block_behaviors payload) in
  if SIMPY_OK
  then match run_with_simpy fuel draw pj sc bhs with
       | None => None
       | Some (inl r) => Some (Returned r)
       | Some (inr e) =>
           if is_Exception e then Some (Returned (error_response e)) else Some (Escaped e)
       end
  else Some (Returned (Deterministic.run_deterministic pj sc bhs)).

(** The state after [n] steps of a run that is still going. *)
Fixpoint steps (es : list Edge) (bhs : dict Behavior) (draw : nat -> Q)
         (n : nat) (s : Sim) : option Sim :=
  match n with
  | O => Some s
  | S n' =>
      match step es bhs draw s with
      | Running s' => steps es bhs draw n' s'
      | _ => None
      end
  end.

(* ------------------------------------------------------------------ *)
(** ** The spec's formulas for the closed-form path *)

Module SpecFormulas.

(** "if throughput_per_sec given, processed = floor(throughput_per_sec *
    duration_ms / 1000); else if processing_time_ms > 0, processed =
    floor(duration_ms / processing_time_ms); else processed = 0". *)
Definition processed (duration ptime : Q) (throughput : option Q) : Z :=
  match throughput with
  | Some tp => Qfloor (tp * duration / 1000)
  | None => if Py.ltb 0 ptime then Qfloor (duration / ptime) else 0%Z
  end.

(** "failures = floor(processed * failure_rate)" *)
Definition failures (processed : Z) (rate : Q) : Z :=
  Qfloor (inject_Z processed * rate).

End SpecFormulas.

(** [throughput_per_sec] as the test [if throughput_per_sec:] sees it. *)
Definition effective_throughput (p : SimParams) : option Q :=
  if Py.truthy (throughput_per_sec p) then throughput_per_sec p else None.

(** A block node with id [b]. *)
Definition is_block_named (b : string) (n : Node) : bool :=
  is_block n && String.eqb b (node_id n).

(** Parameters under which the closed-form utilization cannot be negative. *)
Definition nonneg_params (p : SimParams) : Prop :=
  0 <= Py.num_or (processing_time_ms p) 100
  /\ forall tp, throughput_per_sec p = Some tp -> 0 <= tp.

(* ------------------------------------------------------------------ *)
(** ** The states of a run *)

(** The state on which the loop of [env.run] starts, when the Stores could be
    built and the duration lies ahead. *)
Definition loop_start (pj : Project) (sc : Scenario) (bhs : dict Behavior) : option Sim :=
  let ids := dict_keys (block_nodes (nodes pj)) in
  match make_stores bhs ids [] with
  | inl stores =>
      let s0 := initial ids stores (events sc) in
      if Py.leb (duration_of sc) (now s0) then None
      else Some (schedule (duration_of sc - now s0) Until s0)
  | inr _ => None
  end.

(** The state of the run after [n] steps. *)
Definition observe (n : nat) (draw : nat -> Q)
           (pj : Project) (sc : Scenario) (bhs : dict Behavior) : option Sim :=
  match loop_start pj sc bhs with
  | Some s0 => steps (edges pj) bhs draw n s0
  | None => None
  end.

Definition response_of (pj : Project) (sc : Scenario) (s : Sim) : Response :=
  {| status := complete;
     metrics := collect_metrics (duration_of sc) s (dict_keys (block_nodes (nodes pj))) [];
     timeline := sim_timeline s;
     errors := [] |}.

(* ------------------------------------------------------------------ *)
(** ** What every state of a run satisfies *)

Definition key_le (a b : Scheduled) : Prop := key_lt b a = false.

(** The heap holds events of the present and the future, in order, with
    event ids below the next one to be given. *)
Definition queue_ok (t : Q) (n : nat) (q : list Scheduled) : Prop :=
  StronglySorted key_le q
  /\ Forall (fun x => t <= s_time x) q
  /\ Forall (fun x => (s_eid x < n)%nat) q
  /\ NoDup (map s_eid q).

Definition stores_ok (cap : string -> Z) (known : string -> Prop) (d : dict Store) : Prop :=
  forall b st, dict_get b d = Some st ->
    (Z.of_nat (List.length (items st)) <= capacity st)%Z
    /\ capacity st = cap b /\ (0 < capacity st)%Z /\ known b.

Definition frames_ok (t : Q) (d : dict Frame) : Prop :=
  forall b fr start f,
    dict_get b d = Some fr -> at_yield fr = AtTimeout start f -> start <= t.

Definition counters_ok (d : dict Counters) : Prop :=
  forall b c, dict_get b d = Some c -> 0 <= busy_time c.

(** A stimulus entry names a block that has a Store. *)
Definition timeline_ok (stores : dict Store) (tl : list TimelineEntry) : Prop :=
  Forall (fun e => event_type e = stimulus_ev ->
                   dict_mem (te_block_id e) stores = true) tl.

Definition Safe (cap : string -> Z) (known : string -> Prop) (s : Sim) : Prop :=
  queue_ok (now s) (next_eid s) (queue s)
  /\ stores_ok cap known (block_stores s)
  /\ frames_ok (now s) (frames s)
  /\ counters_ok (block_counters s)
  /\ timeline_ok (block_stores s) (sim_timeline s).

(** The bound a Store puts on its depth: the capacity it was built with,
    which is at most [queue_capacity] unless that is zero, and 100 when it is
    zero or absent. *)
Definition depth_bounded (bhs : dict Behavior) (b : string) (depth : Z) : Prop :=
  (depth <= capacity_of bhs b)%Z
  /\ (forall qc, queue_capacity (params_of (behavior_of bhs b)) = Some qc ->
                 ~ qc == 0 -> inject_Z depth <= qc)
  /\ (Py.truthy (queue_capacity (params_of (behavior_of bhs b))) = false ->
      (depth <= 100)%Z).

(* ------------------------------------------------------------------ *)
(** ** The injector and the policy, one event and one item at a time *)

(** The timeline entry of an accepted stimulus. *)
Definition stimulus_entry (ev : StimulusEvent) (t : string) (s : Sim) : TimelineEntry :=
  {| timestamp_ms := now s; te_block_id := t;
     event_type := stimulus_ev; detail := Signal (signal_of ev) |}.

Definition stimulus_item (ev : StimulusEvent) : Item :=
  StimulusItem (signal_of ev) (value ev).

(** The event names no block that has a Store. *)
Definition no_target (ev : StimulusEvent) (s : Sim) : Prop :=
  match target_of ev with
  | Some t => t = ""%string \/ dict_get t (block_stores s) = None
  | None => True
  end.

(** The event names no block of the graph: no target key, an empty one, or
    an id that no block node has. *)
Definition unknown_target (pj : Project) (ev : StimulusEvent) : Prop :=
  match target_of ev with
  | Some t => t = ""%string \/ ~ In t (block_ids pj)
  | None => True
  end.

(** A script outcome that the [except Exception] clause turns into the
    defaults. *)
Definition faulty (o : ScriptOutcome) : Prop :=
  match o with
  | ScriptRaises | ScriptNoResult | ScriptResult _ TimeInvalid => True
  | _ => False
  end.

(* ------------------------------------------------------------------ *)
(** ** A measure of the steps a run still takes *)

(** Block [b] takes at least [delta] per item and its script never exits. *)
Definition well_timed (delta : Q) (bhs : dict Behavior) (b : string) : Prop :=
  match sim_script (behavior_of bhs b) with
  | None => delta <= ptime_of bhs b
  | Some script =>
      forall it t,
        match script_policy (ptime_of bhs b) (script it t) with
        | Decided _ d => delta <= d
        | Exits => False
        end
  end.

Section Measure.
Variables (es : list Edge) (duration delta : Q).

(** How many processing times of at least [delta] fit between [t] and the
    end of the run. *)
Definition rounds_left (t : Q) : nat := Z.to_nat (Qceiling ((duration - t) / delta)).

(** What the completion of one item may cost: a put per edge and a get. *)
Definition item_cost : nat := 3 * List.length es + 3.

Definition weight (x : Scheduled) : nat :=
  match s_event x with
  | Initialize (BlockProc _) => 3
  | Initialize Injector => 2
  | Timeout (BlockProc _) => 1 + item_cost * (1 + rounds_left (s_time x))
  | Timeout Injector => 1
  | StorePut _ => 3
  | StoreGet _ _ => 2
  | ProcessEnd _ _ => 1
  | Until => 0
  end.

Definition queue_weight (q : list Scheduled) : nat := list_sum (map weight q).

Definition credit (t : Q) (fr : Frame) : nat :=
  match at_yield fr with
  | AtTimeout _ _ => 0
  | _ => item_cost * rounds_left t
  end.

Definition frames_credit (t : Q) (d : dict Frame) : nat :=
  list_sum (map (fun kv => credit t (snd kv)) d).

(** A bound on the number of steps the run still takes. *)
Definition measure (s : Sim) : nat :=
  queue_weight (queue s) + frames_credit (now s) (frames s) + 5 * List.length (pending s).

End Measure.

(** The events that the Stores schedule. *)
Definition store_event (e : Event) : Prop :=
  match e with
  | StorePut _ | StoreGet _ _ => True
  | _ => False
  end.

(** [s'] is [s] with more Store events scheduled, of total weight at most
    [w]; time, frames and the injector's list are untouched. *)
Definition Grows (es : list Edge) (duration delta : Q) (w : nat) (s s' : Sim) : Prop :=
  now s' = now s /\ frames s' = frames s /\ pending s' = pending s
  /\ (queue_weight es duration delta (queue s')
      <= queue_weight es duration delta (queue s) + w)%nat
  /\ (forall x, In x (queue s') -> In x (queue s) \/ store_event (s_event x))
  /\ (forall x, In x (queue s) -> In x (queue s')).

(** No process has failed, and the stop event of [env.run] is scheduled at
    the duration. *)
Definition Live (ids : list string) (duration : Q) (s : Sim) : Prop :=
  (forall x p e, In x (queue s) -> s_event x <> ProcessEnd p (Some e))
  /\ (exists u, In u (queue s) /\ s_event u = Until /\ s_time u == duration)
  /\ (forall b fr, dict_get b (frames s) = Some fr -> In b ids).

(** What makes a request fit to run: a duration ahead, Stores that SimPy
    accepts, and blocks that take at least [delta] per item. *)
Definition runnable (delta : Q) (pj : Project) (sc : Scenario) (bhs : dict Behavior) : Prop :=
  0 < delta
  /\ 0 < duration_of sc
  /\ (forall b, In b (block_ids pj) -> (0 < capacity_of bhs b)%Z)
  /\ (forall b, In b (block_ids pj) -> well_timed delta bhs b).

(* ------------------------------------------------------------------ *)
(** ** The timeline read against the counters *)

Definition kind_eqb (a b : EventType) : bool :=
  match a, b with
  | processed_ev, processed_ev => true
  | failure_ev, failure_ev => true
  | stimulus_ev, stimulus_ev => true
  | _, _ => false
  end.

(** The entry is of kind [k] and names block [b]. *)
Definition entry_of (k : EventType) (b : string) (e : TimelineEntry) : bool :=
  String.eqb (te_block_id e) b && kind_eqb (event_type e) k.

(** The entry reports an item that block [b] is through with, done or
    failed. *)
Definition item_entry (b : string) (e : TimelineEntry) : bool :=
  String.eqb (te_block_id e) b && negb (kind_eqb (event_type e) stimulus_ev).

Definition count_entries (k : EventType) (b : string) (tl : list TimelineEntry) : Z :=
  Z.of_nat (List.length (filter (entry_of k b) tl)).

(** The [elapsed] and the [item_seq] that the detail of an entry was
    formatted from. *)
Definition elapsed_of (e : TimelineEntry) : Q :=
  match detail e with
  | ItemFailed _ d | ItemDone _ d => d
  | Signal _ => 0
  end.

Definition item_of (e : TimelineEntry) : nat :=
  match detail e with
  | ItemFailed n _ | ItemDone n _ => n
  | Signal _ => O
  end.

(** The elapsed times of the items of [b], added up in the order of the
    timeline. *)
Definition busy_of (b : string) (tl : list TimelineEntry) : Q :=
  fold_left Qplus (map elapsed_of (filter (item_entry b) tl)) 0.

(** The items a block has taken and is not through with: one while it waits
    for its timeout, or after its generator ended on an item. *)
Definition in_hand (fr : Frame) : nat :=
  match at_yield fr with
  | AtTimeout _ _ | Finished => 1
  | _ => 0
  end.

(** The time up to which a block was busy or is known to be free. *)
Definition free_since (t : Q) (fr : Frame) : Q :=
  match at_yield fr with
  | AtTimeout start _ => start
  | _ => t
  end.

Definition chronological (t : Q) (tl : list TimelineEntry) : Prop :=
  StronglySorted (fun a b => timestamp_ms a <= timestamp_ms b) tl
  /\ Forall (fun e => 0 <= timestamp_ms e /\ timestamp_ms e <= t) tl.

Definition counted (tl : list TimelineEntry) (cs : dict Counters) : Prop :=
  forall b c, dict_get b cs = Some c ->
    processed c = count_entries processed_ev b tl
    /\ failed_count c = count_entries failure_ev b tl
    /\ busy_time c = busy_of b tl.

Definition numbered (tl : list TimelineEntry) (fs : dict Frame) : Prop :=
  forall b fr, dict_get b fs = Some fr ->
    map item_of (filter (item_entry b) tl) = List.seq 1 (item_seq fr - in_hand fr)
    /\ (in_hand fr <= item_seq fr)%nat
    /\ (at_yield fr = AtStart -> item_seq fr = O).

Definition one_at_a_time (t : Q) (cs : dict Counters) (fs : dict Frame) : Prop :=
  forall b c fr, dict_get b cs = Some c -> dict_get b fs = Some fr ->
    busy_time c <= free_since t fr.

(** What the time, the timeline, the counters and the frames of a run have
    to do with each other. *)
Definition Books_of (t : Q) (tl : list TimelineEntry)
           (cs : dict Counters) (fs : dict Frame) : Prop :=
  0 <= t /\ chronological t tl /\ counted tl cs /\ numbered tl fs
  /\ one_at_a_time t cs fs.

Definition Books (s : Sim) : Prop :=
  Books_of (now s) (sim_timeline s) (block_counters s) (frames s).

(** [s'] is [s] but for its Stores, its heap, which has lost no event, its
    event ids, the injector's list and the draws taken. *)
Definition backstage (s s' : Sim) : Prop :=
  now s' = now s /\ block_counters s' = block_counters s
  /\ frames s' = frames s /\ sim_timeline s' = sim_timeline s
  /\ dict_keys (block_stores s') = dict_keys (block_stores s)
  /\ (forall x, In x (queue s) -> In x (queue s')).

(** The stop event of [env.run] is scheduled, at the duration. *)
Definition until_ahead (duration : Q) (s : Sim) : Prop :=
  exists u, In u (queue s) /\ s_event u = Until /\ s_time u == duration.

(** The entry that [block_process] appends for an item. *)
Definition item_entry_of (t : Q) (b : string) (fr : Frame) (start : Q) (failed : bool)
  : TimelineEntry :=
  if failed
  then {| timestamp_ms := t; te_block_id := b; event_type := failure_ev;
          detail := ItemFailed (item_seq fr) (t - start) |}
  else {| timestamp_ms := t; te_block_id := b; event_type := processed_ev;
          detail := ItemDone (item_seq fr) (t - start) |}.

(** [s'] has every scheduled event of [s], and the keys of its
    dictionaries. *)
Definition keeps (s s' : Sim) : Prop :=
  (forall x, In x (queue s) -> In x (queue s'))
  /\ dict_keys (block_stores s') = dict_keys (block_stores s)
  /\ dict_keys (block_counters s') = dict_keys (block_counters s)
  /\ dict_keys (frames s') = dict_keys (frames s).

(** The timeline of [s'] is that of [s], or has one entry more, stamped with
    the time of [s]. *)
Definition stamped (s s' : Sim) : Prop :=
  sim_timeline s' = sim_timeline s
  \/ exists e, timestamp_ms e = now s /\ sim_timeline s' = sim_timeline s ++ [e].

(** The Stores, the counters and the frames are those of the blocks [ids]. *)
Definition keyed (ids : list string) (s : Sim) : Prop :=
  dict_keys (block_stores s) = ids
  /\ dict_keys (block_counters s) = ids
  /\ dict_keys (frames s) = ids.

(** What holds of every state of a run before it stops. *)
Definition Sound (cap : string -> Z) (known : string -> Prop) (ids : list string)
           (duration : Q) (s : Sim) : Prop :=
  Safe cap known s /\ Books s /\ keyed ids s /\ until_ahead duration s
  /\ Forall (fun e => timestamp_ms e < duration) (sim_timeline s).

(** Every scheduled event of [s'] was scheduled in [s], or is one that [P]
    holds of. *)
Definition adds (P : Event -> Prop) (s s' : Sim) : Prop :=
  forall x, In x (queue s') -> In x (queue s) \/ P (s_event x).

(** Why the process of a block can end with the exception [e]: its script
    exited, or the processing time of an item is negative, be it the block's
    own [processing_time_ms] or the one its script left in [result]. *)
Definition cause (bhs : dict Behavior) (ids : list string) (e : Exn) : Prop :=
  match e with
  | SystemExit =>
      exists b script it t,
        In b ids /\ sim_script (behavior_of bhs b) = Some script
        /\ script it t = ScriptExits
  | NegativeDelay d =>
      d < 0
      /\ exists b,
           In b ids
           /\ (d = ptime_of bhs b
               \/ exists script it t f,
                    sim_script (behavior_of bhs b) = Some script
                    /\ script it t = ScriptResult f (TimeNum d))
  | _ => False
  end.

(** The events that [P] holds of are not the end of a process with an
    exception, unless the exception has a cause. *)
Definition faultless (bhs : dict Behavior) (ids : list string) (x : Event) : Prop :=
  forall p e, x = ProcessEnd p (Some e) -> cause bhs ids e.

Definition faults_ok (bhs : dict Behavior) (ids : list string) (s : Sim) : Prop :=
  Forall (fun x => faultless bhs ids (s_event x)) (queue s).

(** Why a run can end with the exception [e]. *)
Definition run_cause (pj : Project) (sc : Scenario) (bhs : dict Behavior) (e : Exn) : Prop :=
  match e with
  | CapacityNotPositive => exists b, In b (block_ids pj) /\ (capacity_of bhs b <= 0)%Z
  | UntilNotAfterNow d => d = duration_of sc /\ d <= 0
  | NoScheduledEvents => False
  | _ => cause bhs (block_ids pj) e
  end.

(** Nothing has happened and nothing is scheduled but the start of block
    processes and the stop event. *)
Definition idle (s : Sim) : Prop :=
  Forall (fun x => s_event x = Until \/ exists b, s_event x = Initialize (BlockProc b))
         (queue s)
  /\ (forall b st, dict_get b (block_stores s) = Some st -> items st = [])
  /\ (forall b c, dict_get b (block_counters s) = Some c -> c = zero_counters)
  /\ sim_timeline s = [].

(** Every item of block [b] gets the verdict [v], failed or not. *)
Definition verdict_kept (v : bool) (b : string) (s : Sim) : Prop :=
  (forall fr start f,
      dict_get b (frames s) = Some fr -> at_yield fr = AtTimeout start f -> f = v)
  /\ (forall c, dict_get b (block_counters s) = Some c ->
                if v then processed c = 0%Z else failed_count c = 0%Z).

(** The "connects" edges from [b] to [t], each counted. *)
Definition fan_out (b t : string) (es : list Edge) : nat :=
  List.length
    (filter (fun e => match forwards_to b e with
                      | Some t' => String.eqb t' t
                      | None => false
                      end) es).

(** The free places of a Store. *)
Definition room (st : Store) : Z := (capacity st - Z.of_nat (List.length (items st)))%Z.

(** [run_with_simpy] from the first state of the loop, when there is one. *)
Definition run_from (fuel : nat) (draw : nat -> Q)
           (pj : Project) (sc : Scenario) (bhs : dict Behavior) (s0 : Sim)
  : option (Response + Exn) :=
  match run_steps (edges pj) bhs draw fuel s0 with
  | None => None
  | Some (inr e) => Some (inr e)
  | Some (inl s) => Some (inl (response_of pj sc s))
  end.

(** The order of [sorted(events, key=...)]. *)
Definition by_time (a b : StimulusEvent) : Prop := ev_time a <= ev_time b.

(** The events whose key is [t]. *)
Definition at_time (t : Q) (ev : StimulusEvent) : bool := Qeq_bool (ev_time ev) t.

(** The events of the injector's process that wake it up. *)
Definition injector_event (e : Event) : Prop :=
  e = Initialize Injector \/ e = Timeout Injector.

Definition is_stimulus_entry (e : TimelineEntry) : bool :=
  kind_eqb (event_type e) stimulus_ev.

(** [e] is the entry that the injector appends for [ev]: its target, its
    signal, and its time, or 0 when that is negative. *)
Definition entry_from (ev : StimulusEvent) (e : TimelineEntry) : Prop :=
  target_of ev = Some (te_block_id e)
  /\ detail e = Signal (signal_of ev)
  /\ timestamp_ms e == Py.max 0 (ev_time ev).

(** The injector between its events: one event at most wakes it up, at time
    0 to start with and then at the time of the next event of the sorted
    rest; the stimulus entries so far come from events of [evs], one at most
    from each. *)
Definition Injecting (evs : list StimulusEvent) (s : Sim) : Prop :=
  (forall x y, In x (queue s) -> In y (queue s) ->
               injector_event (s_event x) -> injector_event (s_event y) -> x = y)
  /\ (forall x, In x (queue s) -> s_event x = Initialize Injector -> s_time x == 0)
  /\ (forall x, In x (queue s) -> s_event x = Timeout Injector ->
        StronglySorted by_time (pending s)
        /\ exists ev rest, pending s = ev :: rest /\ s_time x == Py.max 0 (ev_time ev))
  /\ (forall ev, In ev (pending s) -> In ev evs)
  /\ Forall (fun e => event_type e = stimulus_ev ->
                      exists ev, In ev evs /\ entry_from ev e) (sim_timeline s)
  /\ (List.length (filter is_stimulus_entry (sim_timeline s)) + List.length (pending s)
      <= List.length evs)%nat.

(** The events that do not make block [b] work: no item is on its way to it
    and it waits for no timeout. *)
Definition quiet_event (b : string) (e : Event) : Prop :=
  match e with
  | StoreGet k _ => k <> b
  | Timeout (BlockProc k) => k <> b
  | _ => True
  end.

(** Block [b] has got nothing and has done nothing, and no event still to be
    injected is for it. *)
Definition Unfed (b : string) (s : Sim) : Prop :=
  (forall st, dict_get b (block_stores s) = Some st -> items st = [])
  /\ Forall (fun x => quiet_event b (s_event x)) (queue s)
  /\ (forall c, dict_get b (block_counters s) = Some c -> c = zero_counters)
  /\ Forall (fun e => te_block_id e <> b) (sim_timeline s)
  /\ (forall ev, In ev (pending s) -> target_of ev <> Some b).

(** The events that are about block [b]: its start, an item handed to it,
    and its timeout. *)
Definition about (b : string) (e : Event) : Prop :=
  e = Initialize (BlockProc b) \/ (exists it, e = StoreGet b it)
  \/ e = Timeout (BlockProc b).

(** Block [b] at work: one timeout at most is scheduled for it, which is due
    one processing time after the block took its item, and the items of its
    entries so far took that time. *)
Definition Timing (bhs : dict Behavior) (b : string) (s : Sim) : Prop :=
  (forall x y, In x (queue s) -> In y (queue s) ->
               s_event x = Timeout (BlockProc b) -> s_event y = Timeout (BlockProc b) ->
               x = y)
  /\ (forall x, In x (queue s) -> s_event x = Timeout (BlockProc b) ->
        exists fr start f,
          dict_get b (frames s) = Some fr /\ at_yield fr = AtTimeout start f
          /\ s_time x == start + ptime_of bhs b)
  /\ Forall (fun e => item_entry b e = true -> elapsed_of e == ptime_of bhs b)
            (sim_timeline s).

(* ------------------------------------------------------------------ *)
(** ** Sample requests *)

Module Sample.

Definition block (i : string) : Node := {| node_id := i; node_kind := Some "block"%string |}.

Definition connects (a b : string) : Edge :=
  {| edge_kind := Some "connects"%string; source_id := Some a; target_id := Some b |}.

(** A stimulus with the key [block_id]. *)
Definition stimulus (t : Q) (b : string) : StimulusEvent :=
  {| time_ms := Some t; block_id := Some b; ev_target_id := None;
     target_block_id := None; signal_type := None; value := None |}.

(** A stimulus with the key [target_block_id] only. *)
Definition stimulus_tb (t : Q) (b : string) : StimulusEvent :=
  {| time_ms := Some t; block_id := None; ev_target_id := None;
     target_block_id := Some b; signal_type := None; value := None |}.

Definition params (pt fr qc tp : option Q) : SimParams :=
  {| processing_time_ms := pt; failure_rate := fr;
     queue_capacity := qc; throughput_per_sec := tp |}.

Definition parametric (p : SimParams) : Behavior :=
  {| sim_params := Some p; sim_script := None |}.

Definition one_block : Project := {| nodes := [block "A"]; edges := [] |}.

(** Every draw of the random source is 1/2. *)
Definition half : nat -> Q := fun _ => 1 # 2.

(** The same draws, written another way. *)
Definition half' : nat -> Q := fun n => if (n <? 0)%nat then 0 else 1 # 2.

(** queue_capacity 0, two stimuli while the duration is 50 ms. *)
Definition cap0_bhs : dict Behavior :=
  [("A"%string, parametric (params None None (Some 0) None))].
Definition cap0_sc : Scenario :=
  {| duration_ms := Some 50; events := [stimulus 0 "A"; stimulus 1 "A"] |}.

(** A negative throughput. *)
Definition negative_bhs : dict Behavior :=
  [("A"%string, parametric (params None None None (Some (-1))))].
Definition plain_sc : Scenario := {| duration_ms := Some 10000; events := [] |}.

(** Half of the items fail. *)
Definition half_fail_bhs : dict Behavior :=
  [("A"%string, parametric (params None (Some (1 # 2)) None None))].

(** A scenario of duration 0 with one stimulus at time 0. *)
Definition zero_sc : Scenario :=
  {| duration_ms := Some 0; events := [stimulus 0 "A"] |}.

(** One stimulus names its block with [target_block_id], one names a block
    that does not exist. *)
Definition stray_sc : Scenario :=
  {| duration_ms := Some 1000;
     events := [stimulus_tb 0 "A"; stimulus 1 "Z"] |}.

Definition tb_sc : Scenario :=
  {| duration_ms := Some 1000; events := [stimulus_tb 0 "A"] |}.

(** A script that raises on every item. *)
Definition raising : Script := fun _ _ => ScriptRaises.

(** failure_rate 1 and the raising script. *)
Definition raising_bhs : dict Behavior :=
  [("A"%string,
    {| sim_params := Some (params None (Some 1) None None);
       sim_script := Some raising |})].

Definition one_stimulus_sc : Scenario :=
  {| duration_ms := Some 1000; events := [stimulus 0 "A"] |}.

(** A script that asks for a processing time of -5 ms. *)
Definition hasty : Script := fun _ _ => ScriptResult false (TimeNum (-5)).

Definition hasty_bhs : dict Behavior :=
  [("A"%string, {| sim_params := None; sim_script := Some hasty |})].

(** queue_capacity 1. *)
Definition cap1_bhs : dict Behavior :=
  [("A"%string, parametric (params None None (Some 1) None))].

(** Two stimuli for "A" at time 5. *)
Definition two_sc : Scenario :=
  {| duration_ms := Some 1000;
     events := [stimulus 5 "A"; stimulus 5 "A"] |}.

(** Three stimuli for "A" at time 5. *)
Definition three_sc : Scenario :=
  {| duration_ms := Some 1000;
     events := [stimulus 5 "A"; stimulus 5 "A"; stimulus 5 "A"] |}.

Definition is_stimulus (e : TimelineEntry) : bool :=
  match event_type e with
  | stimulus_ev => true
  | _ => false
  end.

(** Two blocks in a row. *)
Definition chain : Project :=
  {| nodes := [block "A"; block "B"];
     edges := [connects "A" "B"] |}.

(** Three stimuli for "A", the last one too late to be finished. *)
Definition chain_sc : Scenario :=
  {| duration_ms := Some 1000;
     events := [stimulus 0 "A"; stimulus 10 "A"; stimulus 950 "A"] |}.

(** A queue_capacity of one half. *)
Definition half_cap_bhs : dict Behavior :=
  [("A"%string, parametric (params None None (Some (1 # 2)) None))].

(** A duration of -5 ms. *)
Definition negative_sc : Scenario := {| duration_ms := Some (-5); events := [] |}.

(** "A" leads to "B" over three edges and to "C" over one; the Store of "B"
    has two places. *)
Definition fan : Project :=
  {| nodes := [block "A"; block "B"; block "C"];
     edges := [connects "A" "B"; connects "A" "C";
               connects "A" "B"; connects "A" "B"] |}.

Definition fan_bhs : dict Behavior :=
  [("B"%string, parametric (params None None (Some 2) None))].

(** "B" leads to "A", and nothing leads to "B". *)
Definition upstream : Project :=
  {| nodes := [block "A"; block "B"];
     edges := [connects "B" "A"] |}.

End Sample.

(** Evaluates [t] and gives the value under [Some], or under [Some (inl _)],
    for the existential of the goal. *)
Ltac exists_some t :=
  let v := eval vm_compute in t in
  match v with
  | Some (inl ?x) => exists x
  | Some (Returned ?x) => exists x
  | Some ?x => exists x
  end.

(* ------------------------------------------------------------------ *)
(** ** Facts about the Python values *)

Lemma ltb_lt (a b : Q) : Py.ltb a b = true <-> a < b.
Proof.
  unfold Py.ltb. rewrite Qlt_alt. destruct (a ?= b); split; congruence.
Qed.

Lemma ltb_ge (a b : Q) : Py.ltb a b = false <-> b <= a.
Proof.
  split; intro H.
  - apply Qnot_lt_le. intro L. apply ltb_lt in L. congruence.
  - destruct (Py.ltb a b) eqn:E; [|reflexivity].
    apply ltb_lt in E. exfalso. apply (Qlt_not_le _ _ E H).
Qed.

Lemma leb_le (a b : Q) : Py.leb a b = true <-> a <= b.
Proof. unfold Py.leb. apply Qle_bool_iff. Qed.

Lemma int_floor (q : Q) : 0 <= q -> Py.int q = Qfloor q.
Proof.
  destruct q as [n d]. unfold Qle, Py.int, Qfloor. simpl. intro H.
  apply Z.quot_div_nonneg; lia.
Qed.

Lemma int_nonneg (q : Q) : 0 <= q -> (0 <= Py.int q)%Z.
Proof.
  intro H. rewrite (int_floor _ H).
  change 0%Z with (Qfloor 0). apply Qfloor_resp_le. exact H.
Qed.

Lemma int_pos_le (q : Q) : (0 < Py.int q)%Z -> inject_Z (Py.int q) <= q.
Proof.
  intro H. destruct (Qlt_le_dec q 0) as [L|G].
  - exfalso. destruct q as [n d]. unfold Qlt in L. simpl in L.
    unfold Py.int in H. simpl in H.
    assert (B : (n ÷ Z.pos d <= 0 ÷ Z.pos d)%Z) by (apply Z.quot_le_mono; lia).
    rewrite Z.quot_0_l in B; lia.
  - rewrite (int_floor _ G). apply Qfloor_le.
Qed.

Lemma min_le_r (a b : Q) : Py.min a b <= b.
Proof.
  unfold Py.min. destruct (Py.ltb b a) eqn:E.
  - apply Qle_refl.
  - apply ltb_ge in E. exact E.
Qed.

Lemma min_ge (a b c : Q) : c <= a -> c <= b -> c <= Py.min a b.
Proof. unfold Py.min. destruct (Py.ltb b a); auto. Qed.

Lemma max_ge_l (a b : Q) : a <= Py.max a b.
Proof.
  unfold Py.max. destruct (Py.ltb a b) eqn:E.
  - apply ltb_lt in E. apply Qlt_le_weak. exact E.
  - apply Qle_refl.
Qed.

Lemma max_zero (a : Q) : a <= 0 -> Py.max 0 a = 0.
Proof.
  intro H. unfold Py.max. destruct (Py.ltb 0 a) eqn:E; [|reflexivity].
  apply ltb_lt in E. lra.
Qed.

Lemma round_half_even_le (q : Q) (n : Z) :
  q <= inject_Z n -> (Py.round_half_even q <= n)%Z.
Proof.
  intro H1. unfold Py.round_half_even.
  assert (F1 : (Qfloor q <= n)%Z).
  { rewrite <- (Qfloor_Z n). apply Qfloor_resp_le. exact H1. }
  assert (Top : (Qfloor q = n)%Z -> q - inject_Z (Qfloor q) < 1 # 2).
  { intro E. rewrite E.
    apply Qle_lt_trans with (y := 0); [|reflexivity].
    apply Qle_minus_iff in H1. apply Qle_minus_iff.
    setoid_replace (0 + - (q - inject_Z n)) with (inject_Z n + - q) by ring.
    exact H1. }
  destruct (Z.eq_dec (Qfloor q) n) as [E|NE].
  - specialize (Top E). rewrite Qlt_alt in Top. rewrite Top. lia.
  - destruct (q - inject_Z (Qfloor q) ?= 1 # 2); [destruct (Z.even _)| |]; lia.
Qed.

Lemma round_half_even_ge (q : Q) (n : Z) :
  inject_Z n <= q -> (n <= Py.round_half_even q)%Z.
Proof.
  intro H0. unfold Py.round_half_even.
  assert (F0 : (n <= Qfloor q)%Z).
  { rewrite <- (Qfloor_Z n). apply Qfloor_resp_le. exact H0. }
  destruct (q - inject_Z (Qfloor q) ?= 1 # 2); [destruct (Z.even _)| |]; lia.
Qed.

Lemma round4_le_1 (q : Q) : q <= 1 -> Py.round4 q <= 1.
Proof.
  intro H1.
  assert (B : (Py.round_half_even (q * 10000) <= 10000)%Z).
  { apply round_half_even_le.
    setoid_replace (inject_Z 10000) with (1 * 10000) by reflexivity.
    apply Qmult_le_compat_r; [exact H1|discriminate]. }
  unfold Py.round4, Qle. simpl. lia.
Qed.

Lemma round4_ge_0 (q : Q) : 0 <= q -> 0 <= Py.round4 q.
Proof.
  intro H0.
  assert (B : (0 <= Py.round_half_even (q * 10000))%Z).
  { apply round_half_even_ge. apply Qmult_le_0_compat; [exact H0|discriminate]. }
  unfold Py.round4, Qle. simpl. lia.
Qed.

Lemma str_truthy_true (t : string) : t <> ""%string -> Py.str_truthy (Some t) = true.
Proof.
  intro N. simpl. destruct (String.eqb_spec t ""); [contradiction|reflexivity].
Qed.

(* ------------------------------------------------------------------ *)
(** ** Facts about dictionaries *)

Section DictFacts.
Context {V : Type}.
Implicit Types (d : dict V) (k : string).

Lemma dict_get_set k k' (v : V) d :
  dict_get k (dict_set k' v d) = if String.eqb k k' then Some v else dict_get k d.
Proof.
  induction d as [|[k0 v0] d IH]; simpl.
  - destruct (String.eqb k k'); reflexivity.
  - destruct (String.eqb_spec k' k0) as [->|N]; simpl.
    + destruct (String.eqb k k0); reflexivity.
    + destruct (String.eqb_spec k k0) as [->|N'].
      * destruct (String.eqb_spec k0 k'); congruence.
      * exact IH.
Qed.

Lemma dict_get_update k k' (f : V -> V) d :
  dict_get k (dict_update k' f d)
  = if String.eqb k k' then option_map f (dict_get k d) else dict_get k d.
Proof.
  induction d as [|[k0 v0] d IH]; simpl.
  - destruct (String.eqb k k'); reflexivity.
  - destruct (String.eqb_spec k' k0) as [->|N]; simpl.
    + destruct (String.eqb k k0); reflexivity.
    + destruct (String.eqb_spec k k0) as [->|N'].
      * destruct (String.eqb_spec k0 k'); congruence.
      * exact IH.
Qed.

Lemma dict_keys_update k (f : V -> V) d :
  dict_keys (dict_update k f d) = dict_keys d.
Proof.
  induction d as [|[k0 v0] d IH]; simpl; [reflexivity|].
  destruct (String.eqb k k0); simpl; [reflexivity|].
  f_equal. exact IH.
Qed.

Lemma dict_get_In k (v : V) d : dict_get k d = Some v -> In (k, v) d.
Proof.
  induction d as [|[k0 v0] d IH]; simpl; [discriminate|].
  destruct (String.eqb_spec k k0) as [->|N]; intro H.
  - left. congruence.
  - right. auto.
Qed.

Lemma dict_get_keys k d : In k (dict_keys d) <-> dict_get k d <> None.
Proof.
  induction d as [|[k0 v0] d IH]; simpl.
  - split; [tauto|congruence].
  - destruct (String.eqb_spec k k0) as [->|N].
    + split; [discriminate|auto].
    + rewrite <- IH. split; [intros [E|H]; [congruence|exact H]|auto].
Qed.

Lemma In_dict_get k (v : V) d : In (k, v) d -> dict_get k d <> None.
Proof.
  intro H. apply dict_get_keys. unfold dict_keys.
  change k with (fst (k, v)). apply in_map. exact H.
Qed.

Lemma In_dict_set k k' (v v' : V) d :
  In (k, v) (dict_set k' v' d) -> (k = k' /\ v = v') \/ In (k, v) d.
Proof.
  induction d as [|[k0 v0] d IH]; simpl.
  - intros [E|[]]. left. split; congruence.
  - destruct (String.eqb_spec k' k0) as [->|N]; simpl.
    + intros [E|H]; [left; split; congruence|right; right; exact H].
    + intros [E|H]; [right; left; exact E|].
      destruct (IH H) as [L|R]; [left; exact L|right; right; exact R].
Qed.

Lemma dict_keys_set_In k k' (v : V) d :
  In k (dict_keys (dict_set k' v d)) <-> k = k' \/ In k (dict_keys d).
Proof.
  rewrite !dict_get_keys, dict_get_set.
  destruct (String.eqb_spec k k') as [->|N].
  - split; [auto|discriminate].
  - split; [auto|intros [E|H]; [congruence|exact H]].
Qed.
End DictFacts.

Lemma dict_mem_update {V : Type} (k k' : string) (f : V -> V) (d : dict V) :
  dict_mem k (dict_update k' f d) = dict_mem k d.
Proof.
  unfold dict_mem. rewrite dict_get_update.
  destruct (String.eqb k k'); [|reflexivity].
  destruct (dict_get k d); reflexivity.
Qed.

Lemma dict_get_map_const {V : Type} (v x : V) (b : string) (ids : list string) :
  dict_get b (map (fun k => (k, v)) ids) = Some x -> x = v.
Proof.
  induction ids as [|k ids IH]; simpl; [discriminate|].
  destruct (String.eqb b k); [congruence|exact IH].
Qed.

Lemma dict_get_map_key {V : Type} (f : string -> V) (b : string) (v : V)
      (ids : list string) :
  dict_get b (map (fun k => (k, f k)) ids) = Some v -> In b ids.
Proof.
  induction ids as [|k ids IH]; simpl; [discriminate|].
  destruct (String.eqb_spec b k) as [->|N]; [left; reflexivity|].
  intro H. right. auto.
Qed.

(* ------------------------------------------------------------------ *)
(** ** run_deterministic: its metrics *)

Section DeterministicFacts.
Variables (duration : Q) (bhs : dict Behavior).

Lemma loop_get (b : string) (ns : list Node) (acc : dict BlockMetrics) :
  dict_get b (Deterministic.loop duration bhs ns acc)
  = if existsb (is_block_named b) ns
    then Some (Deterministic.block_metrics duration (params_of (behavior_of bhs b)))
    else dict_get b acc.
Proof.
  revert acc. induction ns as [|n ns IH]; intro acc; simpl; [reflexivity|].
  unfold is_block_named at 1.
  destruct (is_block n); simpl; rewrite IH; [|reflexivity].
  rewrite dict_get_set.
  destruct (String.eqb_spec b (node_id n)) as [E|N];
    destruct (existsb (is_block_named b) ns); simpl; rewrite ?E; reflexivity.
Qed.

Lemma loop_In (b : string) (m : BlockMetrics) (ns : list Node) (acc : dict BlockMetrics) :
  In (b, m) (Deterministic.loop duration bhs ns acc) ->
  m = Deterministic.block_metrics duration (params_of (behavior_of bhs b))
  \/ In (b, m) acc.
Proof.
  revert acc. induction ns as [|n ns IH]; intro acc; simpl; [auto|].
  destruct (is_block n); intro H; apply IH in H; [|exact H].
  destruct H as [H|H]; [left; exact H|].
  apply In_dict_set in H. destruct H as [[-> ->]|H]; [left; reflexivity|right; exact H].
Qed.

Lemma processed_nonneg (p : SimParams) :
  0 <= duration ->
  (forall tp, throughput_per_sec p = Some tp -> 0 <= tp) ->
  (0 <= Deterministic.processed_of duration p)%Z.
Proof.
  intros HD Htp. unfold Deterministic.processed_of.
  assert (BT : (0 <= (if Py.ltb 0 (Py.num_or (processing_time_ms p) 100)
                      then Py.int (duration / Py.num_or (processing_time_ms p) 100)
                      else 0))%Z).
  { destruct (Py.ltb 0 _) eqn:E; [|lia].
    apply ltb_lt in E. apply int_nonneg.
    apply Qle_shift_div_l; [exact E|]. rewrite Qmult_0_l. exact HD. }
  destruct (throughput_per_sec p) as [tp|]; [|exact BT].
  destruct (Py.truthy (Some tp)); [|exact BT].
  apply int_nonneg. apply Qmult_le_0_compat; [auto|].
  apply Qle_shift_div_l; [reflexivity|]. rewrite Qmult_0_l. exact HD.
Qed.
End DeterministicFacts.

Lemma processed_of_spec (duration : Q) (p : SimParams) :
  0 <= duration ->
  (forall tp, throughput_per_sec p = Some tp -> 0 <= tp) ->
  Deterministic.processed_of duration p
  = SpecFormulas.processed duration (Py.num_or (processing_time_ms p) 100)
      (effective_throughput p).
Proof.
  intros HD Htp. unfold Deterministic.processed_of, effective_throughput.
  assert (BT : (if Py.ltb 0 (Py.num_or (processing_time_ms p) 100)
                then Py.int (duration / Py.num_or (processing_time_ms p) 100)
                else 0%Z)
               = SpecFormulas.processed duration (Py.num_or (processing_time_ms p) 100) None).
  { simpl. destruct (Py.ltb 0 _) eqn:E; [|reflexivity].
    apply ltb_lt in E. apply int_floor.
    apply Qle_shift_div_l; [exact E|]. rewrite Qmult_0_l. exact HD. }
  destruct (throughput_per_sec p) as [tp|] eqn:T; [|exact BT].
  destruct (Py.truthy (Some tp)); [|exact BT].
  unfold SpecFormulas.processed. rewrite int_floor.
  - apply Qfloor_comp. field.
  - apply Qmult_le_0_compat; [auto|].
    apply Qle_shift_div_l; [reflexivity|]. rewrite Qmult_0_l. exact HD.
Qed.

Lemma det_utilization_le_1 (duration : Q) (p : SimParams) :
  utilization (Deterministic.block_metrics duration p) <= 1.
Proof.
  unfold Deterministic.block_metrics. simpl. apply round4_le_1.
  unfold Deterministic.util_of.
  destruct (Py.ltb 0 duration); [apply min_le_r|discriminate].
Qed.

Lemma det_utilization_ge_0 (duration : Q) (p : SimParams) :
  0 <= Py.num_or (processing_time_ms p) 100 ->
  (forall tp, throughput_per_sec p = Some tp -> 0 <= tp) ->
  0 <= utilization (Deterministic.block_metrics duration p).
Proof.
  intros Hp Htp. unfold Deterministic.block_metrics. simpl. apply round4_ge_0.
  unfold Deterministic.util_of.
  destruct (Py.ltb 0 duration) eqn:E; [|apply Qle_refl].
  apply ltb_lt in E. apply min_ge; [|discriminate].
  apply Qle_shift_div_l; [exact E|]. rewrite Qmult_0_l.
  apply Qmult_le_0_compat; [exact Hp|].
  change 0 with (inject_Z 0). rewrite <- Zle_Qle.
  apply processed_nonneg; [apply Qlt_le_weak; exact E|exact Htp].
Qed.

(* ------------------------------------------------------------------ *)
(** ** The heap of scheduled events *)

Lemma key_lt_spec (a b : Scheduled) :
  key_lt a b = true <->
  s_time a < s_time b
  \/ (s_time a == s_time b
      /\ ((priority (s_event a) < priority (s_event b))%nat
          \/ (priority (s_event a) = priority (s_event b) /\ (s_eid a < s_eid b)%nat))).
Proof.
  unfold key_lt.
  destruct (s_time a ?= s_time b) eqn:C.
  - apply Qeq_alt in C.
    rewrite orb_true_iff, andb_true_iff, !Nat.ltb_lt, Nat.eqb_eq.
    split.
    + intro H. right. split; [exact C|exact H].
    + intros [L|[_ H]]; [|exact H].
      exfalso. rewrite C in L. apply (Qlt_irrefl _ L).
  - apply Qlt_alt in C. split; [auto|reflexivity].
  - apply Qgt_alt in C. split; [discriminate|].
    intros [L|[E _]]; exfalso.
    + apply (Qlt_irrefl (s_time a)). apply Qlt_trans with (y := s_time b); assumption.
    + rewrite E in C. apply (Qlt_irrefl _ C).
Qed.

Lemma key_le_time (a b : Scheduled) : key_le a b -> s_time a <= s_time b.
Proof.
  unfold key_le. intro H. apply Qnot_lt_le. intro L.
  assert (T : key_lt b a = true) by (apply key_lt_spec; left; exact L).
  congruence.
Qed.

Lemma key_lt_le (a b : Scheduled) : key_lt a b = true -> key_le a b.
Proof.
  unfold key_le. intro H. destruct (key_lt b a) eqn:E; [|reflexivity].
  apply key_lt_spec in H. apply key_lt_spec in E. exfalso.
  destruct H as [H|[H1 H2]], E as [E|[E1 E2]].
  - apply (Qlt_irrefl (s_time a)). apply Qlt_trans with (y := s_time b); assumption.
  - rewrite E1 in H. apply (Qlt_irrefl _ H).
  - rewrite H1 in E. apply (Qlt_irrefl _ E).
  - lia.
Qed.

Lemma key_lt_le_trans (x y z : Scheduled) : key_lt x y = true -> key_le y z -> key_le x z.
Proof.
  unfold key_le. intros H1 H2. destruct (key_lt z x) eqn:E; [|reflexivity].
  exfalso. assert (T : key_lt z y = true); [|congruence].
  apply key_lt_spec in H1. apply key_lt_spec in E. apply key_lt_spec.
  destruct H1 as [H|[H H']], E as [E|[E E']].
  - left. apply Qlt_trans with (y := s_time x); assumption.
  - left. rewrite E. exact H.
  - left. rewrite <- H. exact E.
  - right. split; [rewrite E; exact H|lia].
Qed.

Lemma In_heappush (x y : Scheduled) (q : list Scheduled) :
  In y (heappush x q) <-> y = x \/ In y q.
Proof.
  induction q as [|z q IH]; simpl.
  - split; [intros [E|[]]; auto|intros [E|[]]; auto].
  - destruct (key_lt x z); simpl.
    + split; [intros [E|H]; auto|intros [E|H]; auto].
    + rewrite IH. split; [intros [E|[E|H]]; auto|intros [E|[E|H]]; auto].
Qed.

Lemma Forall_heappush (P : Scheduled -> Prop) (x : Scheduled) (q : list Scheduled) :
  P x -> Forall P q -> Forall P (heappush x q).
Proof.
  intros Hx Hq. apply Forall_forall. intros y Hy.
  apply In_heappush in Hy. destruct Hy as [->|Hy]; [exact Hx|].
  rewrite Forall_forall in Hq. auto.
Qed.

Lemma heappush_sorted (x : Scheduled) (q : list Scheduled) :
  StronglySorted key_le q -> StronglySorted key_le (heappush x q).
Proof.
  induction 1 as [|y q Hs IH Hy]; simpl.
  - constructor; constructor.
  - destruct (key_lt x y) eqn:E.
    + constructor; [constructor; assumption|].
      constructor; [apply key_lt_le; exact E|].
      eapply Forall_impl; [|exact Hy]. intros z Hz.
      eapply key_lt_le_trans; eassumption.
    + constructor; [exact IH|].
      apply Forall_heappush; [exact E|exact Hy].
Qed.

Lemma NoDup_heappush (x : Scheduled) (q : list Scheduled) :
  ~ In (s_eid x) (map s_eid q) -> NoDup (map s_eid q) ->
  NoDup (map s_eid (heappush x q)).
Proof.
  induction q as [|y q IH]; simpl; intros N D.
  - constructor; [intros []|constructor].
  - destruct (key_lt x y); simpl.
    + constructor; [exact N|exact D].
    + inversion D as [|? ? Ny Dq]; subst. constructor.
      * intro I. apply in_map_iff in I. destruct I as (z & E & I).
        apply In_heappush in I. destruct I as [->|I].
        -- apply N. left. symmetry. exact E.
        -- apply Ny. rewrite <- E. apply in_map. exact I.
      * apply IH; [|exact Dq]. intro I. apply N. right. exact I.
Qed.

Lemma queue_ok_push (t d : Q) (n : nat) (e : Event) (q : list Scheduled) :
  0 <= d -> queue_ok t n q ->
  queue_ok t (S n) (heappush {| s_time := t + d; s_eid := n; s_event := e |} q).
Proof.
  intros Hd (Hs & Ht & Hn & Hd'). split; [|split; [|split]].
  - apply heappush_sorted. exact Hs.
  - apply Forall_heappush; [|exact Ht]. simpl. lra.
  - apply Forall_heappush; [simpl; lia|].
    eapply Forall_impl; [|exact Hn]. simpl. intros. lia.
  - apply NoDup_heappush; [|exact Hd']. simpl. intro I.
    apply in_map_iff in I. destruct I as (z & E & I).
    rewrite Forall_forall in Hn. specialize (Hn z I). lia.
Qed.

Lemma queue_ok_pop (t : Q) (n : nat) (x : Scheduled) (q : list Scheduled) :
  queue_ok t n (x :: q) -> t <= s_time x /\ queue_ok (s_time x) n q.
Proof.
  intros (Hs & Ht & Hn & Hd). inversion Hs as [|? ? Hs' Hx]; subst.
  inversion Ht as [|? ? Hx0 Ht']; subst.
  inversion Hn as [|? ? Hn0 Hn']; subst.
  simpl in Hd. inversion Hd as [|? ? Hd0 Hd']; subst.
  split; [exact Hx0|]. split; [exact Hs'|split; [|split; [exact Hn'|exact Hd']]].
  eapply Forall_impl; [|exact Hx]. intros y Hy. apply key_le_time. exact Hy.
Qed.

(** Two entries with different event ids never tie. *)
Lemma key_total (a b : Scheduled) :
  s_eid a <> s_eid b -> key_lt a b = true \/ key_lt b a = true.
Proof.
  intro N. rewrite !key_lt_spec.
  destruct (Q_dec (s_time a) (s_time b)) as [[L|G]|E]; [left; left; exact L|right; left; exact G|].
  destruct (lt_eq_lt_dec (priority (s_event a)) (priority (s_event b))) as [[L|E']|G].
  - left. right. split; [exact E|left; exact L].
  - destruct (lt_eq_lt_dec (s_eid a) (s_eid b)) as [[L|E'']|G].
    + left. right. split; [exact E|right; split; assumption].
    + contradiction.
    + right. right. split; [symmetry; exact E|right; split; [symmetry; exact E'|exact G]].
  - right. right. split; [symmetry; exact E|left; exact G].
Qed.

(** At one time and one priority the order is the order of scheduling. *)
Lemma key_lt_same_time (a b : Scheduled) :
  s_time a == s_time b -> priority (s_event a) = priority (s_event b) ->
  key_lt a b = (s_eid a <? s_eid b)%nat.
Proof.
  intros E P. unfold key_lt. apply Qeq_alt in E. rewrite E, P.
  rewrite Nat.ltb_irrefl, Nat.eqb_refl. reflexivity.
Qed.

(** The heap has a strict order: [heappop] has one answer. *)
Lemma queue_ok_strict (t : Q) (n : nat) (q : list Scheduled) :
  queue_ok t n q -> StronglySorted (fun a b => key_lt a b = true) q.
Proof.
  intros (Hs & _ & _ & Hd). induction Hs as [|x q Hs IH Hx]; [constructor|].
  simpl in Hd. inversion Hd as [|? ? Nx Dq]; subst.
  constructor; [apply IH; exact Dq|].
  apply Forall_forall. intros y I.
  destruct (key_total x y) as [L|G].
  - intro E. apply Nx. rewrite E. apply in_map. exact I.
  - exact L.
  - rewrite Forall_forall in Hx. specialize (Hx y I). unfold key_le in Hx. congruence.
Qed.

Lemma heappush_front (x : Scheduled) (q : list Scheduled) :
  Forall (fun y => s_time x < s_time y) q -> heappush x q = x :: q.
Proof.
  destruct q as [|y q]; [reflexivity|]. intro F. simpl.
  inversion F as [|? ? L _]; subst.
  assert (K : key_lt x y = true) by (apply key_lt_spec; left; exact L).
  rewrite K. reflexivity.
Qed.

Lemma heappush_second (x y : Scheduled) (q : list Scheduled) :
  s_time x == s_time y -> priority (s_event x) = priority (s_event y) ->
  (s_eid y < s_eid x)%nat ->
  Forall (fun z => s_time x < s_time z) q ->
  heappush x (y :: q) = y :: x :: q.
Proof.
  intros T P E F. simpl. rewrite (key_lt_same_time x y T P).
  assert (L : (s_eid x <? s_eid y)%nat = false) by (apply Nat.ltb_ge; lia).
  rewrite L, (heappush_front x q F). reflexivity.
Qed.

(* ------------------------------------------------------------------ *)
(** ** Every step keeps the state safe *)

Lemma timeline_ok_update (k : string) (f : Store -> Store) (d : dict Store)
      (tl : list TimelineEntry) :
  timeline_ok d tl -> timeline_ok (dict_update k f d) tl.
Proof.
  unfold timeline_ok. intro H. eapply Forall_impl; [|exact H].
  intros e He T. rewrite dict_mem_update. auto.
Qed.

Lemma stores_ok_update (cap : string -> Z) (known : string -> Prop)
      (k : string) (f : Store -> Store)
      (d : dict Store) :
  stores_ok cap known d ->
  (forall st, dict_get k d = Some st ->
     (Z.of_nat (List.length (items (f st))) <= capacity (f st))%Z
     /\ capacity (f st) = capacity st) ->
  stores_ok cap known (dict_update k f d).
Proof.
  intros H Hf b st. rewrite dict_get_update.
  destruct (String.eqb_spec b k) as [->|N]; [|apply H].
  destruct (dict_get k d) as [st0|] eqn:G; simpl; [|discriminate].
  intro E. injection E as <-.
  destruct (Hf st0 eq_refl) as [A B]. destruct (H k st0 G) as (_ & C & P & K).
  split; [exact A|split; [congruence|split; [rewrite B; exact P|exact K]]].
Qed.

Lemma stores_ok_set (cap : string -> Z) (known : string -> Prop)
      (k : string) (v : Store) (d : dict Store) :
  stores_ok cap known d ->
  (Z.of_nat (List.length (items v)) <= capacity v)%Z -> capacity v = cap k ->
  (0 < capacity v)%Z -> known k ->
  stores_ok cap known (dict_set k v d).
Proof.
  intros H A B P K b st. rewrite dict_get_set.
  destruct (String.eqb_spec b k) as [->|N]; [|apply H].
  intro E. injection E as <-. auto.
Qed.

Section SafeSteps.
Variables (es : list Edge) (bhs : dict Behavior) (draw : nat -> Q).
Variable cap : string -> Z.
Variable known : string -> Prop.

Lemma Safe_intro (s : Sim) :
  queue_ok (now s) (next_eid s) (queue s) -> stores_ok cap known (block_stores s) ->
  frames_ok (now s) (frames s) -> counters_ok (block_counters s) ->
  timeline_ok (block_stores s) (sim_timeline s) -> Safe cap known s.
Proof. unfold Safe. auto. Qed.

Lemma schedule_safe (d : Q) (e : Event) (s : Sim) :
  0 <= d -> Safe cap known s -> Safe cap known (schedule d e s).
Proof.
  intros Hd (Hq & Hs & Hf & Hc & Ht).
  apply Safe_intro; simpl; try assumption. apply queue_ok_push; assumption.
Qed.

Lemma store_put_safe (b : string) (it : Item) (st : Store) (s : Sim) :
  dict_get b (block_stores s) = Some st -> has_room st = true ->
  Safe cap known s -> Safe cap known (store_put b it s).
Proof.
  intros G R (Hq & Hs & Hf & Hc & Ht).
  apply schedule_safe; [apply Qle_refl|].
  apply Safe_intro; simpl; try assumption.
  - apply stores_ok_update; [exact Hs|].
    intros st0 G0. simpl. split; [|reflexivity].
    assert (st0 = st) by congruence. subst st0.
    unfold has_room in R. apply Z.ltb_lt in R.
    rewrite length_app. simpl. lia.
  - apply timeline_ok_update. exact Ht.
Qed.

Lemma try_put_safe (b : string) (it : Item) (s : Sim) :
  Safe cap known s -> Safe cap known (fst (try_put b it s)).
Proof.
  intro H. unfold try_put.
  destruct (dict_get b (block_stores s)) as [st|] eqn:G; [|exact H].
  destruct (has_room st) eqn:R; [|exact H].
  simpl. eapply store_put_safe; eassumption.
Qed.

Lemma store_get_safe (b : string) (s : Sim) : Safe cap known s -> Safe cap known (store_get b s).
Proof.
  intros (Hq & Hs & Hf & Hc & Ht). unfold store_get.
  destruct (dict_get b (block_stores s)) as [st|] eqn:G;
    [|apply Safe_intro; assumption].
  destruct (items st) as [|it rest] eqn:I.
  - apply Safe_intro; simpl; try assumption.
    + apply stores_ok_update; [exact Hs|].
      intros st0 G0. simpl. split; [|reflexivity]. apply (Hs b st0 G0).
    + apply timeline_ok_update. exact Ht.
  - apply schedule_safe; [apply Qle_refl|].
    apply Safe_intro; simpl; try assumption.
    + apply stores_ok_update; [exact Hs|].
      intros st0 G0. simpl. split; [|reflexivity].
      assert (st0 = st) by congruence. subst st0.
      destruct (Hs b st G) as [A _]. rewrite I in A. simpl in A. lia.
    + apply timeline_ok_update. exact Ht.
Qed.

Lemma trigger_get_safe (b : string) (s : Sim) : Safe cap known s -> Safe cap known (trigger_get b s).
Proof.
  intro H. unfold trigger_get.
  destruct (dict_get b (block_stores s)) as [st|]; [|exact H].
  destruct (get_waiting st); [apply store_get_safe|]; exact H.
Qed.

Lemma count_safe (b : string) (f : Counters -> Counters) (s : Sim) :
  (forall c, 0 <= busy_time c -> 0 <= busy_time (f c)) ->
  Safe cap known s -> Safe cap known (count b f s).
Proof.
  intros Hf0 (Hq & Hs & Hf & Hc & Ht).
  apply Safe_intro; simpl; try assumption.
  intros k c. rewrite dict_get_update.
  destruct (String.eqb k b); [|apply Hc].
  destruct (dict_get k (block_counters s)) as [c0|] eqn:G; simpl; [|discriminate].
  intro E. injection E as <-. apply Hf0. apply (Hc k c0 G).
Qed.

Lemma set_frame_safe (b : string) (fr : Frame) (s : Sim) :
  (forall start f, at_yield fr = AtTimeout start f -> start <= now s) ->
  Safe cap known s -> Safe cap known (set_frame b fr s).
Proof.
  intros Hfr (Hq & Hs & Hf & Hc & Ht).
  apply Safe_intro; simpl; try assumption.
  intros k fr0 start f. rewrite dict_get_update.
  destruct (String.eqb k b); [|apply Hf].
  destruct (dict_get k (frames s)) as [fr1|] eqn:G; simpl; [|discriminate].
  intro E. injection E as <-. apply Hfr.
Qed.

Lemma timeline_append_safe (e : TimelineEntry) (s : Sim) :
  (event_type e = stimulus_ev -> dict_mem (te_block_id e) (block_stores s) = true) ->
  Safe cap known s -> Safe cap known (timeline_append e s).
Proof.
  intros He (Hq & Hs & Hf & Hc & Ht).
  apply Safe_intro; simpl; try assumption.
  apply Forall_app. split; [exact Ht|]. constructor; [exact He|constructor].
Qed.

Lemma set_pending_safe (p : list StimulusEvent) (s : Sim) :
  Safe cap known s -> Safe cap known (set_pending p s).
Proof. intro H. exact H. Qed.

Lemma set_draws_safe (n : nat) (s : Sim) : Safe cap known s -> Safe cap known (set_draws n s).
Proof. intro H. exact H. Qed.

Lemma pop_safe (x : Scheduled) (q : list Scheduled) (s : Sim) :
  queue s = x :: q -> Safe cap known s -> Safe cap known (set_now (s_time x) (set_queue q s)).
Proof.
  intros E (Hq & Hs & Hf & Hc & Ht). rewrite E in Hq.
  apply queue_ok_pop in Hq. destruct Hq as [Hx Hq].
  apply Safe_intro; simpl; try assumption.
  intros b fr start f G A. apply Qle_trans with (y := now s); [|exact Hx].
  eapply Hf; eassumption.
Qed.
End SafeSteps.

Section SafeRun.
Variables (es : list Edge) (bhs : dict Behavior) (draw : nat -> Q).
Variable cap : string -> Z.
Variable known : string -> Prop.

Lemma policy_state (b : string) (it : Item) (s : Sim) :
  snd (policy bhs draw b it s) = s
  \/ snd (policy bhs draw b it s) = set_draws (S (draws s)) s.
Proof.
  unfold policy. destruct (sim_script (behavior_of bhs b)); simpl; auto.
Qed.

Lemma policy_safe (b : string) (it : Item) (s : Sim) :
  Safe cap known s -> Safe cap known (snd (policy bhs draw b it s))
                /\ now (snd (policy bhs draw b it s)) = now s.
Proof.
  intro H. destruct (policy_state b it s) as [-> | ->]; split; auto.
Qed.

Lemma forward_safe (b : string) (seq : nat) (l : list Edge) (s : Sim) :
  Safe cap known s -> Safe cap known (forward b seq l s).
Proof.
  revert s. induction l as [|e l IH]; intros s H; simpl; [exact H|].
  apply IH. destruct (forwards_to b e); [apply try_put_safe|]; exact H.
Qed.

Lemma block_start_safe (b : string) (s : Sim) :
  Safe cap known s -> Safe cap known (block_start b s).
Proof.
  intro H. unfold block_start.
  destruct (dict_get b (frames s)) as [fr|]; [|exact H].
  destruct (at_yield fr); try exact H.
  apply store_get_safe. apply set_frame_safe; [discriminate|exact H].
Qed.

Lemma block_take_safe (b : string) (it : Item) (s : Sim) :
  Safe cap known s -> Safe cap known (block_take bhs draw b it s).
Proof.
  intro H. unfold block_take.
  destruct (dict_get b (frames s)) as [fr|]; [|exact H].
  destruct (at_yield fr); try exact H.
  destruct (policy_safe b it s H) as [Hp Hn].
  destruct (policy bhs draw b it s) as [[failed pt|] s1]; simpl in Hp, Hn.
  - destruct (Py.ltb pt 0) eqn:E.
    + apply schedule_safe; [apply Qle_refl|].
      apply set_frame_safe; [discriminate|exact Hp].
    + apply ltb_ge in E. apply schedule_safe; [exact E|].
      apply set_frame_safe; [|exact Hp].
      simpl. intros start f Eq. injection Eq as <- _. rewrite Hn. apply Qle_refl.
  - apply schedule_safe; [apply Qle_refl|].
    apply set_frame_safe; [discriminate|exact Hp].
Qed.

Lemma block_done_safe (b : string) (s : Sim) :
  Safe cap known s -> Safe cap known (block_done es b s).
Proof.
  intro H. unfold block_done.
  destruct (dict_get b (frames s)) as [fr|] eqn:G; [|exact H].
  destruct (at_yield fr) as [| |start failed|] eqn:A; try exact H.
  assert (El : 0 <= now s - start).
  { destruct H as (_ & _ & Hf & _). specialize (Hf b fr start failed G A). lra. }
  apply store_get_safe. apply set_frame_safe; [discriminate|].
  assert (H1 : Safe cap known (count b (add_busy (now s - start)) s)).
  { apply count_safe; [|exact H]. intros c Hc. simpl. lra. }
  destruct failed.
  - apply timeline_append_safe; [discriminate|].
    apply count_safe; [auto|exact H1].
  - apply forward_safe. apply timeline_append_safe; [discriminate|].
    apply count_safe; [auto|exact H1].
Qed.

Lemma injector_wait_safe (s : Sim) : Safe cap known s -> Safe cap known (injector_wait s).
Proof.
  intro H. unfold injector_wait. destruct (pending s).
  - apply schedule_safe; [apply Qle_refl|exact H].
  - apply schedule_safe; [apply max_ge_l|exact H].
Qed.

Lemma try_put_accepted (b : string) (it : Item) (s s1 : Sim) :
  try_put b it s = (s1, true) ->
  exists st, dict_get b (block_stores s) = Some st /\ has_room st = true
             /\ s1 = store_put b it s.
Proof.
  unfold try_put.
  destruct (dict_get b (block_stores s)) as [st|]; [|discriminate].
  destruct (has_room st) eqn:R; [|discriminate].
  intro E. injection E as <-. exists st. auto.
Qed.

Lemma deliver_safe (ev : StimulusEvent) (s : Sim) :
  Safe cap known s -> Safe cap known (deliver ev s).
Proof.
  intro H. unfold deliver.
  destruct (target_of ev) as [t|]; [|exact H].
  destruct (Py.str_truthy (Some t)); [|exact H].
  destruct (try_put t _ s) as [s1 [|]] eqn:T; [|exact H].
  apply try_put_accepted in T. destruct T as (st & G & R & ->).
  apply timeline_append_safe.
  - intros _. simpl. rewrite dict_mem_update. unfold dict_mem. rewrite G. reflexivity.
  - eapply store_put_safe; eassumption.
Qed.

Lemma injector_fire_safe (s : Sim) : Safe cap known s -> Safe cap known (injector_fire s).
Proof.
  intro H. unfold injector_fire. destruct (pending s) as [|ev rest]; [exact H|].
  apply injector_wait_safe. apply set_pending_safe. apply deliver_safe. exact H.
Qed.

Lemma fire_safe (e : Event) (s s' : Sim) :
  Safe cap known s ->
  fire es bhs draw e s = Running s' \/ fire es bhs draw e s = Stopped s' ->
  Safe cap known s'.
Proof.
  intros H [E|E]; destruct e as [[b|]|[b|]|b|b it|p [exc|]|]; simpl in E;
    try discriminate; injection E as <-.
  - apply block_start_safe; exact H.
  - apply injector_wait_safe. exact H.
  - apply block_done_safe; exact H.
  - apply injector_fire_safe; exact H.
  - apply trigger_get_safe; exact H.
  - apply block_take_safe; exact H.
  - exact H.
  - exact H.
Qed.

Lemma step_safe (s s' : Sim) :
  Safe cap known s ->
  step es bhs draw s = Running s' \/ step es bhs draw s = Stopped s' ->
  Safe cap known s'.
Proof.
  unfold step. intros H E.
  destruct (queue s) as [|x q] eqn:Q; [destruct E; discriminate|].
  eapply fire_safe; [|exact E]. apply pop_safe; assumption.
Qed.

Lemma steps_safe (n : nat) (s s' : Sim) :
  Safe cap known s -> steps es bhs draw n s = Some s' -> Safe cap known s'.
Proof.
  revert s. induction n as [|n IH]; intros s H; simpl.
  - intro E. injection E as <-. exact H.
  - destruct (step es bhs draw s) as [s1|s1|e] eqn:E; try discriminate.
    apply IH. eapply step_safe; [exact H|left; exact E].
Qed.

Lemma run_steps_safe (fuel : nat) (s s' : Sim) :
  Safe cap known s -> run_steps es bhs draw fuel s = Some (inl s') -> Safe cap known s'.
Proof.
  revert s. induction fuel as [|n IH]; intros s H; simpl; [discriminate|].
  destruct (step es bhs draw s) as [s1|s1|e] eqn:E.
  - apply IH. eapply step_safe; [exact H|left; exact E].
  - intro R. injection R as <-. eapply step_safe; [exact H|right; exact E].
  - discriminate.
Qed.

(** A run that stops has gone through some number of steps first. *)
Lemma run_steps_stopped (fuel : nat) (s s' : Sim) :
  run_steps es bhs draw fuel s = Some (inl s') ->
  exists n s1, steps es bhs draw n s = Some s1 /\ step es bhs draw s1 = Stopped s'.
Proof.
  revert s. induction fuel as [|k IH]; intros s; simpl; [discriminate|].
  destruct (step es bhs draw s) as [s1|s1|e] eqn:E.
  - intro R. destruct (IH _ R) as (n & s2 & A & B).
    exists (S n), s2. simpl. rewrite E. auto.
  - intro R. injection R as <-. exists O, s. auto.
  - discriminate.
Qed.
End SafeRun.

(* ------------------------------------------------------------------ *)
(** ** The run from its first state to its response *)

Lemma run_with_simpy_inl (fuel : nat) (draw : nat -> Q)
      (pj : Project) (sc : Scenario) (bhs : dict Behavior) (r : Response) :
  run_with_simpy fuel draw pj sc bhs = Some (inl r) ->
  exists s0 s, loop_start pj sc bhs = Some s0
               /\ run_steps (edges pj) bhs draw fuel s0 = Some (inl s)
               /\ r = response_of pj sc s.
Proof.
  unfold run_with_simpy, loop_start, env_run.
  destruct (make_stores bhs _ []) as [stores|e]; [|discriminate].
  destruct (Py.leb _ _); [discriminate|].
  destruct (run_steps _ _ _ _ _) as [[s|e]|] eqn:R; try discriminate.
  intro E. injection E as <-. eauto.
Qed.

Lemma run_with_simpy_of_steps (fuel : nat) (draw : nat -> Q)
      (pj : Project) (sc : Scenario) (bhs : dict Behavior) (s0 s : Sim) :
  loop_start pj sc bhs = Some s0 ->
  run_steps (edges pj) bhs draw fuel s0 = Some (inl s) ->
  run_with_simpy fuel draw pj sc bhs = Some (inl (response_of pj sc s)).
Proof.
  unfold run_with_simpy, loop_start, env_run.
  destruct (make_stores bhs _ []) as [stores|e]; [|discriminate].
  destruct (Py.leb _ _); [discriminate|].
  intro E. injection E as <-. intros ->. reflexivity.
Qed.

Lemma make_stores_ok (bhs : dict Behavior) (known : string -> Prop)
      (ids : list string) (acc stores : dict Store) :
  make_stores bhs ids acc = inl stores ->
  (forall b, In b ids -> known b) ->
  stores_ok (capacity_of bhs) known acc -> stores_ok (capacity_of bhs) known stores.
Proof.
  revert acc. induction ids as [|b ids IH]; intros acc; simpl.
  - intro E. injection E as <-. auto.
  - destruct (capacity_of bhs b <=? 0)%Z eqn:C; [discriminate|].
    intros E K H. apply Z.leb_gt in C.
    apply (IH _ E); [intros k I; apply K; right; exact I|].
    apply stores_ok_set; [exact H| |reflexivity|exact C|apply K; left; reflexivity].
    simpl. lia.
Qed.

Lemma launch_safe (cap : string -> Z) (known : string -> Prop)
      (ids : list string) (evs : list StimulusEvent) (s : Sim) :
  Safe cap known s -> Safe cap known (launch ids evs s).
Proof.
  intro H. unfold launch.
  assert (F : Safe cap known (fold_left (fun s b => schedule 0 (Initialize (BlockProc b)) s) ids s)).
  { revert s H. induction ids as [|b ids IH]; intros s H; simpl; [exact H|].
    apply IH. apply schedule_safe; [apply Qle_refl|exact H]. }
  destruct evs; [exact F|].
  apply schedule_safe; [apply Qle_refl|exact F].
Qed.

Lemma now_launch (ids : list string) (evs : list StimulusEvent) (s : Sim) :
  now (launch ids evs s) = now s.
Proof.
  unfold launch.
  assert (F : now (fold_left (fun s b => schedule 0 (Initialize (BlockProc b)) s) ids s)
              = now s).
  { revert s. induction ids as [|b ids IH]; intro s; simpl; [reflexivity|].
    rewrite IH. reflexivity. }
  destruct evs; simpl; exact F.
Qed.

Lemma loop_start_safe (pj : Project) (sc : Scenario) (bhs : dict Behavior) (s0 : Sim) :
  loop_start pj sc bhs = Some s0 -> Safe (capacity_of bhs) (fun b => In b (block_ids pj)) s0.
Proof.
  unfold loop_start.
  destruct (make_stores bhs _ []) as [stores|e] eqn:M; [|discriminate].
  unfold initial. rewrite now_launch. simpl.
  destruct (Py.leb (duration_of sc) 0) eqn:L; [discriminate|].
  intro E. injection E as <-.
  apply schedule_safe.
  - assert (0 < duration_of sc).
    { apply Qnot_le_lt. intro C. apply leb_le in C. congruence. }
    lra.
  - apply launch_safe. apply Safe_intro; simpl.
    + split; [constructor|split; [constructor|split; constructor]].
    + apply (make_stores_ok _ _ _ _ _ M); [auto|]. intros b st. discriminate.
    + intros b fr start f G A. apply dict_get_map_const in G. subst fr. discriminate.
    + intros b c G. apply dict_get_map_const in G. subst c. simpl. apply Qle_refl.
    + constructor.
Qed.

Lemma observe_safe (n : nat) (draw : nat -> Q)
      (pj : Project) (sc : Scenario) (bhs : dict Behavior) (s : Sim) :
  observe n draw pj sc bhs = Some s ->
  Safe (capacity_of bhs) (fun b => In b (block_ids pj)) s.
Proof.
  unfold observe. destruct (loop_start pj sc bhs) as [s0|] eqn:L; [|discriminate].
  apply steps_safe. eapply loop_start_safe. exact L.
Qed.

Lemma loop_start_duration (pj : Project) (sc : Scenario) (bhs : dict Behavior) (s0 : Sim) :
  loop_start pj sc bhs = Some s0 -> 0 < duration_of sc.
Proof.
  unfold loop_start.
  destruct (make_stores bhs _ []) as [stores|e]; [|discriminate].
  unfold initial. rewrite now_launch. simpl.
  destruct (Py.leb (duration_of sc) 0) eqn:L; [discriminate|].
  intros _. apply Qnot_le_lt. intro C. apply leb_le in C. congruence.
Qed.

Lemma collect_metrics_In (duration : Q) (s : Sim) (b : string) (m : BlockMetrics)
      (ids : list string) (acc : dict BlockMetrics) :
  In (b, m) (collect_metrics duration s ids acc) ->
  (exists c st, dict_get b (block_counters s) = Some c
                /\ dict_get b (block_stores s) = Some st
                /\ m = block_metrics duration c st)
  \/ In (b, m) acc.
Proof.
  revert acc. induction ids as [|k ids IH]; intro acc; simpl; [auto|].
  destruct (dict_get k (block_counters s)) as [c|] eqn:C;
    [destruct (dict_get k (block_stores s)) as [st|] eqn:S|]; intro H;
    apply IH in H; try exact H.
  destruct H as [H|H]; [left; exact H|].
  apply In_dict_set in H. destruct H as [[-> ->]|H]; [left; eauto|right; exact H].
Qed.

Lemma sim_utilization_bounds (duration : Q) (c : Counters) (st : Store) :
  0 <= busy_time c ->
  0 <= utilization (block_metrics duration c st)
  /\ utilization (block_metrics duration c st) <= 1.
Proof.
  intro Hb. unfold block_metrics. simpl.
  split.
  - apply round4_ge_0. apply min_ge; [|discriminate].
    destruct (Py.ltb 0 duration) eqn:E; [|apply Qle_refl].
    apply ltb_lt in E. apply Qle_shift_div_l; [exact E|]. rewrite Qmult_0_l. exact Hb.
  - apply round4_le_1. apply min_le_r.
Qed.

Lemma store_depth_bounded (bhs : dict Behavior) (known : string -> Prop)
      (s : Sim) (b : string) (st : Store) :
  Safe (capacity_of bhs) known s -> dict_get b (block_stores s) = Some st ->
  depth_bounded bhs b (Z.of_nat (List.length (items st))).
Proof.
  intros (_ & Hs & _) G. destruct (Hs b st G) as (A & B & P & _).
  split; [lia|]. split.
  - intros qc Hq Nz.
    assert (C : capacity_of bhs b = Py.int qc).
    { unfold capacity_of. rewrite Hq. simpl.
      destruct (Qeq_bool qc 0) eqn:E; [|reflexivity].
      apply Qeq_bool_eq in E. contradiction. }
    apply Qle_trans with (y := inject_Z (Py.int qc)).
    + rewrite <- Zle_Qle. lia.
    + apply int_pos_le. lia.
  - intro F.
    assert (C : capacity_of bhs b = 100%Z).
    { unfold capacity_of.
      destruct (queue_capacity (params_of (behavior_of bhs b))) as [qc|]; [|reflexivity].
      simpl in F. simpl. apply negb_false_iff in F. rewrite F. reflexivity. }
    lia.
Qed.

Lemma stimulus_entries_known (cap : string -> Z) (known : string -> Prop) (s : Sim)
      (e : TimelineEntry) :
  Safe cap known s -> In e (sim_timeline s) -> event_type e = stimulus_ev ->
  known (te_block_id e).
Proof.
  intros (_ & Hs & _ & _ & Ht) I T. unfold timeline_ok in Ht.
  rewrite Forall_forall in Ht. specialize (Ht e I T). unfold dict_mem in Ht.
  destruct (dict_get (te_block_id e) (block_stores s)) as [st|] eqn:G; [|discriminate].
  apply (Hs _ _ G).
Qed.

(* ------------------------------------------------------------------ *)
(** ** The injector and the policy, step by step *)

Lemma deliver_accepted (ev : StimulusEvent) (s : Sim) (t : string) (st : Store) :
  target_of ev = Some t -> t <> ""%string ->
  dict_get t (block_stores s) = Some st -> has_room st = true ->
  deliver ev s = timeline_append (stimulus_entry ev t s) (store_put t (stimulus_item ev) s).
Proof.
  intros T N G R. unfold deliver, try_put.
  rewrite T, (str_truthy_true t N), G, R. reflexivity.
Qed.

Lemma deliver_dropped (ev : StimulusEvent) (s : Sim) (t : string) (st : Store) :
  target_of ev = Some t ->
  dict_get t (block_stores s) = Some st -> has_room st = false ->
  deliver ev s = s.
Proof.
  intros T G R. unfold deliver, try_put. rewrite T, G, R.
  destruct (Py.str_truthy (Some t)); reflexivity.
Qed.

Lemma deliver_skipped (ev : StimulusEvent) (s : Sim) :
  no_target ev s -> deliver ev s = s.
Proof.
  unfold no_target, deliver, try_put.
  destruct (target_of ev) as [t|]; [|reflexivity].
  intros [->|G]; [reflexivity|]. rewrite G.
  destruct (Py.str_truthy (Some t)); reflexivity.
Qed.

Lemma deliver_other_stores (ev : StimulusEvent) (s : Sim) (b : string) :
  target_of ev <> Some b ->
  dict_get b (block_stores (deliver ev s)) = dict_get b (block_stores s).
Proof.
  intro N. unfold deliver.
  destruct (target_of ev) as [t|]; [|reflexivity].
  destruct (Py.str_truthy (Some t)); [|reflexivity].
  destruct (try_put t _ s) as [s1 [|]] eqn:T; [|reflexivity].
  apply try_put_accepted in T. destruct T as (st & G & R & ->).
  simpl. rewrite dict_get_update.
  destruct (String.eqb_spec b t) as [->|_]; [congruence|reflexivity].
Qed.

Lemma unknown_target_no_target (n : nat) (draw : nat -> Q) (pj : Project)
      (sc : Scenario) (bhs : dict Behavior) (s : Sim) (ev : StimulusEvent) :
  observe n draw pj sc bhs = Some s -> unknown_target pj ev -> no_target ev s.
Proof.
  intros O U. apply observe_safe in O. destruct O as (_ & Hs & _).
  unfold unknown_target in U. unfold no_target.
  destruct (target_of ev) as [t|]; [|exact I].
  destruct U as [E|N]; [left; exact E|right].
  destruct (dict_get t (block_stores s)) as [st|] eqn:G; [|reflexivity].
  exfalso. apply N. apply (Hs _ _ G).
Qed.

Lemma policy_fault (bhs : dict Behavior) (draw : nat -> Q) (b : string)
      (script : Script) (it : Item) (s : Sim) :
  sim_script (behavior_of bhs b) = Some script ->
  faulty (script it (now s)) ->
  policy bhs draw b it s = (Decided false (ptime_of bhs b), s).
Proof.
  intros S F. unfold policy. rewrite S.
  destruct (script it (now s)) as [| | |f [| |q]]; simpl in F; try contradiction;
    reflexivity.
Qed.

Section InjectorSteps.
Variables (es : list Edge) (bhs : dict Behavior) (draw : nat -> Q).

(** The injector's timeout fires and the target has room: the item is put,
    the entry is appended at the time of the event, and the injector waits
    for its next event or returns. *)
Lemma injector_step_accepted (s : Sim) (x : Scheduled) (q : list Scheduled)
      (ev : StimulusEvent) (rest : list StimulusEvent) (b : string) (st : Store) :
  queue s = x :: q -> s_event x = Timeout Injector ->
  pending s = ev :: rest ->
  target_of ev = Some b -> b <> ""%string ->
  dict_get b (block_stores s) = Some st -> has_room st = true ->
  exists s',
    step es bhs draw s = Running s'
    /\ sim_timeline s'
       = sim_timeline s
         ++ [{| timestamp_ms := s_time x; te_block_id := b;
                event_type := stimulus_ev; detail := Signal (signal_of ev) |}]
    /\ pending s' = rest
    /\ dict_get b (block_stores s')
       = Some {| items := items st ++ [stimulus_item ev];
                 capacity := capacity st; get_waiting := get_waiting st |}
    /\ queue s'
       = heappush
           match rest with
           | ev' :: _ =>
               {| s_time := s_time x + Py.max 0 (ev_time ev' - s_time x);
                  s_eid := S (next_eid s); s_event := Timeout Injector |}
           | [] =>
               {| s_time := s_time x + 0;
                  s_eid := S (next_eid s); s_event := ProcessEnd Injector None |}
           end
           (heappush {| s_time := s_time x + 0; s_eid := next_eid s;
                        s_event := StorePut b |} q)
    /\ next_eid s' = S (S (next_eid s)).
Proof.
  intros Q E P T N G R. unfold step. rewrite Q, E. cbn [fire].
  set (s1 := set_now (s_time x) (set_queue q s)).
  assert (P1 : pending s1 = ev :: rest) by exact P.
  assert (G1 : dict_get b (block_stores s1) = Some st) by exact G.
  unfold injector_fire. rewrite P1.
  rewrite (deliver_accepted ev s1 b st T N G1 R).
  eexists. split; [reflexivity|].
  split; [destruct rest; reflexivity|]. split; [destruct rest; reflexivity|].
  split; [|split; destruct rest; reflexivity].
  destruct rest; simpl; rewrite dict_get_update, String.eqb_refl, G; reflexivity.
Qed.

(** The put event fires while the owner waits: the head of the buffer is
    handed over. *)
Lemma put_step_served (s : Sim) (x : Scheduled) (q : list Scheduled)
      (b : string) (st : Store) (it : Item) (rest : list Item) :
  queue s = x :: q -> s_event x = StorePut b ->
  dict_get b (block_stores s) = Some st -> get_waiting st = true ->
  items st = it :: rest ->
  exists s',
    step es bhs draw s = Running s'
    /\ sim_timeline s' = sim_timeline s
    /\ pending s' = pending s
    /\ dict_get b (block_stores s')
       = Some {| items := rest; capacity := capacity st; get_waiting := false |}
    /\ queue s'
       = heappush {| s_time := s_time x + 0; s_eid := next_eid s;
                     s_event := StoreGet b it |} q
    /\ next_eid s' = S (next_eid s).
Proof.
  intros Q E G W I. unfold step. rewrite Q, E. cbn [fire].
  unfold trigger_get. cbn [block_stores set_now set_queue]. rewrite G, W.
  unfold store_get. cbn [block_stores set_now set_queue]. rewrite G, I.
  eexists. split; [reflexivity|].
  split; [reflexivity|]. split; [reflexivity|]. split; [|split; reflexivity].
  simpl. rewrite dict_get_update, String.eqb_refl, G. reflexivity.
Qed.

(** Two stimuli for one idle block are due at the time of the injector's
    timeout, and nothing else is scheduled at that time: three steps later
    both have been put and the timeline has two more stimulus entries. *)
Lemma two_stimuli_at_once (s : Sim) (x : Scheduled) (q : list Scheduled)
      (ev1 ev2 : StimulusEvent) (rest : list StimulusEvent) (b : string) (st : Store) :
  queue s = x :: q -> s_event x = Timeout Injector ->
  Forall (fun y => s_time x < s_time y) q ->
  pending s = ev1 :: ev2 :: rest ->
  target_of ev1 = Some b -> target_of ev2 = Some b -> b <> ""%string ->
  ev_time ev2 <= s_time x ->
  dict_get b (block_stores s) = Some st ->
  items st = [] -> get_waiting st = true -> (1 <= capacity st)%Z ->
  exists s3 e1 e2,
    steps es bhs draw 3 s = Some s3
    /\ sim_timeline s3 = sim_timeline s ++ [e1; e2]
    /\ event_type e1 = stimulus_ev /\ event_type e2 = stimulus_ev
    /\ te_block_id e1 = b /\ te_block_id e2 = b
    /\ timestamp_ms e1 == s_time x /\ timestamp_ms e2 == s_time x.
Proof.
  intros Q E F P T1 T2 N Due G I W C.
  assert (R : has_room st = true).
  { unfold has_room. rewrite I. simpl. apply Z.ltb_lt. lia. }
  destruct (injector_step_accepted s x q ev1 (ev2 :: rest) b st Q E P T1 N G R)
    as (s1 & S1 & TL1 & P1 & G1 & Q1 & N1).
  rewrite max_zero in Q1 by lra.
  rewrite (heappush_front _ q) in Q1 by (eapply Forall_impl; [|exact F]; simpl; intros; lra).
  rewrite heappush_second in Q1;
    [|reflexivity|reflexivity|simpl; lia|eapply Forall_impl; [|exact F]; simpl; intros; lra].
  rewrite I in G1. simpl in G1.
  destruct (put_step_served s1 _ _ b _ (stimulus_item ev1) [] Q1 eq_refl G1 W eq_refl)
    as (s2 & S2 & TL2 & P2 & G2 & Q2 & N2).
  cbn [s_time] in Q2. rewrite N1 in Q2.
  rewrite heappush_second in Q2;
    [|simpl; ring|reflexivity|simpl; lia|eapply Forall_impl; [|exact F]; simpl; intros; lra].
  rewrite P1 in P2.
  assert (R2 : has_room {| items := []; capacity := capacity st; get_waiting := false |}
               = true).
  { unfold has_room. simpl. apply Z.ltb_lt. lia. }
  destruct (injector_step_accepted s2 _ _ ev2 rest b _ Q2 eq_refl P2 T2 N G2 R2)
    as (s3 & S3 & TL3 & _).
  eexists. eexists. eexists.
  split; [simpl; rewrite S1, S2, S3; reflexivity|].
  split; [rewrite TL3, TL2, TL1, <- app_assoc; reflexivity|].
  repeat split; simpl; ring.
Qed.
End InjectorSteps.

(* ------------------------------------------------------------------ *)
(** ** The run as a function of the draws *)

Section SameDraws.
Variables (es : list Edge) (bhs : dict Behavior) (d1 d2 : nat -> Q).
Hypothesis same : forall n, d1 n = d2 n.

Lemma policy_same (b : string) (it : Item) (s : Sim) :
  policy bhs d1 b it s = policy bhs d2 b it s.
Proof. unfold policy. rewrite same. reflexivity. Qed.

Lemma step_same (s : Sim) : step es bhs d1 s = step es bhs d2 s.
Proof.
  unfold step. destruct (queue s) as [|x q]; [reflexivity|].
  destruct (s_event x) as [[b|]|[b|]|b|b it|p [exc|]|]; try reflexivity.
  simpl. unfold block_take. rewrite policy_same. reflexivity.
Qed.

Lemma run_steps_same (fuel : nat) (s : Sim) :
  run_steps es bhs d1 fuel s = run_steps es bhs d2 fuel s.
Proof.
  revert s. induction fuel as [|n IH]; intro s; simpl; [reflexivity|].
  rewrite step_same. destruct (step es bhs d2 s); auto.
Qed.
End SameDraws.

(* ------------------------------------------------------------------ *)
(** ** Every step brings the measure down *)

Section MeasureFacts.
Variables (es : list Edge) (duration delta : Q).
Hypothesis delta_pos : 0 < delta.

Local Abbreviation rounds := (rounds_left duration delta).
Local Abbreviation qw := (queue_weight es duration delta).
Local Abbreviation mu := (measure es duration delta).
Local Abbreviation grows := (Grows es duration delta).

Lemma rounds_left_mono (t t' : Q) : t <= t' -> (rounds t' <= rounds t)%nat.
Proof.
  intro H. unfold rounds_left.
  assert (C : (Qceiling ((duration - t') / delta) <= Qceiling ((duration - t) / delta))%Z).
  { apply Qceiling_resp_le. apply Qmult_le_compat_r.
    - lra.
    - apply Qlt_le_weak. apply Qinv_lt_0_compat. exact delta_pos. }
  lia.
Qed.

Lemma rounds_left_step (t d : Q) :
  t < duration -> delta <= d -> (S (rounds (t + d)) <= rounds t)%nat.
Proof.
  intros Ht Hd. unfold rounds_left.
  set (x := (duration - (t + d)) / delta).
  set (y := (duration - t) / delta).
  assert (XY : x + 1 <= y).
  { unfold x, y. apply Qle_shift_div_l; [exact delta_pos|].
    setoid_replace (((duration - (t + d)) / delta + 1) * delta)
      with (duration - (t + d) + delta) by (field; lra).
    lra. }
  assert (Y0 : 0 < y).
  { unfold y. apply Qlt_shift_div_l; [exact delta_pos|]. lra. }
  pose proof (Qceiling_lt x) as Cx.
  pose proof (Qle_ceiling y) as Cy.
  assert (Pr : inject_Z (Qceiling x - 1) == inject_Z (Qceiling x) - 1).
  { unfold Z.sub. rewrite inject_Z_plus. reflexivity. }
  rewrite Pr in Cx.
  assert (L : (Qceiling x < Qceiling y)%Z).
  { rewrite Zlt_Qlt. lra. }
  assert (P : (0 < Qceiling y)%Z).
  { rewrite Zlt_Qlt. change (inject_Z 0) with 0. lra. }
  lia.
Qed.

Lemma queue_weight_push (x : Scheduled) (q : list Scheduled) :
  qw (heappush x q) = (weight es duration delta x + qw q)%nat.
Proof.
  unfold queue_weight. induction q as [|y q IH]; simpl; [reflexivity|].
  destruct (key_lt x y); simpl; [reflexivity|]. rewrite IH. lia.
Qed.

Lemma frames_credit_update (t : Q) (b : string) (fr fr0 : Frame) (d : dict Frame) :
  dict_get b d = Some fr0 ->
  (frames_credit es duration delta t (dict_update b (fun _ => fr) d)
   + credit es duration delta t fr0
   = frames_credit es duration delta t d + credit es duration delta t fr)%nat.
Proof.
  unfold frames_credit. induction d as [|[k v] d IH]; simpl; [discriminate|].
  destruct (String.eqb b k).
  - intro E. injection E as ->. simpl. lia.
  - intro G. simpl. specialize (IH G). lia.
Qed.

Lemma frames_credit_mono (t t' : Q) (d : dict Frame) :
  t <= t' ->
  (frames_credit es duration delta t' d <= frames_credit es duration delta t d)%nat.
Proof.
  intro H. unfold frames_credit. induction d as [|[k v] d IH]; simpl; [lia|].
  assert (C : (credit es duration delta t' v <= credit es duration delta t v)%nat).
  { unfold credit. destruct (at_yield v); try lia;
      apply Nat.mul_le_mono_l; apply rounds_left_mono; exact H. }
  lia.
Qed.

Lemma Grows_refl (s : Sim) : grows 0 s s.
Proof. unfold Grows. repeat split; auto. lia. Qed.

Lemma Grows_trans (a b : nat) (s s1 s2 : Sim) :
  grows a s s1 -> grows b s1 s2 -> grows (a + b) s s2.
Proof.
  intros (N1 & F1 & P1 & W1 & I1 & O1) (N2 & F2 & P2 & W2 & I2 & O2).
  unfold Grows. split; [congruence|]. split; [congruence|]. split; [congruence|].
  split; [lia|]. split.
  - intros x H. destruct (I2 x H) as [H'|H']; [apply I1; exact H'|right; exact H'].
  - intros x H. apply O2, O1, H.
Qed.

Lemma Grows_weaken (a b : nat) (s s' : Sim) :
  (a <= b)%nat -> grows a s s' -> grows b s s'.
Proof.
  intros L (N1 & F1 & P1 & W1 & I1 & O1).
  unfold Grows. repeat split; auto. lia.
Qed.

Lemma Grows_schedule (e : Event) (s : Sim) (w : nat) :
  store_event e ->
  (forall t n, weight es duration delta {| s_time := t; s_eid := n; s_event := e |} = w) ->
  grows w s (schedule 0 e s).
Proof.
  intros SE W. unfold Grows. simpl.
  split; [reflexivity|]. split; [reflexivity|]. split; [reflexivity|].
  split; [rewrite queue_weight_push, W; lia|]. split.
  - intros x H. apply In_heappush in H. destruct H as [->|H]; [right; exact SE|left; exact H].
  - intros x H. apply In_heappush. right. exact H.
Qed.

Lemma Grows_same_queue (s s' : Sim) :
  now s' = now s -> frames s' = frames s -> pending s' = pending s ->
  queue s' = queue s -> grows 0 s s'.
Proof.
  intros N F P Q. unfold Grows. rewrite Q. repeat split; auto. lia.
Qed.

Lemma store_put_grows (b : string) (it : Item) (s : Sim) : grows 3 s (store_put b it s).
Proof.
  unfold store_put.
  eapply (Grows_trans 0 3); [|apply Grows_schedule; [exact I|reflexivity]].
  apply Grows_same_queue; reflexivity.
Qed.

Lemma try_put_grows (b : string) (it : Item) (s : Sim) :
  grows 3 s (fst (try_put b it s)).
Proof.
  unfold try_put.
  destruct (dict_get b (block_stores s)) as [st|];
    [|apply (Grows_weaken 0); [lia|apply Grows_refl]].
  destruct (has_room st); simpl;
    [apply store_put_grows|apply (Grows_weaken 0); [lia|apply Grows_refl]].
Qed.

Lemma store_get_grows (b : string) (s : Sim) : grows 2 s (store_get b s).
Proof.
  unfold store_get.
  destruct (dict_get b (block_stores s)) as [st|];
    [|apply (Grows_weaken 0); [lia|apply Grows_refl]].
  destruct (items st) as [|it rest].
  - apply (Grows_weaken 0); [lia|]. apply Grows_same_queue; reflexivity.
  - eapply (Grows_trans 0 2); [|apply Grows_schedule; [exact I|reflexivity]].
    apply Grows_same_queue; reflexivity.
Qed.

Lemma trigger_get_grows (b : string) (s : Sim) : grows 2 s (trigger_get b s).
Proof.
  unfold trigger_get.
  destruct (dict_get b (block_stores s)) as [st|];
    [|apply (Grows_weaken 0); [lia|apply Grows_refl]].
  destruct (get_waiting st);
    [apply store_get_grows|apply (Grows_weaken 0); [lia|apply Grows_refl]].
Qed.

Lemma forward_grows (b : string) (seq : nat) (l : list Edge) (s : Sim) :
  grows (3 * List.length l) s (forward b seq l s).
Proof.
  revert s. induction l as [|e l IH]; intro s; simpl; [apply Grows_refl|].
  apply (Grows_weaken (3 + 3 * List.length l)); [lia|].
  eapply Grows_trans; [|apply IH].
  destruct (forwards_to b e);
    [apply try_put_grows|apply (Grows_weaken 0); [lia|apply Grows_refl]].
Qed.

Lemma deliver_grows (ev : StimulusEvent) (s : Sim) : grows 3 s (deliver ev s).
Proof.
  unfold deliver.
  destruct (target_of ev) as [t|]; [|apply (Grows_weaken 0); [lia|apply Grows_refl]].
  destruct (Py.str_truthy (Some t));
    [|apply (Grows_weaken 0); [lia|apply Grows_refl]].
  pose proof (try_put_grows t (StimulusItem (signal_of ev) (value ev)) s) as G.
  destruct (try_put t _ s) as [s1 [|]]; simpl in G;
    [|apply (Grows_weaken 0); [lia|apply Grows_refl]].
  replace 3%nat with (3 + 0)%nat by lia.
  eapply Grows_trans; [exact G|]. apply Grows_same_queue; reflexivity.
Qed.

Lemma Grows_measure (w : nat) (s s' : Sim) : grows w s s' -> (mu s' <= mu s + w)%nat.
Proof.
  intros (N & F & P & W & _). unfold measure. rewrite N, F, P. lia.
Qed.

Lemma Grows_live (ids : list string) (w : nat) (s s' : Sim) :
  grows w s s' -> Live ids duration s -> Live ids duration s'.
Proof.
  intros (N & F & P & W & I & O) (L1 & (u & Iu & Eu & Tu) & L3).
  split; [|split].
  - intros x p e H. destruct (I x H) as [H'|H']; [eapply L1; exact H'|].
    intro E. rewrite E in H'. exact H'.
  - exists u. split; [apply O; exact Iu|auto].
  - rewrite F. exact L3.
Qed.
End MeasureFacts.

Section Progress.
Variables (es : list Edge) (bhs : dict Behavior) (draw : nat -> Q).
Variables (duration delta : Q) (ids : list string) (cap : string -> Z).
Variable known : string -> Prop.
Hypothesis delta_pos : 0 < delta.
Hypothesis timed : forall b, In b ids -> well_timed delta bhs b.

Local Abbreviation rounds := (rounds_left duration delta).
Local Abbreviation mu := (measure es duration delta).
Local Abbreviation grows := (Grows es duration delta).
Local Abbreviation live := (Live ids duration).
Local Abbreviation wt := (weight es duration delta).
Local Abbreviation cr := (credit es duration delta).

Lemma policy_timed (b : string) (it : Item) (s : Sim) :
  In b ids ->
  exists f d s1, policy bhs draw b it s = (Decided f d, s1) /\ delta <= d /\ grows 0 s s1.
Proof.
  intro I. specialize (timed b I). unfold well_timed in timed. unfold policy.
  destruct (sim_script (behavior_of bhs b)) as [script|].
  - specialize (timed it (now s)).
    destruct (script_policy (ptime_of bhs b) (script it (now s))) as [f d|];
      [|contradiction].
    exists f, d, s. split; [reflexivity|]. split; [exact timed|apply Grows_refl].
  - eexists. eexists. eexists. split; [reflexivity|]. split; [exact timed|].
    apply Grows_same_queue; reflexivity.
Qed.

Lemma mu_schedule (d : Q) (e : Event) (s : Sim) :
  mu (schedule d e s)
  = (mu s + wt {| s_time := now s + d; s_eid := next_eid s; s_event := e |})%nat.
Proof. unfold measure. simpl. rewrite queue_weight_push. lia. Qed.

Lemma live_schedule (d : Q) (e : Event) (s : Sim) :
  (forall p exc, e <> ProcessEnd p (Some exc)) -> live s -> live (schedule d e s).
Proof.
  intros Ne (L1 & (u & Iu & Eu & Tu) & L3). split; [|split]; simpl.
  - intros x p exc H. apply In_heappush in H. destruct H as [->|H]; [apply Ne|].
    eapply L1. exact H.
  - exists u. split; [apply In_heappush; right; exact Iu|auto].
  - exact L3.
Qed.

Lemma mu_set_frame (b : string) (fr fr0 : Frame) (s : Sim) :
  dict_get b (frames s) = Some fr0 ->
  (mu (set_frame b fr s) + cr (now s) fr0 = mu s + cr (now s) fr)%nat.
Proof.
  intro G. unfold measure. simpl.
  pose proof (frames_credit_update es duration delta (now s) b fr fr0 (frames s) G).
  lia.
Qed.

Lemma live_set_frame (b : string) (fr : Frame) (s : Sim) :
  live s -> live (set_frame b fr s).
Proof.
  intros (L1 & L2 & L3). split; [exact L1|split; [exact L2|]]. simpl.
  intros k v. rewrite dict_get_update. destruct (String.eqb k b); [|apply L3].
  destruct (dict_get k (frames s)) as [v0|] eqn:G; simpl; [|discriminate].
  intros _. eapply L3. exact G.
Qed.

Lemma mu_set_pending (p : list StimulusEvent) (s : Sim) :
  (mu (set_pending p s) + 5 * List.length (pending s) = mu s + 5 * List.length p)%nat.
Proof. unfold measure. simpl. lia. Qed.

Lemma length_insert_event (ev : StimulusEvent) (l : list StimulusEvent) :
  List.length (insert_event ev l) = S (List.length l).
Proof.
  induction l as [|x l IH]; simpl; [reflexivity|].
  destruct (Py.ltb _ _); simpl; [reflexivity|]. rewrite IH. reflexivity.
Qed.

Lemma length_sorted_events (l : list StimulusEvent) :
  List.length (sorted_events l) = List.length l.
Proof.
  unfold sorted_events.
  assert (G : forall acc, List.length (fold_left (fun acc ev => insert_event ev acc) l acc)
                          = (List.length l + List.length acc)%nat).
  { induction l as [|ev l IH]; intro acc; simpl; [reflexivity|].
    rewrite IH, length_insert_event. lia. }
  rewrite G. simpl. lia.
Qed.

(** The injector's wait costs one scheduled event. *)
Lemma injector_wait_mu (s : Sim) :
  mu (injector_wait s) = (mu s + 1)%nat /\ (live s -> live (injector_wait s)).
Proof.
  unfold injector_wait. destruct (pending s); rewrite mu_schedule; split;
    try reflexivity; apply live_schedule; discriminate.
Qed.

(** The head of the heap, unless it is the stop event, lies before the
    duration when it has normal priority. *)
Lemma head_before_until (t : Q) (n : nat) (x : Scheduled) (q : list Scheduled) :
  queue_ok t n (x :: q) ->
  (exists u, In u (x :: q) /\ s_event u = Until /\ s_time u == duration) ->
  s_event x <> Until -> priority (s_event x) = 1%nat ->
  s_time x < duration.
Proof.
  intros (Hs & _) (u & Iu & Eu & Tu) Nx P.
  destruct Iu as [->|Iu]; [contradiction|].
  inversion Hs as [|? ? _ Hx]; subst.
  rewrite Forall_forall in Hx. specialize (Hx u Iu). unfold key_le in Hx.
  apply Qnot_le_lt. intro C.
  assert (T : key_lt u x = true); [|congruence].
  apply key_lt_spec. rewrite <- Tu in C.
  destruct (Qle_lt_or_eq _ _ C) as [L|E]; [left; exact L|].
  right. split; [exact E|]. left. rewrite Eu, P. simpl. lia.
Qed.
(** Popping the head pays its weight. *)
Lemma pop_mu (x : Scheduled) (q : list Scheduled) (s : Sim) :
  Safe cap known s -> queue s = x :: q ->
  (mu (set_now (s_time x) (set_queue q s)) + wt x <= mu s)%nat.
Proof.
  intros (Hq & _) E. rewrite E in Hq. apply queue_ok_pop in Hq. destruct Hq as [Hx _].
  unfold measure. simpl. rewrite E. unfold queue_weight at 2. simpl.
  fold (queue_weight es duration delta q).
  pose proof (frames_credit_mono es duration delta delta_pos
                (now s) (s_time x) (frames s) Hx).
  lia.
Qed.

Lemma pop_live (x : Scheduled) (q : list Scheduled) (s : Sim) :
  live s -> queue s = x :: q -> s_event x <> Until ->
  live (set_now (s_time x) (set_queue q s)).
Proof.
  intros (L1 & (u & Iu & Eu & Tu) & L3) E Nx. rewrite E in L1, Iu.
  split; [|split]; simpl.
  - intros y p exc H. apply (L1 y p exc). right. exact H.
  - destruct Iu as [->|Iu]; [contradiction|]. exists u. auto.
  - exact L3.
Qed.

Lemma block_start_progress (b : string) (s : Sim) :
  live s -> (mu (block_start b s) <= mu s + 2)%nat /\ live (block_start b s).
Proof.
  intro L. unfold block_start.
  destruct (dict_get b (frames s)) as [fr|] eqn:G; [|split; [lia|exact L]].
  destruct (at_yield fr) eqn:A; try (split; [lia|exact L]).
  pose proof (store_get_grows es duration delta b
                (set_frame b {| item_seq := 0; at_yield := AtGet |} s)) as Gr.
  split.
  - apply Grows_measure in Gr.
    pose proof (mu_set_frame b {| item_seq := 0; at_yield := AtGet |} fr s G) as M.
    unfold credit in M. rewrite A in M. simpl in M. lia.
  - eapply Grows_live; [exact Gr|]. apply live_set_frame. exact L.
Qed.

Lemma block_done_progress (b : string) (s : Sim) :
  live s ->
  (mu (block_done es b s) <= mu s + item_cost es * rounds (now s) + 3 * List.length es + 2)%nat
  /\ live (block_done es b s).
Proof.
  intro L. unfold block_done.
  destruct (dict_get b (frames s)) as [fr|] eqn:G; [|split; [lia|exact L]].
  destruct (at_yield fr) as [| |start failed|] eqn:A; try (split; [lia|exact L]).
  set (s2 := if failed then _ else _).
  assert (G2 : grows (3 * List.length es) s s2).
  { unfold s2. destruct failed.
    - apply (Grows_weaken es duration delta 0); [lia|].
      apply Grows_same_queue; reflexivity.
    - replace (3 * List.length es)%nat with (0 + 3 * List.length es)%nat by lia.
      eapply Grows_trans; [|apply forward_grows].
      apply Grows_same_queue; reflexivity. }
  pose proof G2 as (N2 & F2 & _).
  pose proof (store_get_grows es duration delta b
                (set_frame b {| item_seq := item_seq fr; at_yield := AtGet |} s2)) as Gr.
  split.
  - apply Grows_measure in Gr. apply Grows_measure in G2.
    assert (G' : dict_get b (frames s2) = Some fr) by (rewrite F2; exact G).
    pose proof (mu_set_frame b {| item_seq := item_seq fr; at_yield := AtGet |} fr s2 G')
      as M.
    unfold credit in M. rewrite A in M. simpl in M. rewrite N2 in M. lia.
  - eapply Grows_live; [exact Gr|]. apply live_set_frame.
    eapply Grows_live; [exact G2|exact L].
Qed.

Lemma block_take_progress (b : string) (it : Item) (s : Sim) :
  live s -> now s < duration ->
  (mu (block_take bhs draw b it s) <= mu s + 1)%nat
  /\ live (block_take bhs draw b it s).
Proof.
  intros L Hn. unfold block_take.
  destruct (dict_get b (frames s)) as [fr|] eqn:G; [|split; [lia|exact L]].
  destruct (at_yield fr) eqn:A; try (split; [lia|exact L]).
  assert (I : In b ids) by (destruct L as (_ & _ & L3); eapply L3; exact G).
  destruct (policy_timed b it s I) as (f & d & s1 & P & Hd & Gr).
  rewrite P.
  assert (E : Py.ltb d 0 = false) by (apply ltb_ge; lra).
  rewrite E.
  pose proof Gr as (N1 & F1 & _).
  split.
  - rewrite mu_schedule. apply Grows_measure in Gr.
    assert (G' : dict_get b (frames s1) = Some fr) by (rewrite F1; exact G).
    pose proof (mu_set_frame b {| item_seq := S (item_seq fr);
                                  at_yield := AtTimeout (now s) f |} fr s1 G') as M.
    unfold credit in M. rewrite A in M. simpl in M. rewrite N1 in M.
    unfold weight. simpl. rewrite N1.
    pose proof (rounds_left_step duration delta delta_pos (now s) d Hn Hd) as R.
    assert (R' : (item_cost es * (1 + rounds (now s + d)) <= item_cost es * rounds (now s))%nat).
    { apply Nat.mul_le_mono_l. lia. }
    lia.
  - apply live_schedule; [discriminate|]. apply live_set_frame.
    eapply Grows_live; [exact Gr|exact L].
Qed.

Lemma injector_fire_progress (s : Sim) :
  live s -> (mu (injector_fire s) <= mu s)%nat /\ live (injector_fire s).
Proof.
  intro L. unfold injector_fire. destruct (pending s) as [|ev rest] eqn:P;
    [split; [lia|exact L]|].
  pose proof (deliver_grows es duration delta ev s) as Gr.
  destruct (injector_wait_mu (set_pending rest (deliver ev s))) as [M Lw].
  split.
  - rewrite M.
    destruct (deliver_grows es duration delta ev s) as (_ & _ & P' & _).
    apply Grows_measure in Gr.
    pose proof (mu_set_pending rest (deliver ev s)) as M'.
    rewrite P', P in M'. simpl List.length in M'. lia.
  - apply Lw. eapply Grows_live in Gr; [|exact L].
    destruct Gr as (L1 & L2 & L3). split; [exact L1|split; [exact L2|exact L3]].
Qed.

(** A step either stops the run or brings the measure down. *)
Lemma step_progress (s : Sim) :
  Safe cap known s -> live s ->
  (exists s', step es bhs draw s = Stopped s')
  \/ (exists s', step es bhs draw s = Running s' /\ (mu s' < mu s)%nat /\ live s').
Proof.
  intros S L. unfold step.
  destruct (queue s) as [|x q] eqn:Q.
  { destruct L as (_ & (u & Iu & _) & _). rewrite Q in Iu. destruct Iu. }
  pose proof (pop_mu x q s S Q) as M.
  destruct (s_event x) as [[b|]|[b|]|b|b it|p [exc|]|] eqn:E; cbn [fire].
  - right. eexists. split; [reflexivity|].
    assert (L1 : live (set_now (s_time x) (set_queue q s)))
      by (apply pop_live; [exact L|exact Q|rewrite E; discriminate]).
    destruct (block_start_progress b _ L1) as [A B].
    split; [|exact B]. unfold weight in M. rewrite E in M. lia.
  - right. eexists. split; [reflexivity|].
    assert (L1 : live (set_now (s_time x) (set_queue q s)))
      by (apply pop_live; [exact L|exact Q|rewrite E; discriminate]).
    destruct (injector_wait_mu
                (set_pending (sorted_events (pending (set_now (s_time x) (set_queue q s))))
                   (set_now (s_time x) (set_queue q s)))) as [A B].
    split.
    + rewrite A. unfold weight in M. rewrite E in M.
      pose proof (mu_set_pending
                    (sorted_events (pending (set_now (s_time x) (set_queue q s))))
                    (set_now (s_time x) (set_queue q s))) as M'.
      rewrite length_sorted_events in M'. lia.
    + apply B. destruct L1 as (L1 & L2 & L3).
      split; [exact L1|split; [exact L2|exact L3]].
  - right. eexists. split; [reflexivity|].
    assert (L1 : live (set_now (s_time x) (set_queue q s)))
      by (apply pop_live; [exact L|exact Q|rewrite E; discriminate]).
    destruct (block_done_progress b _ L1) as [A B].
    split; [|exact B]. unfold weight in M. rewrite E in M. simpl in A.
    unfold item_cost in *. lia.
  - right. eexists. split; [reflexivity|].
    assert (L1 : live (set_now (s_time x) (set_queue q s)))
      by (apply pop_live; [exact L|exact Q|rewrite E; discriminate]).
    destruct (injector_fire_progress _ L1) as [A B].
    split; [|exact B]. unfold weight in M. rewrite E in M. lia.
  - right. eexists. split; [reflexivity|].
    assert (L1 : live (set_now (s_time x) (set_queue q s)))
      by (apply pop_live; [exact L|exact Q|rewrite E; discriminate]).
    pose proof (trigger_get_grows es duration delta b
                  (set_now (s_time x) (set_queue q s))) as Gr.
    split; [|eapply Grows_live; [exact Gr|exact L1]].
    apply Grows_measure in Gr. unfold weight in M. rewrite E in M. lia.
  - right. eexists. split; [reflexivity|].
    assert (L1 : live (set_now (s_time x) (set_queue q s)))
      by (apply pop_live; [exact L|exact Q|rewrite E; discriminate]).
    assert (T : s_time x < duration).
    { destruct S as (Hq & _). rewrite Q in Hq. destruct L as (_ & L2 & _).
      rewrite Q in L2.
      eapply head_before_until; [exact Hq|exact L2|rewrite E; discriminate|].
      rewrite E. reflexivity. }
    destruct (block_take_progress b it _ L1 T) as [A B].
    split; [|exact B]. unfold weight in M. rewrite E in M. lia.
  - exfalso. destruct L as (L1 & _). apply (L1 x p exc); [rewrite Q; left; reflexivity|exact E].
  - right. eexists. split; [reflexivity|].
    split; [unfold weight in M; rewrite E in M; lia|].
    apply pop_live; [exact L|exact Q|rewrite E; discriminate].
  - left. eexists. reflexivity.
Qed.

(** With fuel above the measure the loop of [env.run] reaches its stop
    event. *)
Lemma run_steps_stops (fuel : nat) (s : Sim) :
  Safe cap known s -> live s -> (mu s < fuel)%nat ->
  exists s', run_steps es bhs draw fuel s = Some (inl s').
Proof.
  revert s. induction fuel as [|n IH]; intros s S L M; [lia|].
  simpl. destruct (step_progress s S L) as [(s' & E)|(s' & E & D & L')]; rewrite E.
  - exists s'. reflexivity.
  - apply IH; [|exact L'|lia]. eapply step_safe; [exact S|left; exact E].
Qed.
End Progress.

Lemma run_steps_more (es : list Edge) (bhs : dict Behavior) (draw : nat -> Q)
      (n m : nat) (s : Sim) (r : Sim + Exn) :
  run_steps es bhs draw n s = Some r -> (n <= m)%nat ->
  run_steps es bhs draw m s = Some r.
Proof.
  revert m s. induction n as [|n IH]; intros m s; simpl; [discriminate|].
  intros R L. destruct m as [|m]; [lia|]. simpl.
  destruct (step es bhs draw s); [|exact R|exact R].
  apply IH; [exact R|lia].
Qed.

(* ------------------------------------------------------------------ *)
(** ** A runnable request completes *)

Lemma make_stores_succeeds (bhs : dict Behavior) (ids : list string) (acc : dict Store) :
  (forall b, In b ids -> (0 < capacity_of bhs b)%Z) ->
  exists stores, make_stores bhs ids acc = inl stores.
Proof.
  revert acc. induction ids as [|b ids IH]; intros acc H; simpl; [eauto|].
  assert (C : (capacity_of bhs b <=? 0)%Z = false).
  { apply Z.leb_gt. apply H. left. reflexivity. }
  rewrite C. apply IH. intros k I. apply H. right. exact I.
Qed.

Lemma launch_queue (ids : list string) (evs : list StimulusEvent) (s : Sim) (x : Scheduled) :
  In x (queue (launch ids evs s)) ->
  In x (queue s) \/ exists p, s_event x = Initialize p.
Proof.
  unfold launch.
  assert (F : forall s, In x (queue (fold_left
                                       (fun s b => schedule 0 (Initialize (BlockProc b)) s)
                                       ids s)) ->
                        In x (queue s) \/ exists p, s_event x = Initialize p).
  { induction ids as [|b ids IH]; intros s0 H; simpl in H; [left; exact H|].
    apply IH in H. destruct H as [H|H]; [|right; exact H].
    simpl in H. apply In_heappush in H. destruct H as [->|H]; [right; eexists; reflexivity|].
    left. exact H. }
  destruct evs; [apply F|].
  simpl. intro H. apply In_heappush in H.
  destruct H as [->|H]; [right; eexists; reflexivity|apply F; exact H].
Qed.

Lemma frames_launch (ids : list string) (evs : list StimulusEvent) (s : Sim) :
  frames (launch ids evs s) = frames s.
Proof.
  unfold launch.
  assert (F : frames (fold_left (fun s b => schedule 0 (Initialize (BlockProc b)) s) ids s)
              = frames s).
  { revert s. induction ids as [|b ids IH]; intro s; simpl; [reflexivity|].
    rewrite IH. reflexivity. }
  destruct evs; simpl; exact F.
Qed.

Lemma loop_start_live (pj : Project) (sc : Scenario) (bhs : dict Behavior) (s0 : Sim) :
  loop_start pj sc bhs = Some s0 -> Live (block_ids pj) (duration_of sc) s0.
Proof.
  unfold loop_start.
  destruct (make_stores bhs _ []) as [stores|e]; [|discriminate].
  unfold initial. rewrite now_launch. simpl.
  destruct (Py.leb (duration_of sc) 0); [discriminate|].
  intro E. injection E as <-.
  split; [|split]; cbn [queue schedule frames].
  - intros x p e H. apply In_heappush in H. destruct H as [->|H]; [discriminate|].
    apply launch_queue in H. destruct H as [[]|[p' ->]]. discriminate.
  - eexists. split; [apply In_heappush; left; reflexivity|].
    split; [reflexivity|]. cbn [s_time]. rewrite now_launch. cbn [now]. ring.
  - intros b fr. rewrite frames_launch. cbn [frames]. apply dict_get_map_key.
Qed.

Lemma loop_start_runnable (delta : Q) (pj : Project) (sc : Scenario)
      (bhs : dict Behavior) :
  runnable delta pj sc bhs -> exists s0, loop_start pj sc bhs = Some s0.
Proof.
  intros (_ & HD & HC & _). unfold loop_start.
  destruct (make_stores_succeeds bhs (block_ids pj) [] HC) as [stores M].
  unfold block_ids in M. rewrite M.
  unfold initial. rewrite now_launch. simpl.
  assert (L : Py.leb (duration_of sc) 0 = false).
  { destruct (Py.leb (duration_of sc) 0) eqn:E; [|reflexivity].
    apply leb_le in E. lra. }
  rewrite L. eauto.
Qed.

(** A runnable request completes: with enough fuel, and with any more, the
    run returns a response of status complete with no errors. *)
Lemma run_completes (delta : Q) (draw : nat -> Q)
      (pj : Project) (sc : Scenario) (bhs : dict Behavior) :
  runnable delta pj sc bhs ->
  exists fuel r,
    status r = complete /\ errors r = []
    /\ forall fuel', (fuel <= fuel')%nat ->
                     run_with_simpy fuel' draw pj sc bhs = Some (inl r).
Proof.
  intro R. destruct (loop_start_runnable delta pj sc bhs R) as [s0 L].
  destruct R as (Hd & _ & _ & Ht).
  pose proof (loop_start_safe pj sc bhs s0 L) as Sf.
  pose proof (loop_start_live pj sc bhs s0 L) as Lv.
  destruct (run_steps_stops (edges pj) bhs draw (duration_of sc) delta (block_ids pj)
              (capacity_of bhs) (fun b => In b (block_ids pj)) Hd Ht
              (S (measure (edges pj) (duration_of sc) delta s0)) s0 Sf Lv
              (Nat.lt_succ_diag_r _)) as [s' E].
  exists (S (measure (edges pj) (duration_of sc) delta s0)), (response_of pj sc s').
  split; [reflexivity|]. split; [reflexivity|].
  intros fuel' Hf. eapply run_with_simpy_of_steps; [exact L|].
  eapply run_steps_more; [exact E|exact Hf].
Qed.

(** A runnable request is answered by [process] with status complete and no
    errors, and every stimulus entry of the timeline names a block of the
    graph. *)
Lemma process_completes (delta : Q) (draw : nat -> Q)
      (pj : Project) (sc : Scenario) (bhs : dict Behavior) :
  runnable delta pj sc bhs ->
  exists fuel r,
    status r = complete /\ errors r = []
    /\ (forall e, In e (timeline r) -> event_type e = stimulus_ev ->
                  In (te_block_id e) (block_ids pj))
    /\ forall fuel', (fuel <= fuel')%nat ->
                     process true fuel' draw (request pj sc bhs)
                     = Some (Returned r).
Proof.
  intro R. destruct (run_completes delta draw pj sc bhs R) as (fuel & r & St & Er & Run).
  exists fuel, r. split; [exact St|]. split; [exact Er|]. split.
  - intros e I T. specialize (Run fuel (Nat.le_refl _)).
    apply run_with_simpy_inl in Run. destruct Run as (s0 & s & L & Rs & ->).
    simpl in I.
    apply (stimulus_entries_known (capacity_of bhs) (fun b => In b (block_ids pj)) s e);
      [|exact I|exact T].
    eapply run_steps_safe; [|exact Rs]. eapply loop_start_safe. exact L.
  - intros fuel' Hf. unfold process. simpl. rewrite (Run fuel' Hf). reflexivity.
Qed.

(** A script result with a negative processing_time_ms is taken as it is;
    [env.timeout] raises on it outside the [try], the block process ends with
    that exception and the run with status error. *)
Lemma negative_script_time_ends_the_run :
  process true 100 Sample.half
    (request Sample.one_block Sample.one_stimulus_sc Sample.hasty_bhs)
  = Some (Returned (error_response (NegativeDelay (-5)))).
Proof. vm_compute. reflexivity. Qed.

(* ------------------------------------------------------------------ *)
(** ** The claims *)




(** C2 on the code.  A [duration_ms] of 0 is falsy, so both paths run with
    the default of 10000 ms: the response is the one for [duration_ms =
    10000].  On the sample request the closed-form path reports 100 processed
    items at utilization 1, and the full simulation processes the stimulus
    and reports it at time 100. *)
Theorem zero_duration_runs_the_default :
  (forall SIMPY_OK fuel draw pj evs bhs,
      process SIMPY_OK fuel draw
        (request pj {| duration_ms := Some 0; events := evs |} bhs)
      = process SIMPY_OK fuel draw
          (request pj {| duration_ms := Some 10000; events := evs |} bhs))
  /\ (exists r m,
         process false 0 Sample.half
           (request Sample.one_block Sample.zero_sc []) = Some (Returned r)
         /\ In ("A"%string, m) (metrics r)
         /\ processed_count m = 100%Z /\ utilization m == 1)
  /\ (exists r m e,
         process true 100 Sample.half
           (request Sample.one_block Sample.zero_sc []) = Some (Returned r)
         /\ In ("A"%string, m) (metrics r)
         /\ processed_count m = 1%Z /\ ~ utilization m == 0
         /\ In e (timeline r)
         /\ event_type e = processed_ev /\ timestamp_ms e == 100).
Proof.
  split; [reflexivity|]. split.
  - exists_some (process false 0 Sample.half
                   (request Sample.one_block Sample.zero_sc [])).
    eexists. split; [reflexivity|]. split; [left; reflexivity|].
    split; reflexivity.
  - exists_some (process true 100 Sample.half
                   (request Sample.one_block Sample.zero_sc [])).
    eexists. eexists. split; [vm_compute; reflexivity|].
    split; [left; reflexivity|].
    split; [reflexivity|]. split; [vm_compute; discriminate|].
    split; [right; left; reflexivity|].
    split; reflexivity.
Qed.

(** C3, as the code has it.  For an event whose target has a Store, the
    injector appends the stimulus entry, at the time of delivery, when the
    Store has room and the item is put; when the Store is full the delivery
    changes nothing, timeline included.  Two stimuli due at one time for a
    block that waits on its empty Store of capacity 1 or more, with nothing
    else scheduled at that time, are both put: the first is handed to the
    block before the second arrives, and the timeline gets two stimulus
    entries. *)
Theorem stimulus_entry_when_accepted
        (es : list Edge) (bhs : dict Behavior) (draw : nat -> Q) :
  (forall ev s t st,
      target_of ev = Some t -> t <> ""%string ->
      dict_get t (block_stores s) = Some st ->
      (has_room st = true ->
       sim_timeline (deliver ev s) = sim_timeline s ++ [stimulus_entry ev t s])
      /\ (has_room st = false -> deliver ev s = s))
  /\ (forall s x q ev1 ev2 rest b st,
         queue s = x :: q -> s_event x = Timeout Injector ->
         Forall (fun y => s_time x < s_time y) q ->
         pending s = ev1 :: ev2 :: rest ->
         target_of ev1 = Some b -> target_of ev2 = Some b -> b <> ""%string ->
         ev_time ev2 <= s_time x ->
         dict_get b (block_stores s) = Some st ->
         items st = [] -> get_waiting st = true -> (1 <= capacity st)%Z ->
         exists s3 e1 e2,
           steps es bhs draw 3 s = Some s3
           /\ sim_timeline s3 = sim_timeline s ++ [e1; e2]
           /\ event_type e1 = stimulus_ev /\ event_type e2 = stimulus_ev
           /\ te_block_id e1 = b /\ te_block_id e2 = b
           /\ timestamp_ms e1 == s_time x /\ timestamp_ms e2 == s_time x).
Proof.
  split.
  - intros ev s t st T N G. split; intro R.
    + rewrite (deliver_accepted ev s t st T N G R). reflexivity.
    + apply (deliver_dropped ev s t st T G R).
  - apply two_stimuli_at_once.
Qed.

(** C3 at work: two steps into the sample run the injector's timeout for
    the first of two stimuli at time 5 is at the head of the heap and "A"
    waits on its empty Store of capacity 1; three steps later the timeline
    has two stimulus entries. *)
Lemma stimulus_entry_when_accepted_witness :
  exists s s3 e1 e2,
    observe 2 Sample.half Sample.one_block Sample.two_sc
      Sample.cap1_bhs = Some s
    /\ steps [] Sample.cap1_bhs Sample.half 3 s = Some s3
    /\ sim_timeline s3 = sim_timeline s ++ [e1; e2]
    /\ event_type e1 = stimulus_ev /\ event_type e2 = stimulus_ev.
Proof.
  exists_some (observe 2 Sample.half Sample.one_block Sample.two_sc
                 Sample.cap1_bhs).
  destruct (stimulus_entry_when_accepted [] Sample.cap1_bhs Sample.half)
    as [_ Two].
  match goal with
  | |- exists _ _ _, _ = Some ?s /\ _ => pose (s2 := s)
  end.
  edestruct (Two s2) as (s3 & e1 & e2 & St & TL & T1 & T2 & _).
  - reflexivity.
  - reflexivity.
  - repeat constructor.
  - reflexivity.
  - reflexivity.
  - reflexivity.
  - discriminate.
  - vm_compute. discriminate.
  - reflexivity.
  - reflexivity.
  - reflexivity.
  - vm_compute. discriminate.
  - exists s3, e1, e2. split; [vm_compute; reflexivity|]. auto.
Defined.

(** C3 as the spec words it fails: of three stimuli for "A" at one time the
    third meets a full Store and leaves no entry; the timeline has two
    stimulus entries for three delivered events. *)
Lemma dropped_stimulus_leaves_no_entry :
  exists r,
    process true 100 Sample.half
      (request Sample.one_block Sample.three_sc
         Sample.cap1_bhs) = Some (Returned r)
    /\ List.length (events Sample.three_sc) = 3%nat
    /\ Forall (fun ev => target_of ev = Some "A"%string) (events Sample.three_sc)
    /\ In "A"%string (block_ids Sample.one_block)
    /\ List.length (filter Sample.is_stimulus (timeline r)) = 2%nat.
Proof.
  exists_some (process true 100 Sample.half
                 (request Sample.one_block Sample.three_sc
                    Sample.cap1_bhs)).
  split; [vm_compute; reflexivity|]. split; [reflexivity|].
  split; [repeat constructor|]. split; [left; reflexivity|]. reflexivity.
Qed.

(** C4, as the code has it.  The target of an event is its [block_id], or
    its [target_id] when [block_id] is absent or empty; [target_block_id] is
    not read.  A delivery changes no Store but the target's, and the
    target's Store, when it has room, gets the stimulus item at its end. *)
Theorem stimulus_goes_to_block_id (ev : StimulusEvent) (s : Sim) :
  (forall b, block_id ev = Some b -> b <> ""%string -> target_of ev = Some b)
  /\ (block_id ev = None \/ block_id ev = Some ""%string ->
      target_of ev = ev_target_id ev)
  /\ (forall b, target_of ev <> Some b ->
                dict_get b (block_stores (deliver ev s)) = dict_get b (block_stores s))
  /\ (forall t st,
         target_of ev = Some t -> t <> ""%string ->
         dict_get t (block_stores s) = Some st -> has_room st = true ->
         dict_get t (block_stores (deliver ev s))
         = Some {| items := items st ++ [stimulus_item ev];
                   capacity := capacity st;
                   get_waiting := get_waiting st |}).
Proof.
  split; [|split; [|split]].
  - intros b E N. unfold target_of. rewrite E. simpl.
    destruct (String.eqb_spec b ""); [contradiction|reflexivity].
  - intros [E|E]; unfold target_of; rewrite E; reflexivity.
  - apply deliver_other_stores.
  - intros t st T N G R. rewrite (deliver_accepted ev s t st T N G R).
    simpl. rewrite dict_get_update, String.eqb_refl, G. reflexivity.
Qed.

(** C4 at work: two steps into the sample run the stimulus with
    [block_id = "A"] is delivered into the empty Store of "A". *)
Lemma stimulus_goes_to_block_id_witness :
  exists s,
    observe 2 Sample.half Sample.one_block Sample.one_stimulus_sc [] = Some s
    /\ dict_get "A" (block_stores (deliver (Sample.stimulus 0 "A") s))
       = Some {| items := [StimulusItem "trigger" None];
                 capacity := 100; get_waiting := true |}.
Proof.
  exists_some (observe 2 Sample.half Sample.one_block Sample.one_stimulus_sc []).
  split; [vm_compute; reflexivity|].
  match goal with
  | |- dict_get _ (block_stores (deliver ?ev ?s)) = _ =>
      destruct (stimulus_goes_to_block_id ev s) as (_ & _ & _ & Put)
  end.
  apply (Put "A"%string {| items := []; capacity := 100; get_waiting := true |});
    [reflexivity|discriminate|reflexivity|reflexivity].
Defined.

(** C4 as the spec words it fails: a stimulus that names "A" with
    [target_block_id] reaches no Store; the Store of "A" is empty and
    waiting before and after the delivery, and the timeline stays empty. *)
Lemma target_block_id_is_not_read :
  exists s s' st,
    observe 2 Sample.half Sample.one_block Sample.tb_sc [] = Some s
    /\ pending s = [Sample.stimulus_tb 0 "A"]
    /\ target_block_id (Sample.stimulus_tb 0 "A") = Some "A"%string
    /\ dict_get "A" (block_stores s) = Some st /\ has_room st = true
    /\ step [] [] Sample.half s = Running s'
    /\ pending s' = []
    /\ block_stores s' = block_stores s
    /\ sim_timeline s' = [].
Proof.
  exists_some (observe 2 Sample.half Sample.one_block Sample.tb_sc []).
  eexists. eexists.
  split; [vm_compute; reflexivity|].
  split; [reflexivity|]. split; [reflexivity|].
  split; [reflexivity|]. split; [reflexivity|].
  split; [vm_compute; reflexivity|].
  split; [reflexivity|]. split; reflexivity.
Qed.




(** C6, as the code has it.  At every step of a run, and in the reported
    metrics, the depth of a block's Store is at most the capacity the Store
    was built with, [int(queue_capacity or 100)]; this is at most the
    configured [queue_capacity] when that is not zero, and 100 when it is
    zero or absent. *)
Theorem queue_depth_within_capacity
        (draw : nat -> Q) (pj : Project) (sc : Scenario) (bhs : dict Behavior)
        (b : string) :
  (forall n s st,
      observe n draw pj sc bhs = Some s ->
      dict_get b (block_stores s) = Some st ->
      depth_bounded bhs b (Z.of_nat (List.length (items st))))
  /\ (forall fuel r m,
         run_with_simpy fuel draw pj sc bhs = Some (inl r) ->
         In (b, m) (metrics r) ->
         depth_bounded bhs b (queue_depth m)).
Proof.
  split.
  - intros n s st O G. eapply store_depth_bounded; [|exact G].
    eapply observe_safe. exact O.
  - intros fuel r m R I.
    apply run_with_simpy_inl in R. destruct R as (s0 & s & L & R & ->).
    simpl in I. apply collect_metrics_In in I. destruct I as [(c & st & _ & G & ->)|[]].
    simpl. eapply store_depth_bounded; [|exact G].
    eapply run_steps_safe; [|exact R]. eapply loop_start_safe. exact L.
Qed.

(** C6 at work: after five steps of the sample run the Store of "A" is
    within its capacity of 100, and so is the reported depth. *)
Lemma queue_depth_within_capacity_witness :
  (exists s st,
      observe 5 Sample.half Sample.one_block Sample.cap0_sc Sample.cap0_bhs = Some s
      /\ dict_get "A" (block_stores s) = Some st
      /\ depth_bounded Sample.cap0_bhs "A" (Z.of_nat (List.length (items st))))
  /\ (exists r m,
         run_with_simpy 100 Sample.half Sample.one_block Sample.cap0_sc Sample.cap0_bhs
         = Some (inl r)
         /\ In ("A"%string, m) (metrics r)
         /\ depth_bounded Sample.cap0_bhs "A" (queue_depth m)).
Proof.
  pose proof (queue_depth_within_capacity Sample.half Sample.one_block
                Sample.cap0_sc Sample.cap0_bhs "A") as [P1 P2].
  split.
  - exists_some (observe 5 Sample.half Sample.one_block Sample.cap0_sc Sample.cap0_bhs).
    eexists. split; [vm_compute; reflexivity|].
    split; [vm_compute; reflexivity|].
    eapply (P1 5%nat); vm_compute; reflexivity.
  - exists_some (run_with_simpy 100 Sample.half Sample.one_block
                   Sample.cap0_sc Sample.cap0_bhs).
    eexists. split; [vm_compute; reflexivity|].
    split; [left; reflexivity|].
    eapply (P2 100%nat); [vm_compute; reflexivity|left; reflexivity].
Defined.

(** C6 as the spec words it fails: with [queue_capacity] 0 the Store is built
    with capacity 100, and the run reports a depth of 1. *)
Lemma queue_depth_exceeds_zero_capacity :
  exists r m qc,
    run_with_simpy 100 Sample.half Sample.one_block Sample.cap0_sc Sample.cap0_bhs
    = Some (inl r)
    /\ In ("A"%string, m) (metrics r)
    /\ queue_capacity (params_of (behavior_of Sample.cap0_bhs "A")) = Some qc
    /\ ~ inject_Z (queue_depth m) <= qc.
Proof.
  exists_some (run_with_simpy 100 Sample.half Sample.one_block
                 Sample.cap0_sc Sample.cap0_bhs).
  eexists. eexists.
  split; [vm_compute; reflexivity|].
  split; [left; reflexivity|].
  split; [reflexivity|].
  vm_compute. intro H. apply H. reflexivity.
Qed.









(* ------------------------------------------------------------------ *)
(** ** What the calls on the Stores and the heap leave alone *)

Lemma backstage_refl (s : Sim) : backstage s s.
Proof. unfold backstage. auto 7. Qed.

Lemma backstage_trans (s1 s2 s3 : Sim) :
  backstage s1 s2 -> backstage s2 s3 -> backstage s1 s3.
Proof.
  intros (A1 & A2 & A3 & A4 & A5 & A6) (B1 & B2 & B3 & B4 & B5 & B6).
  unfold backstage. rewrite B1, B2, B3, B4, B5.
  do 5 (split; [assumption|]). auto.
Qed.

Lemma schedule_backstage (d : Q) (e : Event) (s : Sim) : backstage s (schedule d e s).
Proof.
  unfold backstage. simpl. do 5 (split; [reflexivity|]).
  intros x I. apply In_heappush. right. exact I.
Qed.

Lemma set_stores_backstage (b : string) (f : Store -> Store) (s : Sim) :
  backstage s (set_stores (dict_update b f (block_stores s)) s).
Proof.
  unfold backstage. simpl. rewrite dict_keys_update. auto 7.
Qed.

Lemma store_put_backstage (b : string) (it : Item) (s : Sim) :
  backstage s (store_put b it s).
Proof.
  unfold store_put.
  eapply backstage_trans; [apply set_stores_backstage|apply schedule_backstage].
Qed.

Lemma try_put_backstage (b : string) (it : Item) (s : Sim) :
  backstage s (fst (try_put b it s)).
Proof.
  unfold try_put. destruct (dict_get b (block_stores s)) as [st|]; [|apply backstage_refl].
  destruct (has_room st); [apply store_put_backstage|apply backstage_refl].
Qed.

Lemma store_get_backstage (b : string) (s : Sim) : backstage s (store_get b s).
Proof.
  unfold store_get. destruct (dict_get b (block_stores s)) as [st|]; [|apply backstage_refl].
  destruct (items st) as [|it rest]; [apply set_stores_backstage|].
  eapply backstage_trans; [apply set_stores_backstage|apply schedule_backstage].
Qed.

Lemma trigger_get_backstage (b : string) (s : Sim) : backstage s (trigger_get b s).
Proof.
  unfold trigger_get. destruct (dict_get b (block_stores s)) as [st|]; [|apply backstage_refl].
  destruct (get_waiting st); [apply store_get_backstage|apply backstage_refl].
Qed.

Lemma forward_backstage (b : string) (seq : nat) (es : list Edge) (s : Sim) :
  backstage s (forward b seq es s).
Proof.
  revert s. induction es as [|e es IH]; intro s; simpl; [apply backstage_refl|].
  eapply backstage_trans; [|apply IH].
  destruct (forwards_to b e); [apply try_put_backstage|apply backstage_refl].
Qed.

Lemma policy_backstage (bhs : dict Behavior) (draw : nat -> Q)
      (b : string) (it : Item) (s : Sim) :
  backstage s (snd (policy bhs draw b it s)).
Proof.
  destruct (policy_state bhs draw b it s) as [E|E]; rewrite E;
    [apply backstage_refl|].
  unfold backstage. simpl. auto 7.
Qed.

Lemma injector_wait_backstage (s : Sim) : backstage s (injector_wait s).
Proof. unfold injector_wait. destruct (pending s); apply schedule_backstage. Qed.

Lemma set_pending_backstage (p : list StimulusEvent) (s : Sim) :
  backstage s (set_pending p s).
Proof. unfold backstage. simpl. auto 7. Qed.

(* ------------------------------------------------------------------ *)
(** ** The counters, the frames and the timeline go together *)

Lemma filter_snoc {A : Type} (f : A -> bool) (l : list A) (x : A) :
  filter f (l ++ [x]) = filter f l ++ (if f x then [x] else []).
Proof. rewrite filter_app. reflexivity. Qed.

Lemma StronglySorted_snoc {A : Type} (R : A -> A -> Prop) (l : list A) (x : A) :
  StronglySorted R l -> Forall (fun a => R a x) l -> StronglySorted R (l ++ [x]).
Proof.
  induction 1 as [|a l Hs IH Ha]; intro F; simpl.
  - constructor; constructor.
  - inversion F as [|? ? Rax Fl]; subst. constructor; [apply IH; exact Fl|].
    apply Forall_app. split; [exact Ha|]. constructor; [exact Rax|constructor].
Qed.

Lemma chronological_later (t t' : Q) (tl : list TimelineEntry) :
  t <= t' -> chronological t tl -> chronological t' tl.
Proof.
  intros L [A B]. split; [exact A|].
  eapply Forall_impl; [|exact B]. simpl. intros e [E0 E1]. split; [exact E0|].
  apply Qle_trans with (y := t); assumption.
Qed.

Lemma chronological_snoc (t : Q) (tl : list TimelineEntry) (e : TimelineEntry) :
  0 <= t -> timestamp_ms e = t -> chronological t tl -> chronological t (tl ++ [e]).
Proof.
  intros T0 E [A B]. split.
  - apply StronglySorted_snoc; [exact A|].
    eapply Forall_impl; [|exact B]. simpl. intros a [_ Ha]. rewrite E. exact Ha.
  - apply Forall_app. split; [exact B|].
    constructor; [|constructor]. rewrite E. split; [exact T0|apply Qle_refl].
Qed.

Lemma free_since_later (t t' : Q) (fr : Frame) :
  t <= t' -> free_since t fr <= free_since t' fr.
Proof.
  intro L. unfold free_since. destruct (at_yield fr); try exact L. apply Qle_refl.
Qed.

Lemma Books_later (t t' : Q) (tl : list TimelineEntry)
      (cs : dict Counters) (fs : dict Frame) :
  t <= t' -> Books_of t tl cs fs -> Books_of t' tl cs fs.
Proof.
  intros L (T0 & Ch & Co & Nu & On).
  split; [apply Qle_trans with (y := t); assumption|].
  split; [eapply chronological_later; eassumption|].
  split; [exact Co|]. split; [exact Nu|].
  intros b c fr C F. apply Qle_trans with (y := free_since t fr).
  - eapply On; eassumption.
  - apply free_since_later. exact L.
Qed.

Lemma Books_backstage (s s' : Sim) : backstage s s' -> Books s -> Books s'.
Proof.
  unfold Books. intros (A1 & A2 & A3 & A4 & _) H. rewrite A1, A2, A3, A4. exact H.
Qed.

(** A stimulus entry counts for no block. *)
Lemma Books_stimulus (t : Q) (tl : list TimelineEntry)
      (cs : dict Counters) (fs : dict Frame) (e : TimelineEntry) :
  timestamp_ms e = t -> event_type e = stimulus_ev ->
  Books_of t tl cs fs -> Books_of t (tl ++ [e]) cs fs.
Proof.
  intros Et Ek (T0 & Ch & Co & Nu & On).
  assert (I : forall b, item_entry b e = false).
  { intro b. unfold item_entry. rewrite Ek. simpl. apply andb_false_r. }
  assert (P : forall b, entry_of processed_ev b e = false).
  { intro b. unfold entry_of. rewrite Ek. simpl. apply andb_false_r. }
  assert (F : forall b, entry_of failure_ev b e = false).
  { intro b. unfold entry_of. rewrite Ek. simpl. apply andb_false_r. }
  split; [exact T0|]. split; [apply chronological_snoc; assumption|].
  split; [|split; [|exact On]].
  - intros b c C. unfold count_entries, busy_of.
    rewrite !filter_snoc, P, F, I, !app_nil_r. apply Co. exact C.
  - intros b fr G. rewrite filter_snoc, I, app_nil_r. apply Nu. exact G.
Qed.

(** The generator of [b] reaches its first [store.get()]. *)
Lemma Books_start (t : Q) (tl : list TimelineEntry)
      (cs : dict Counters) (fs : dict Frame) (b : string) (fr : Frame) :
  dict_get b fs = Some fr -> at_yield fr = AtStart ->
  Books_of t tl cs fs ->
  Books_of t tl cs (dict_update b (fun _ => {| item_seq := 0; at_yield := AtGet |}) fs).
Proof.
  intros G A (T0 & Ch & Co & Nu & On).
  split; [exact T0|]. split; [exact Ch|]. split; [exact Co|]. split.
  - intros k fr'. rewrite dict_get_update.
    destruct (String.eqb_spec k b) as [->|N]; [|apply Nu].
    rewrite G. simpl. intro E. injection E as <-.
    destruct (Nu b fr G) as (N1 & N2 & N3).
    unfold in_hand in *. rewrite A in *. simpl in *.
    rewrite (N3 eq_refl) in N1. simpl in N1.
    split; [exact N1|]. split; [lia|discriminate].
  - intros k c fr' C. rewrite dict_get_update.
    destruct (String.eqb_spec k b) as [->|N]; [|apply On; exact C].
    rewrite G. simpl. intro E. injection E as <-.
    specialize (On b c fr C G). unfold free_since in *. rewrite A in On. exact On.
Qed.

(** Block [b] takes an item: it is at its timeout, or its generator ended. *)
Lemma Books_take (t : Q) (tl : list TimelineEntry)
      (cs : dict Counters) (fs : dict Frame) (b : string) (fr : Frame) (y : Suspended) :
  dict_get b fs = Some fr -> at_yield fr = AtGet ->
  y = Finished \/ (exists f, y = AtTimeout t f) ->
  Books_of t tl cs fs ->
  Books_of t tl cs
    (dict_update b (fun _ => {| item_seq := S (item_seq fr); at_yield := y |}) fs).
Proof.
  intros G A Y (T0 & Ch & Co & Nu & On).
  split; [exact T0|]. split; [exact Ch|]. split; [exact Co|]. split.
  - intros k fr'. rewrite dict_get_update.
    destruct (String.eqb_spec k b) as [->|N]; [|apply Nu].
    rewrite G. simpl. intro E. injection E as <-.
    destruct (Nu b fr G) as (N1 & N2 & N3).
    unfold in_hand in *. rewrite A in *. simpl in *.
    rewrite Nat.sub_0_r in N1.
    destruct Y as [->|[f ->]]; simpl; rewrite Nat.sub_0_r;
      (split; [exact N1|split; [lia|discriminate]]).
  - intros k c fr' C. rewrite dict_get_update.
    destruct (String.eqb_spec k b) as [->|N]; [|apply On; exact C].
    rewrite G. simpl. intro E. injection E as <-.
    specialize (On b c fr C G). unfold free_since in *. rewrite A in On.
    destruct Y as [->|[f ->]]; simpl; exact On.
Qed.

Lemma fold_left_Qplus_snoc (l : list Q) (x : Q) :
  fold_left Qplus (l ++ [x]) 0 = fold_left Qplus l 0 + x.
Proof. rewrite fold_left_app. reflexivity. Qed.

(** The timeout of block [b] fired: one more entry, one more count, and the
    block is back at [store.get()]. *)
Lemma Books_done (t : Q) (tl : list TimelineEntry)
      (cs : dict Counters) (fs : dict Frame) (b : string) (fr : Frame)
      (start : Q) (failed : bool) :
  dict_get b fs = Some fr -> at_yield fr = AtTimeout start failed ->
  Books_of t tl cs fs ->
  Books_of t (tl ++ [item_entry_of t b fr start failed])
    (dict_update b (if failed then add_failure else add_processed)
       (dict_update b (add_busy (t - start)) cs))
    (dict_update b (fun _ => {| item_seq := item_seq fr; at_yield := AtGet |}) fs).
Proof.
  intros G A (T0 & Ch & Co & Nu & On).
  set (e := item_entry_of t b fr start failed).
  assert (Et : timestamp_ms e = t) by (unfold e, item_entry_of; destruct failed; reflexivity).
  assert (Eb : te_block_id e = b) by (unfold e, item_entry_of; destruct failed; reflexivity).
  assert (Ek : event_type e = if failed then failure_ev else processed_ev)
    by (unfold e, item_entry_of; destruct failed; reflexivity).
  assert (El : elapsed_of e = t - start)
    by (unfold e, item_entry_of; destruct failed; reflexivity).
  assert (Ei : item_of e = item_seq fr)
    by (unfold e, item_entry_of; destruct failed; reflexivity).
  assert (Other : forall k, k <> b ->
            item_entry k e = false /\ forall kd, entry_of kd k e = false).
  { intros k N. unfold item_entry, entry_of. rewrite Eb.
    destruct (String.eqb_spec b k) as [E|_]; [congruence|]. auto. }
  assert (Mine : item_entry b e = true
                 /\ entry_of failure_ev b e = failed
                 /\ entry_of processed_ev b e = negb failed).
  { unfold item_entry, entry_of. rewrite Eb, Ek, String.eqb_refl.
    destruct failed; auto. }
  destruct Mine as (M1 & M2 & M3).
  split; [exact T0|]. split; [apply chronological_snoc; assumption|].
  split; [|split].
  - intros k c. rewrite !dict_get_update.
    unfold count_entries, busy_of. rewrite !filter_snoc.
    destruct (String.eqb_spec k b) as [->|N].
    + destruct (dict_get b cs) as [c0|] eqn:C; simpl; [|discriminate].
      intro E. injection E as <-.
      destruct (Co b c0 C) as (C1 & C2 & C3).
      unfold count_entries, busy_of in C1, C2, C3.
      rewrite M1, M2, M3, map_app. cbn [map].
      rewrite fold_left_Qplus_snoc, El, <- C3.
      destruct failed; simpl; rewrite ?app_nil_r, ?length_app; simpl;
        (split; [|split; [|reflexivity]]); lia.
    + destruct (Other k N) as [O1 O2]. rewrite O1, !O2, !app_nil_r.
      intro C. apply (Co k c C).
  - intros k fr'. rewrite dict_get_update, filter_snoc.
    destruct (String.eqb_spec k b) as [->|N].
    + rewrite G. simpl. intro E. injection E as <-.
      destruct (Nu b fr G) as (N1 & N2 & N3).
      unfold in_hand in *. rewrite A in *. simpl in *.
      rewrite M1, map_app, N1. simpl map. rewrite Ei, Nat.sub_0_r.
      split; [|split; [lia|discriminate]].
      replace (item_seq fr) with (S (item_seq fr - 1)) at 2 3 by lia.
      rewrite seq_S. reflexivity.
    + destruct (Other k N) as [O1 _]. rewrite O1, app_nil_r. apply Nu.
  - intros k c fr'. rewrite !dict_get_update.
    destruct (String.eqb_spec k b) as [->|N]; [|apply On].
    rewrite G. destruct (dict_get b cs) as [c0|] eqn:C; simpl; [|discriminate].
    intros E1 E2. injection E1 as <-. injection E2 as <-.
    specialize (On b c0 fr C G). unfold free_since in *. rewrite A in On. simpl.
    destruct failed; simpl; lra.
Qed.

Lemma keeps_refl (s : Sim) : keeps s s.
Proof. unfold keeps. auto. Qed.

Lemma keeps_trans (s1 s2 s3 : Sim) : keeps s1 s2 -> keeps s2 s3 -> keeps s1 s3.
Proof.
  intros (A1 & A2 & A3 & A4) (B1 & B2 & B3 & B4).
  unfold keeps. rewrite B2, B3, B4. auto.
Qed.

Lemma backstage_keeps (s s' : Sim) : backstage s s' -> keeps s s'.
Proof.
  intros (_ & A2 & A3 & _ & A5 & A6). unfold keeps. rewrite A2, A3. auto.
Qed.

Lemma set_frame_keeps (b : string) (fr : Frame) (s : Sim) : keeps s (set_frame b fr s).
Proof. unfold keeps. simpl. rewrite dict_keys_update. auto. Qed.

Lemma count_keeps (b : string) (f : Counters -> Counters) (s : Sim) : keeps s (count b f s).
Proof. unfold keeps. simpl. rewrite dict_keys_update. auto. Qed.

Lemma timeline_append_keeps (e : TimelineEntry) (s : Sim) : keeps s (timeline_append e s).
Proof. unfold keeps. simpl. auto. Qed.

Section BooksRun.
Variables (es : list Edge) (bhs : dict Behavior) (draw : nat -> Q).

Lemma pop_books (cap : string -> Z) (known : string -> Prop)
      (x : Scheduled) (q : list Scheduled) (s : Sim) :
  Safe cap known s -> queue s = x :: q -> Books s ->
  Books (set_now (s_time x) (set_queue q s)).
Proof.
  intros (Hq & _) E B. rewrite E in Hq. apply queue_ok_pop in Hq.
  unfold Books. simpl. eapply Books_later; [apply Hq|exact B].
Qed.

Lemma block_start_books (b : string) (s : Sim) : Books s -> Books (block_start b s).
Proof.
  intro B. unfold block_start.
  destruct (dict_get b (frames s)) as [fr|] eqn:G; [|exact B].
  destruct (at_yield fr) eqn:A; try exact B.
  eapply Books_backstage; [apply store_get_backstage|].
  unfold Books. simpl. eapply Books_start; eassumption.
Qed.

Lemma block_start_keeps (b : string) (s : Sim) : keeps s (block_start b s).
Proof.
  unfold block_start. destruct (dict_get b (frames s)) as [fr|]; [|apply keeps_refl].
  destruct (at_yield fr); try apply keeps_refl.
  eapply keeps_trans; [apply set_frame_keeps|].
  apply backstage_keeps. apply store_get_backstage.
Qed.

Lemma block_start_timeline (b : string) (s : Sim) :
  sim_timeline (block_start b s) = sim_timeline s.
Proof.
  unfold block_start. destruct (dict_get b (frames s)) as [fr|]; [|reflexivity].
  destruct (at_yield fr); try reflexivity.
  destruct (store_get_backstage b (set_frame b {| item_seq := 0; at_yield := AtGet |} s))
    as (_ & _ & _ & T & _).
  rewrite T. reflexivity.
Qed.

Lemma block_take_books (b : string) (it : Item) (s : Sim) :
  Books s -> Books (block_take bhs draw b it s).
Proof.
  intro B. unfold block_take.
  destruct (dict_get b (frames s)) as [fr|] eqn:G; [|exact B].
  destruct (at_yield fr) eqn:A; try exact B.
  pose proof (policy_backstage bhs draw b it s) as P.
  destruct (policy bhs draw b it s) as [[failed pt|] s1]; simpl in P;
    destruct P as (P1 & P2 & P3 & P4 & _);
    [destruct (Py.ltb pt 0)|];
    (eapply Books_backstage; [apply schedule_backstage|]);
    unfold Books; simpl; rewrite P1, P2, P3, P4;
    (eapply Books_take; [exact G|exact A| |exact B]); eauto.
Qed.

Lemma block_take_keeps (b : string) (it : Item) (s : Sim) :
  keeps s (block_take bhs draw b it s).
Proof.
  unfold block_take. destruct (dict_get b (frames s)) as [fr|]; [|apply keeps_refl].
  destruct (at_yield fr); try apply keeps_refl.
  pose proof (policy_backstage bhs draw b it s) as P. apply backstage_keeps in P.
  destruct (policy bhs draw b it s) as [[failed pt|] s1]; simpl in P;
    [destruct (Py.ltb pt 0)|];
    (eapply keeps_trans; [exact P|]);
    (eapply keeps_trans; [apply set_frame_keeps|]);
    apply backstage_keeps; apply schedule_backstage.
Qed.

Lemma block_take_timeline (b : string) (it : Item) (s : Sim) :
  sim_timeline (block_take bhs draw b it s) = sim_timeline s.
Proof.
  unfold block_take. destruct (dict_get b (frames s)) as [fr|]; [|reflexivity].
  destruct (at_yield fr); try reflexivity.
  pose proof (policy_backstage bhs draw b it s) as P.
  destruct (policy bhs draw b it s) as [[failed pt|] s1]; simpl in P;
    destruct P as (_ & _ & _ & P4 & _);
    [destruct (Py.ltb pt 0)|]; simpl; exact P4.
Qed.

(** The state that [block_done] leaves, but for the Stores and the heap. *)
Lemma block_done_parts (b : string) (s : Sim) (fr : Frame) (start : Q) (failed : bool) :
  dict_get b (frames s) = Some fr -> at_yield fr = AtTimeout start failed ->
  now (block_done es b s) = now s
  /\ sim_timeline (block_done es b s)
     = sim_timeline s ++ [item_entry_of (now s) b fr start failed]
  /\ block_counters (block_done es b s)
     = dict_update b (if failed then add_failure else add_processed)
         (dict_update b (add_busy (now s - start)) (block_counters s))
  /\ frames (block_done es b s)
     = dict_update b (fun _ => {| item_seq := item_seq fr; at_yield := AtGet |}) (frames s).
Proof.
  intros G A. unfold block_done. rewrite G, A.
  match goal with
  | |- context [store_get b ?s0] =>
      destruct (store_get_backstage b s0) as (B1 & B2 & B3 & B4 & _)
  end.
  rewrite B1, B2, B3, B4. destruct failed; simpl; [auto|].
  match goal with
  | |- context [forward b ?n es ?s0] =>
      destruct (forward_backstage b n es s0) as (F1 & F2 & F3 & F4 & _)
  end.
  rewrite F1, F2, F3, F4. simpl. auto.
Qed.

Lemma block_done_books (b : string) (s : Sim) : Books s -> Books (block_done es b s).
Proof.
  intro B.
  destruct (dict_get b (frames s)) as [fr|] eqn:G;
    [|unfold block_done; rewrite G; exact B].
  destruct (at_yield fr) as [| |start failed|] eqn:A;
    try (unfold block_done; rewrite G, A; exact B).
  destruct (block_done_parts b s fr start failed G A) as (P1 & P2 & P3 & P4).
  unfold Books. rewrite P1, P2, P3, P4. apply Books_done; assumption.
Qed.

Lemma block_done_keeps (b : string) (s : Sim) : keeps s (block_done es b s).
Proof.
  unfold block_done. destruct (dict_get b (frames s)) as [fr|]; [|apply keeps_refl].
  destruct (at_yield fr) as [| |start failed|]; try apply keeps_refl.
  eapply keeps_trans; [|apply backstage_keeps; apply store_get_backstage].
  eapply keeps_trans; [|apply set_frame_keeps].
  eapply keeps_trans; [apply count_keeps|].
  destruct failed.
  - eapply keeps_trans; [apply count_keeps|apply timeline_append_keeps].
  - eapply keeps_trans; [apply count_keeps|].
    eapply keeps_trans; [apply timeline_append_keeps|].
    apply backstage_keeps. apply forward_backstage.
Qed.

Lemma block_done_stamped (b : string) (s : Sim) : stamped s (block_done es b s).
Proof.
  destruct (dict_get b (frames s)) as [fr|] eqn:G;
    [|left; unfold block_done; rewrite G; reflexivity].
  destruct (at_yield fr) as [| |start failed|] eqn:A;
    try (left; unfold block_done; rewrite G, A; reflexivity).
  destruct (block_done_parts b s fr start failed G A) as (_ & P2 & _).
  right. eexists. split; [|exact P2]. destruct failed; reflexivity.
Qed.

(** What a delivery does: nothing, or a put and a stimulus entry. *)
Lemma deliver_cases (ev : StimulusEvent) (s : Sim) :
  deliver ev s = s
  \/ exists t st,
       target_of ev = Some t /\ dict_get t (block_stores s) = Some st
       /\ has_room st = true
       /\ deliver ev s
          = timeline_append (stimulus_entry ev t s) (store_put t (stimulus_item ev) s).
Proof.
  unfold deliver. destruct (target_of ev) as [t|] eqn:T; [|left; reflexivity].
  destruct (Py.str_truthy (Some t)); [|left; reflexivity].
  destruct (try_put t _ s) as [s1 [|]] eqn:P; [|left; reflexivity].
  apply try_put_accepted in P. destruct P as (st & G & R & ->).
  right. exists t, st. auto.
Qed.

Lemma deliver_books (ev : StimulusEvent) (s : Sim) : Books s -> Books (deliver ev s).
Proof.
  intro B. destruct (deliver_cases ev s) as [->|(t & st & _ & _ & _ & ->)]; [exact B|].
  destruct (store_put_backstage t (stimulus_item ev) s) as (P1 & P2 & P3 & P4 & _).
  unfold Books, timeline_append. cbn [now sim_timeline block_counters frames].
  rewrite P1, P2, P3, P4.
  apply Books_stimulus; [reflexivity|reflexivity|exact B].
Qed.

Lemma deliver_keeps (ev : StimulusEvent) (s : Sim) : keeps s (deliver ev s).
Proof.
  destruct (deliver_cases ev s) as [->|(t & st & _ & _ & _ & ->)]; [apply keeps_refl|].
  eapply keeps_trans; [apply backstage_keeps; apply store_put_backstage|].
  apply timeline_append_keeps.
Qed.

Lemma deliver_stamped (ev : StimulusEvent) (s : Sim) :
  stamped s (deliver ev s) /\ now (deliver ev s) = now s.
Proof.
  destruct (deliver_cases ev s) as [->|(t & st & _ & _ & _ & ->)];
    [split; [left|]; reflexivity|].
  destruct (store_put_backstage t (stimulus_item ev) s) as (P1 & _ & _ & P4 & _).
  split; [|exact P1].
  right. exists (stimulus_entry ev t s). split; [reflexivity|].
  unfold timeline_append. cbn [sim_timeline]. rewrite P4. reflexivity.
Qed.

Lemma injector_fire_books (s : Sim) : Books s -> Books (injector_fire s).
Proof.
  intro B. unfold injector_fire. destruct (pending s) as [|ev rest]; [exact B|].
  eapply Books_backstage; [apply injector_wait_backstage|].
  eapply Books_backstage; [apply set_pending_backstage|].
  apply deliver_books. exact B.
Qed.

Lemma injector_fire_keeps (s : Sim) : keeps s (injector_fire s).
Proof.
  unfold injector_fire. destruct (pending s) as [|ev rest]; [apply keeps_refl|].
  eapply keeps_trans; [apply deliver_keeps|].
  eapply keeps_trans; apply backstage_keeps;
    [apply set_pending_backstage|apply injector_wait_backstage].
Qed.

Lemma injector_fire_stamped (s : Sim) : stamped s (injector_fire s).
Proof.
  unfold injector_fire. destruct (pending s) as [|ev rest]; [left; reflexivity|].
  destruct (injector_wait_backstage (set_pending rest (deliver ev s)))
    as (_ & _ & _ & T & _).
  unfold stamped. rewrite T. simpl. apply deliver_stamped.
Qed.

Lemma fire_books (e : Event) (s s' : Sim) :
  Books s ->
  fire es bhs draw e s = Running s' \/ fire es bhs draw e s = Stopped s' ->
  Books s'.
Proof.
  intros B [E|E]; destruct e as [[b|]|[b|]|b|b it|p [exc|]|]; simpl in E;
    try discriminate; injection E as <-.
  - apply block_start_books; exact B.
  - eapply Books_backstage; [apply injector_wait_backstage|].
    eapply Books_backstage; [apply set_pending_backstage|exact B].
  - apply block_done_books; exact B.
  - apply injector_fire_books; exact B.
  - eapply Books_backstage; [apply trigger_get_backstage|exact B].
  - apply block_take_books; exact B.
  - exact B.
  - exact B.
Qed.

Lemma fire_keeps (e : Event) (s s' : Sim) :
  fire es bhs draw e s = Running s' \/ fire es bhs draw e s = Stopped s' ->
  keeps s s'.
Proof.
  intros [E|E]; destruct e as [[b|]|[b|]|b|b it|p [exc|]|]; simpl in E;
    try discriminate; injection E as <-.
  - apply block_start_keeps.
  - eapply keeps_trans; apply backstage_keeps;
      [apply set_pending_backstage|apply injector_wait_backstage].
  - apply block_done_keeps.
  - apply injector_fire_keeps.
  - apply backstage_keeps. apply trigger_get_backstage.
  - apply block_take_keeps.
  - apply keeps_refl.
  - apply keeps_refl.
Qed.

(** Only a timeout that fires adds to the timeline, and then one entry,
    stamped with the time of the timeout. *)
Lemma fire_stamped (e : Event) (s s' : Sim) :
  fire es bhs draw e s = Running s' ->
  sim_timeline s' = sim_timeline s
  \/ ((exists p, e = Timeout p)
      /\ exists z, timestamp_ms z = now s /\ sim_timeline s' = sim_timeline s ++ [z]).
Proof.
  intro E; destruct e as [[b|]|[b|]|b|b it|p [exc|]|]; simpl in E;
    try discriminate; injection E as <-.
  - left. apply block_start_timeline.
  - left. destruct (injector_wait_backstage (set_pending (sorted_events (pending s)) s))
      as (_ & _ & _ & T & _). rewrite T. reflexivity.
  - destruct (block_done_stamped b s) as [T|T]; [left; exact T|right].
    split; [eexists; reflexivity|exact T].
  - destruct (injector_fire_stamped s) as [T|T]; [left; exact T|right].
    split; [eexists; reflexivity|exact T].
  - left. destruct (trigger_get_backstage b s) as (_ & _ & _ & T & _). exact T.
  - left. apply block_take_timeline.
  - left. reflexivity.
Qed.

Lemma step_books (cap : string -> Z) (known : string -> Prop) (s s' : Sim) :
  Safe cap known s -> Books s ->
  step es bhs draw s = Running s' \/ step es bhs draw s = Stopped s' ->
  Books s'.
Proof.
  unfold step. intros Sf B E.
  destruct (queue s) as [|x q] eqn:Q; [destruct E; discriminate|].
  eapply fire_books; [|exact E]. eapply pop_books; eassumption.
Qed.

(** What holds of the first state of the loop and is kept by every step
    holds of the state the run stops in. *)
Lemma run_steps_keeps (I : Sim -> Prop) :
  (forall s s', I s ->
     step es bhs draw s = Running s' \/ step es bhs draw s = Stopped s' -> I s') ->
  forall fuel s s', I s -> run_steps es bhs draw fuel s = Some (inl s') -> I s'.
Proof.
  intros Keep fuel. induction fuel as [|n IH]; intros s s' H; simpl; [discriminate|].
  destruct (step es bhs draw s) as [s1|s1|e] eqn:E.
  - apply IH. apply (Keep s s1 H). left. exact E.
  - intro R. injection R as <-. apply (Keep s s1 H). right. exact E.
  - discriminate.
Qed.

Lemma steps_keeps (I : Sim -> Prop) :
  (forall s s', I s -> step es bhs draw s = Running s' -> I s') ->
  forall n s s', I s -> steps es bhs draw n s = Some s' -> I s'.
Proof.
  intros Keep n. induction n as [|n IH]; intros s s' H; simpl.
  - intro E. injection E as <-. exact H.
  - destruct (step es bhs draw s) as [s1|s1|e] eqn:E; try discriminate.
    apply IH. apply (Keep s s1 H E).
Qed.

End BooksRun.

(* ------------------------------------------------------------------ *)
(** ** The keys of the dictionaries of a run *)

Lemma dict_keys_set {V : Type} (k : string) (v : V) (d : dict V) :
  dict_keys (dict_set k v d)
  = if dict_mem k d then dict_keys d else dict_keys d ++ [k].
Proof.
  unfold dict_mem. induction d as [|[k0 v0] d IH]; simpl; [reflexivity|].
  destruct (String.eqb_spec k k0) as [->|N]; simpl; [reflexivity|].
  rewrite IH. destruct (dict_get k d); reflexivity.
Qed.

Lemma dict_mem_keys {V : Type} (k : string) (d : dict V) :
  dict_mem k d = true <-> In k (dict_keys d).
Proof.
  rewrite dict_get_keys. unfold dict_mem.
  destruct (dict_get k d); split; congruence.
Qed.

Lemma dict_keys_map {V : Type} (f : string -> V) (ids : list string) :
  dict_keys (map (fun k => (k, f k)) ids) = ids.
Proof.
  unfold dict_keys. rewrite map_map. simpl. apply map_id.
Qed.

Lemma NoDup_dict_set {V : Type} (k : string) (v : V) (d : dict V) :
  NoDup (dict_keys d) -> NoDup (dict_keys (dict_set k v d)).
Proof.
  intro N. rewrite dict_keys_set. destruct (dict_mem k d) eqn:M; [exact N|].
  apply NoDup_app; [exact N|constructor; [intros []|constructor]|].
  intros x I [<-|[]]. apply dict_mem_keys in I. congruence.
Qed.

Lemma NoDup_block_ids (pj : Project) : NoDup (block_ids pj).
Proof.
  unfold block_ids, block_nodes.
  assert (G : forall ns (d : dict Node), NoDup (dict_keys d) ->
                NoDup (dict_keys (fold_left (fun d n => if is_block n
                                                        then dict_set (node_id n) n d
                                                        else d) ns d))).
  { induction ns as [|n ns IH]; intros d N; simpl; [exact N|].
    apply IH. destruct (is_block n); [apply NoDup_dict_set|]; exact N. }
  apply G. constructor.
Qed.

Lemma make_stores_keys (bhs : dict Behavior) (ids : list string) (acc stores : dict Store) :
  make_stores bhs ids acc = inl stores ->
  NoDup (dict_keys acc ++ ids) ->
  dict_keys stores = dict_keys acc ++ ids.
Proof.
  revert acc. induction ids as [|b ids IH]; intros acc; simpl.
  - intro E. injection E as <-. rewrite app_nil_r. reflexivity.
  - destruct (capacity_of bhs b <=? 0)%Z; [discriminate|].
    intros E N.
    assert (M : dict_mem b acc = false).
    { destruct (dict_mem b acc) eqn:M; [|reflexivity].
      apply dict_mem_keys in M. apply NoDup_remove_2 in N.
      exfalso. apply N. apply in_or_app. left. exact M. }
    assert (K : dict_keys (dict_set b {| items := []; capacity := capacity_of bhs b;
                                         get_waiting := false |} acc)
                = dict_keys acc ++ [b]) by (rewrite dict_keys_set, M; reflexivity).
    rewrite (IH _ E); rewrite K, <- app_assoc; [reflexivity|exact N].
Qed.

Lemma launch_backstage (ids : list string) (evs : list StimulusEvent) (s : Sim) :
  backstage s (launch ids evs s).
Proof.
  unfold launch.
  assert (F : forall s, backstage s
                (fold_left (fun s b => schedule 0 (Initialize (BlockProc b)) s) ids s)).
  { induction ids as [|b ids IH]; intro s0; simpl; [apply backstage_refl|].
    eapply backstage_trans; [apply schedule_backstage|apply IH]. }
  destruct evs; [apply F|].
  eapply backstage_trans; [apply F|apply schedule_backstage].
Qed.

Lemma keyed_keeps (ids : list string) (s s' : Sim) : keeps s s' -> keyed ids s -> keyed ids s'.
Proof.
  intros (_ & A & B & C) (K1 & K2 & K3). unfold keyed. rewrite A, B, C. auto.
Qed.

Lemma until_ahead_keeps (duration : Q) (s s' : Sim) :
  keeps s s' -> until_ahead duration s -> until_ahead duration s'.
Proof.
  intros (A & _) (u & I & E & T). exists u. auto.
Qed.

(* ------------------------------------------------------------------ *)
(** ** Every state of a run is sound *)

Section SoundRun.
Variables (es : list Edge) (bhs : dict Behavior) (draw : nat -> Q).
Variables (cap : string -> Z) (known : string -> Prop).
Variables (ids : list string) (duration : Q).

Lemma step_running (s s' : Sim) :
  step es bhs draw s = Running s' ->
  exists x q, queue s = x :: q /\ s_event x <> Until
              /\ fire es bhs draw (s_event x) (set_now (s_time x) (set_queue q s))
                 = Running s'.
Proof.
  unfold step. destruct (queue s) as [|x q]; [discriminate|].
  intro E. exists x, q. split; [reflexivity|]. split; [|exact E].
  intro U. rewrite U in E. discriminate.
Qed.

Lemma step_stopped (s s' : Sim) :
  step es bhs draw s = Stopped s' ->
  exists x q, queue s = x :: q /\ s_event x = Until
              /\ s' = set_now (s_time x) (set_queue q s).
Proof.
  unfold step. destruct (queue s) as [|x q]; [discriminate|].
  intro E. exists x, q. split; [reflexivity|].
  destruct (s_event x) as [[b|]|[b|]|b|b it|p [exc|]|]; simpl in E; try discriminate.
  split; [reflexivity|]. congruence.
Qed.

Lemma step_sound (s s' : Sim) :
  Sound cap known ids duration s -> step es bhs draw s = Running s' ->
  Sound cap known ids duration s'.
Proof.
  intros (Sf & Bk & Ky & Un & Bf) E.
  assert (Sf' : Safe cap known s') by (eapply step_safe; [exact Sf|left; exact E]).
  assert (Bk' : Books s') by (eapply step_books; [exact Sf|exact Bk|left; exact E]).
  destruct (step_running s s' E) as (x & q & Q & NU & F).
  assert (Kp : keeps (set_now (s_time x) (set_queue q s)) s')
    by (eapply fire_keeps; left; exact F).
  split; [exact Sf'|]. split; [exact Bk'|]. split; [|split].
  - eapply keyed_keeps; [exact Kp|]. exact Ky.
  - eapply until_ahead_keeps; [exact Kp|].
    destruct Un as (u & I & Eu & Tu). exists u. simpl. rewrite Q in I.
    destruct I as [<-|I]; [contradiction|auto].
  - destruct (fire_stamped es bhs draw _ _ _ F) as [T|([p Ep] & z & Tz & T)];
      simpl in T; rewrite T; [exact Bf|].
    apply Forall_app. split; [exact Bf|]. constructor; [|constructor].
    rewrite Tz. simpl. destruct Sf as (Hq & _).
    unfold until_ahead in Un. rewrite Q in Hq, Un.
    eapply head_before_until; [exact Hq|exact Un|exact NU|].
    rewrite Ep. reflexivity.
Qed.

Lemma steps_sound (n : nat) (s s' : Sim) :
  Sound cap known ids duration s -> steps es bhs draw n s = Some s' ->
  Sound cap known ids duration s'.
Proof. apply (steps_keeps es bhs draw). apply step_sound. Qed.

(** The state a run stops in: the stop event was at the head of the heap,
    and the time is at most the duration. *)
Lemma stopped_sound (s s' : Sim) :
  Sound cap known ids duration s -> step es bhs draw s = Stopped s' ->
  Safe cap known s' /\ Books s' /\ keyed ids s'
  /\ Forall (fun e => timestamp_ms e < duration) (sim_timeline s')
  /\ now s' <= duration.
Proof.
  intros (Sf & Bk & Ky & Un & Bf) E.
  split; [eapply step_safe; [exact Sf|right; exact E]|].
  split; [eapply step_books; [exact Sf|exact Bk|right; exact E]|].
  destruct (step_stopped s s' E) as (x & q & Q & U & ->). simpl.
  split; [exact Ky|]. split; [exact Bf|].
  destruct Un as (u & I & Eu & Tu). rewrite Q in I.
  destruct I as [<-|I]; [rewrite Tu; apply Qle_refl|].
  destruct Sf as ((Hs & _) & _). rewrite Q in Hs.
  inversion Hs as [|? ? _ Hx]; subst. rewrite Forall_forall in Hx.
  rewrite <- Tu. apply key_le_time. apply Hx. exact I.
Qed.

End SoundRun.

Lemma loop_start_sound (pj : Project) (sc : Scenario) (bhs : dict Behavior) (s0 : Sim) :
  loop_start pj sc bhs = Some s0 ->
  Sound (capacity_of bhs) (fun b => In b (block_ids pj)) (block_ids pj) (duration_of sc) s0.
Proof.
  intro L.
  split; [apply (loop_start_safe _ _ _ _ L)|].
  assert (Un : until_ahead (duration_of sc) s0)
    by (apply (loop_start_live _ _ _ _ L)).
  revert L. unfold loop_start.
  destruct (make_stores bhs _ []) as [stores|e] eqn:M; [|discriminate].
  destruct (Py.leb _ _); [discriminate|].
  intro E. injection E as <-.
  match goal with
  | |- context [schedule ?d Until (initial ?i ?st ?ev)] =>
      pose proof (schedule_backstage d Until (initial i st ev)) as B1
  end.
  unfold initial in *.
  match type of B1 with
  | backstage (launch ?i ?ev ?s) _ => pose proof (launch_backstage i ev s) as B2
  end.
  pose proof (backstage_trans _ _ _ B2 B1) as B.
  split; [|split; [|split; [exact Un|]]].
  - eapply Books_backstage; [exact B|]. unfold Books. simpl.
    split; [apply Qle_refl|]. split; [split; constructor|]. split; [|split].
    + intros b c G. apply dict_get_map_const in G. subst c. auto.
    + intros b fr G. apply dict_get_map_const in G. subst fr. auto.
    + intros b c fr G1 G2. apply dict_get_map_const in G1, G2. subst. apply Qle_refl.
  - eapply keyed_keeps; [apply backstage_keeps; exact B|].
    unfold keyed. cbn [block_stores block_counters frames]. rewrite !dict_keys_map.
    split; [|auto].
    apply (make_stores_keys _ _ _ _ M). simpl. apply NoDup_block_ids.
  - destruct B as (_ & _ & _ & T & _). rewrite T. constructor.
Qed.

(** A response of the run comes from a sound state in which the stop event
    was reached. *)
Lemma run_with_simpy_sound (fuel : nat) (draw : nat -> Q)
      (pj : Project) (sc : Scenario) (bhs : dict Behavior) (r : Response) :
  run_with_simpy fuel draw pj sc bhs = Some (inl r) ->
  exists s,
    r = response_of pj sc s
    /\ Safe (capacity_of bhs) (fun b => In b (block_ids pj)) s
    /\ Books s /\ keyed (block_ids pj) s
    /\ Forall (fun e => timestamp_ms e < duration_of sc) (sim_timeline s)
    /\ now s <= duration_of sc /\ 0 < duration_of sc.
Proof.
  intro R. apply run_with_simpy_inl in R. destruct R as (s0 & s & L & R & ->).
  apply run_steps_stopped in R. destruct R as (n & s1 & St & Sp).
  pose proof (loop_start_sound _ _ _ _ L) as S0.
  pose proof (steps_sound _ _ _ _ _ _ _ _ _ _ S0 St) as S1.
  destruct (stopped_sound _ _ _ _ _ _ _ _ _ S1 Sp) as (A & B & C & D & E).
  exists s. split; [reflexivity|]. repeat (split; [assumption|]).
  eapply loop_start_duration. exact L.
Qed.

(* ------------------------------------------------------------------ *)
(** ** The events that a call schedules *)

Section Adds.
Variable P : Event -> Prop.

Lemma adds_refl (s : Sim) : adds P s s.
Proof. intros x I. left. exact I. Qed.

Lemma adds_trans (s1 s2 s3 : Sim) : adds P s1 s2 -> adds P s2 s3 -> adds P s1 s3.
Proof.
  intros A B x I. destruct (B x I) as [I2|Px]; [apply (A x I2)|right; exact Px].
Qed.

Lemma adds_same_queue (s s' : Sim) : queue s' = queue s -> adds P s s'.
Proof. intros E x I. left. rewrite <- E. exact I. Qed.

Lemma schedule_adds (d : Q) (e : Event) (s : Sim) : P e -> adds P s (schedule d e s).
Proof.
  intros Pe x I. simpl in I. apply In_heappush in I.
  destruct I as [->|I]; [right; exact Pe|left; exact I].
Qed.

Hypothesis P_store : forall e, store_event e -> P e.

Lemma store_put_adds (b : string) (it : Item) (s : Sim) : adds P s (store_put b it s).
Proof.
  unfold store_put. eapply adds_trans; [|apply schedule_adds; apply P_store; exact I].
  apply adds_same_queue. reflexivity.
Qed.

Lemma try_put_adds (b : string) (it : Item) (s : Sim) : adds P s (fst (try_put b it s)).
Proof.
  unfold try_put. destruct (dict_get b (block_stores s)) as [st|]; [|apply adds_refl].
  destruct (has_room st); [apply store_put_adds|apply adds_refl].
Qed.

Lemma store_get_adds (b : string) (s : Sim) : adds P s (store_get b s).
Proof.
  unfold store_get. destruct (dict_get b (block_stores s)) as [st|]; [|apply adds_refl].
  destruct (items st) as [|it rest]; [apply adds_same_queue; reflexivity|].
  eapply adds_trans; [|apply schedule_adds; apply P_store; exact I].
  apply adds_same_queue. reflexivity.
Qed.

Lemma trigger_get_adds (b : string) (s : Sim) : adds P s (trigger_get b s).
Proof.
  unfold trigger_get. destruct (dict_get b (block_stores s)) as [st|]; [|apply adds_refl].
  destruct (get_waiting st); [apply store_get_adds|apply adds_refl].
Qed.

Lemma forward_adds (b : string) (seq : nat) (es : list Edge) (s : Sim) :
  adds P s (forward b seq es s).
Proof.
  revert s. induction es as [|e es IH]; intro s; simpl; [apply adds_refl|].
  eapply adds_trans; [|apply IH].
  destruct (forwards_to b e); [apply try_put_adds|apply adds_refl].
Qed.

Lemma deliver_adds (ev : StimulusEvent) (s : Sim) : adds P s (deliver ev s).
Proof.
  destruct (deliver_cases ev s) as [->|(t & st & _ & _ & _ & ->)]; [apply adds_refl|].
  eapply adds_trans; [apply store_put_adds|]. apply adds_same_queue. reflexivity.
Qed.

Lemma block_start_adds (b : string) (s : Sim) : adds P s (block_start b s).
Proof.
  unfold block_start. destruct (dict_get b (frames s)) as [fr|]; [|apply adds_refl].
  destruct (at_yield fr); try apply adds_refl.
  eapply adds_trans; [|apply store_get_adds]. apply adds_same_queue. reflexivity.
Qed.

Lemma block_done_adds (es : list Edge) (b : string) (s : Sim) :
  adds P s (block_done es b s).
Proof.
  unfold block_done. destruct (dict_get b (frames s)) as [fr|]; [|apply adds_refl].
  destruct (at_yield fr) as [| |start failed|]; try apply adds_refl.
  eapply adds_trans; [|apply store_get_adds].
  eapply adds_trans; [|apply adds_same_queue; reflexivity].
  destruct failed; [apply adds_same_queue; reflexivity|].
  eapply adds_trans; [|apply forward_adds]. apply adds_same_queue. reflexivity.
Qed.

Hypothesis P_timeout : P (Timeout Injector).
Hypothesis P_end : P (ProcessEnd Injector None).

Lemma injector_wait_adds (s : Sim) : adds P s (injector_wait s).
Proof.
  unfold injector_wait. destruct (pending s); apply schedule_adds; auto.
Qed.

Lemma injector_fire_adds (s : Sim) : adds P s (injector_fire s).
Proof.
  unfold injector_fire. destruct (pending s) as [|ev rest]; [apply adds_refl|].
  eapply adds_trans; [|apply injector_wait_adds].
  eapply adds_trans; [apply deliver_adds|]. apply adds_same_queue. reflexivity.
Qed.

End Adds.

(** An event scheduled in a state that has the heap of [s]. *)
Lemma schedule_adds_over (P : Event -> Prop) (d : Q) (e : Event) (s s0 : Sim) :
  queue s0 = queue s -> P e -> adds P s (schedule d e s0).
Proof.
  intros E Pe. apply adds_trans with (s2 := s0);
    [apply adds_same_queue; exact E|apply schedule_adds; exact Pe].
Qed.

(* ------------------------------------------------------------------ *)
(** ** The exceptions a run can end with *)

Lemma policy_decided (bhs : dict Behavior) (draw : nat -> Q)
      (b : string) (it : Item) (s s1 : Sim) (f : bool) (d : Q) :
  policy bhs draw b it s = (Decided f d, s1) ->
  d = ptime_of bhs b
  \/ exists script f',
       sim_script (behavior_of bhs b) = Some script
       /\ script it (now s) = ScriptResult f' (TimeNum d).
Proof.
  unfold policy. destruct (sim_script (behavior_of bhs b)) as [script|].
  - destruct (script it (now s)) as [| | |f' [| |q]] eqn:O; simpl; intro E;
      try discriminate; injection E as _ <- _; eauto.
  - intro E. injection E as _ <- _. left. reflexivity.
Qed.

Lemma policy_exits (bhs : dict Behavior) (draw : nat -> Q)
      (b : string) (it : Item) (s s1 : Sim) :
  policy bhs draw b it s = (Exits, s1) ->
  exists script,
    sim_script (behavior_of bhs b) = Some script /\ script it (now s) = ScriptExits.
Proof.
  unfold policy. destruct (sim_script (behavior_of bhs b)) as [script|]; [|discriminate].
  destruct (script it (now s)) as [| | |f' [| |q]] eqn:O; simpl; intro E;
    try discriminate. eauto.
Qed.

Lemma store_event_faultless (bhs : dict Behavior) (ids : list string) (e : Event) :
  store_event e -> faultless bhs ids e.
Proof. intros S p exc ->. destruct S. Qed.

Section Faults.
Variables (es : list Edge) (bhs : dict Behavior) (draw : nat -> Q).
Variable ids : list string.

Lemma block_take_adds (b : string) (it : Item) (s : Sim) :
  dict_keys (frames s) = ids ->
  adds (faultless bhs ids) s (block_take bhs draw b it s).
Proof.
  intro K. unfold block_take.
  destruct (dict_get b (frames s)) as [fr|] eqn:G; [|apply adds_refl].
  assert (Ib : In b ids) by (rewrite <- K; apply dict_get_keys; congruence).
  destruct (at_yield fr); try apply adds_refl.
  pose proof (policy_backstage bhs draw b it s) as B.
  destruct (policy bhs draw b it s) as [[failed pt|] s1] eqn:Pol; simpl in B.
  - assert (Q1 : adds (faultless bhs ids) s s1).
    { intros x I. left. revert x I.
      pose proof (policy_state bhs draw b it s) as St. rewrite Pol in St. simpl in St.
      destruct St as [->| ->]; auto. }
    destruct (Py.ltb pt 0) eqn:L.
    + eapply adds_trans; [exact Q1|].
      apply schedule_adds_over; [reflexivity|].
      intros p e E. injection E as _ <-. simpl.
      split; [apply ltb_lt; exact L|]. exists b. split; [exact Ib|].
      destruct (policy_decided _ _ _ _ _ _ _ _ Pol) as [D|(script & f' & Sc & O)];
        [left; exact D|right; eauto 7].
    + eapply adds_trans; [exact Q1|].
      apply schedule_adds_over; [reflexivity|].
      intros p e E. discriminate.
  - assert (Q1 : adds (faultless bhs ids) s s1).
    { intros x I. left. revert x I.
      pose proof (policy_state bhs draw b it s) as St. rewrite Pol in St. simpl in St.
      destruct St as [->| ->]; auto. }
    eapply adds_trans; [exact Q1|].
    apply schedule_adds_over; [reflexivity|].
    intros p e E. injection E as _ <-. simpl.
    destruct (policy_exits _ _ _ _ _ _ Pol) as (script & Sc & O). eauto 7.
Qed.

Lemma fire_adds (e : Event) (s s' : Sim) :
  dict_keys (frames s) = ids ->
  fire es bhs draw e s = Running s' -> adds (faultless bhs ids) s s'.
Proof.
  assert (St : forall x, store_event x -> faultless bhs ids x)
    by apply store_event_faultless.
  assert (Tm : faultless bhs ids (Timeout Injector)) by (intros q x; discriminate).
  assert (En : faultless bhs ids (ProcessEnd Injector None))
    by (intros q x; discriminate).
  intros K E; destruct e as [[b|]|[b|]|b|b it|p [exc|]|]; simpl in E;
    try discriminate; injection E as <-.
  - apply block_start_adds. exact St.
  - apply adds_trans with (s2 := set_pending (sorted_events (pending s)) s);
      [apply adds_same_queue; reflexivity|].
    apply injector_wait_adds; assumption.
  - apply block_done_adds. exact St.
  - apply injector_fire_adds; assumption.
  - apply trigger_get_adds. exact St.
  - apply block_take_adds. exact K.
  - apply adds_refl.
Qed.

Lemma step_faults (s s' : Sim) :
  dict_keys (frames s) = ids -> faults_ok bhs ids s ->
  step es bhs draw s = Running s' -> faults_ok bhs ids s'.
Proof.
  intros K F E. destruct (step_running es bhs draw s s' E) as (x & q & Q & _ & Fi).
  apply fire_adds in Fi; [|exact K].
  unfold faults_ok in *. rewrite Q in F. inversion F as [|? ? _ Fq]; subst.
  rewrite Forall_forall in *. intros y I.
  destruct (Fi y I) as [I'|Py]; [apply Fq; exact I'|exact Py].
Qed.

Lemma step_raised (s : Sim) (e : Exn) :
  step es bhs draw s = Raised e ->
  (queue s = [] /\ e = NoScheduledEvents)
  \/ exists x q p, queue s = x :: q /\ s_event x = ProcessEnd p (Some e).
Proof.
  unfold step. destruct (queue s) as [|x q].
  - intro E. injection E as <-. left. auto.
  - intro E. right. exists x, q.
    destruct (s_event x) as [[b|]|[b|]|b|b it|p [exc|]|]; simpl in E; try discriminate.
    injection E as <-. eauto.
Qed.

Lemma run_steps_raised (fuel : nat) (s : Sim) (e : Exn) :
  run_steps es bhs draw fuel s = Some (inr e) ->
  exists n s1, steps es bhs draw n s = Some s1 /\ step es bhs draw s1 = Raised e.
Proof.
  revert s. induction fuel as [|k IH]; intros s; simpl; [discriminate|].
  destruct (step es bhs draw s) as [s1|s1|e'] eqn:E.
  - intro R. destruct (IH _ R) as (n & s2 & A & B).
    exists (S n), s2. simpl. rewrite E. auto.
  - discriminate.
  - intro R. injection R as <-. exists O, s. auto.
Qed.

End Faults.

Lemma make_stores_raised (bhs : dict Behavior) (ids : list string) (acc : dict Store)
      (e : Exn) :
  make_stores bhs ids acc = inr e ->
  e = CapacityNotPositive /\ exists b, In b ids /\ (capacity_of bhs b <= 0)%Z.
Proof.
  revert acc. induction ids as [|b ids IH]; intros acc; simpl; [discriminate|].
  destruct (capacity_of bhs b <=? 0)%Z eqn:C.
  - intro E. injection E as <-. split; [reflexivity|].
    exists b. split; [left; reflexivity|apply Z.leb_le; exact C].
  - intro E. destruct (IH _ E) as (-> & k & I & L). eauto 7.
Qed.

Lemma loop_start_faults (pj : Project) (sc : Scenario) (bhs : dict Behavior) (s0 : Sim) :
  loop_start pj sc bhs = Some s0 -> faults_ok bhs (block_ids pj) s0.
Proof.
  intro L. destruct (loop_start_live _ _ _ _ L) as (NoEnd & _).
  apply Forall_forall. intros x I p e E. exfalso. apply (NoEnd x p e I E).
Qed.

(** An exception that ends the run has its cause in the request; the heap
    never runs empty. *)
Lemma run_raised_cause (fuel : nat) (draw : nat -> Q)
      (pj : Project) (sc : Scenario) (bhs : dict Behavior) (e : Exn) :
  run_with_simpy fuel draw pj sc bhs = Some (inr e) -> run_cause pj sc bhs e.
Proof.
  unfold run_with_simpy.
  destruct (make_stores bhs _ []) as [stores|e'] eqn:M.
  - destruct (env_run _ _ _ _ _ _) as [[s|e']|] eqn:R; try discriminate.
    intro E. injection E as ->.
    unfold env_run in R.
    destruct (Py.leb (duration_of sc) _) eqn:Le.
    + injection R as <-. simpl. split; [reflexivity|].
      apply leb_le in Le. unfold initial in Le. rewrite now_launch in Le. exact Le.
    + assert (L : loop_start pj sc bhs
                  = Some (schedule (duration_of sc
                                    - now (initial (dict_keys (block_nodes (nodes pj)))
                                             stores (events sc)))
                            Until
                            (initial (dict_keys (block_nodes (nodes pj)))
                               stores (events sc)))).
      { unfold loop_start. rewrite M, Le. reflexivity. }
      apply run_steps_raised in R. destruct R as (n & s1 & St & Rs).
      pose proof (loop_start_sound _ _ _ _ L) as S0.
      pose proof (loop_start_faults _ _ _ _ L) as F0.
      assert (Inv : Sound (capacity_of bhs) (fun b => In b (block_ids pj))
                      (block_ids pj) (duration_of sc) s1
                    /\ faults_ok bhs (block_ids pj) s1).
      { revert St. apply (steps_keeps (edges pj) bhs draw
                            (fun s => Sound (capacity_of bhs)
                                        (fun b => In b (block_ids pj))
                                        (block_ids pj) (duration_of sc) s
                                      /\ faults_ok bhs (block_ids pj) s)).
        - intros s s' [So Fa] E. split; [eapply step_sound; eassumption|].
          eapply step_faults; [|exact Fa|exact E]. apply So.
        - auto. }
      destruct Inv as [(_ & _ & _ & (u & Iu & _) & _) Fa].
      destruct (step_raised _ _ _ _ _ Rs) as [[Q _]|(x & q & p & Q & Ev)].
      * rewrite Q in Iu. destruct Iu.
      * unfold faults_ok in Fa. rewrite Q in Fa. inversion Fa as [|? ? Fx _]; subst.
        specialize (Fx p e Ev). destruct e; simpl in *; try contradiction; exact Fx.
  - intro E. injection E as ->.
    destruct (make_stores_raised _ _ _ _ M) as (-> & H). exact H.
Qed.

(* ------------------------------------------------------------------ *)
(** ** The response against its timeline *)

Lemma item_entries_length (b : string) (tl : list TimelineEntry) :
  Z.of_nat (List.length (filter (item_entry b) tl))
  = (count_entries processed_ev b tl + count_entries failure_ev b tl)%Z.
Proof.
  unfold count_entries. induction tl as [|e tl IH]; [reflexivity|].
  cbn [filter].
  assert (E : item_entry b e = entry_of processed_ev b e || entry_of failure_ev b e
              /\ entry_of processed_ev b e && entry_of failure_ev b e = false).
  { unfold item_entry, entry_of.
    destruct (String.eqb _ _); destruct (event_type e); auto. }
  destruct E as [E1 E2]. rewrite E1.
  destruct (entry_of processed_ev b e), (entry_of failure_ev b e);
    try discriminate; cbn [orb List.length]; rewrite ?Nat2Z.inj_succ; lia.
Qed.

Lemma metrics_entry (fuel : nat) (draw : nat -> Q)
      (pj : Project) (sc : Scenario) (bhs : dict Behavior) (r : Response)
      (b : string) (m : BlockMetrics) :
  run_with_simpy fuel draw pj sc bhs = Some (inl r) -> In (b, m) (metrics r) ->
  exists s c st fr,
    timeline r = sim_timeline s
    /\ dict_get b (block_counters s) = Some c
    /\ dict_get b (block_stores s) = Some st
    /\ dict_get b (frames s) = Some fr
    /\ m = block_metrics (duration_of sc) c st
    /\ Safe (capacity_of bhs) (fun b => In b (block_ids pj)) s
    /\ Books s
    /\ now s <= duration_of sc /\ 0 < duration_of sc.
Proof.
  intros R I. apply run_with_simpy_sound in R.
  destruct R as (s & -> & Sf & Bk & (_ & K2 & K3) & _ & Nw & D).
  simpl in I. apply collect_metrics_In in I. destruct I as [(c & st & C & G & ->)|[]].
  assert (F : dict_get b (frames s) <> None).
  { apply dict_get_keys. rewrite K3, <- K2. apply dict_get_keys. congruence. }
  destruct (dict_get b (frames s)) as [fr|] eqn:Fr; [|congruence].
  exists s, c, st, fr. auto 10.
Qed.



Lemma counts_entries_of_metrics
      (fuel : nat) (draw : nat -> Q) (pj : Project) (sc : Scenario)
      (bhs : dict Behavior) (r : Response) (b : string) (m : BlockMetrics) :
  run_with_simpy fuel draw pj sc bhs = Some (inl r) -> In (b, m) (metrics r) ->
  processed_count m = count_entries processed_ev b (timeline r)
  /\ failures m = count_entries failure_ev b (timeline r).
Proof.
  intros R I.
  destruct (metrics_entry _ _ _ _ _ _ _ _ R I)
    as (s & c & st & fr & -> & C & _ & _ & -> & _ & (_ & _ & Co & _) & _).
  simpl. destruct (Co b c C) as (A & B & _). auto.
Qed.

(** X2.  The counts of a block are the numbers of its entries in the timeline:
    processed_count that of its "processed" entries, failures that of its
    "failure" entries. *)
Theorem counts_match_timeline
        (fuel : nat) (draw : nat -> Q) (pj : Project) (sc : Scenario)
        (bhs : dict Behavior) (r : Response) (b : string) (m : BlockMetrics) :
  run_with_simpy fuel draw pj sc bhs = Some (inl r) -> In (b, m) (metrics r) ->
  processed_count m = count_entries processed_ev b (timeline r)
  /\ failures m = count_entries failure_ev b (timeline r).
Proof. apply counts_entries_of_metrics. Qed.

(** X2 at work: block "A" of the chain. *)
Lemma counts_match_timeline_witness :
  exists r m,
    run_with_simpy 100 Sample.half Sample.chain Sample.chain_sc [] = Some (inl r)
    /\ In ("A"%string, m) (metrics r)
    /\ processed_count m = 2%Z
    /\ processed_count m = count_entries processed_ev "A" (timeline r)
    /\ failures m = count_entries failure_ev "A" (timeline r).
Proof.
  exists_some (run_with_simpy 100 Sample.half Sample.chain Sample.chain_sc []).
  eexists. split; [vm_compute; reflexivity|].
  split; [left; reflexivity|]. split; [reflexivity|].
  apply (counts_match_timeline 100 Sample.half Sample.chain Sample.chain_sc []);
    [vm_compute; reflexivity|left; reflexivity].
Defined.

(** X3.  The entries of a block for its items carry the item numbers 1, 2, ... in
    this order, up to processed_count + failures. *)
Theorem items_numbered_in_order
        (fuel : nat) (draw : nat -> Q) (pj : Project) (sc : Scenario)
        (bhs : dict Behavior) (r : Response) (b : string) (m : BlockMetrics) :
  run_with_simpy fuel draw pj sc bhs = Some (inl r) -> In (b, m) (metrics r) ->
  map item_of (filter (item_entry b) (timeline r))
  = List.seq 1 (Z.to_nat (processed_count m + failures m)).
Proof.
  intros R I.
  destruct (metrics_entry _ _ _ _ _ _ _ _ R I)
    as (s & c & st & fr & -> & C & _ & F & -> & _ & (_ & _ & Co & Nu & _) & _).
  simpl. destruct (Co b c C) as (A & B & _). destruct (Nu b fr F) as (N & _).
  rewrite A, B, <- item_entries_length, Nat2Z.id.
  rewrite N. f_equal.
  apply (f_equal (@List.length nat)) in N. rewrite length_map, length_seq in N.
  symmetry. exact N.
Qed.

(** X3 at work: block "A" of the chain. *)
Lemma items_numbered_in_order_witness :
  exists r m,
    run_with_simpy 100 Sample.half Sample.chain Sample.chain_sc [] = Some (inl r)
    /\ In ("A"%string, m) (metrics r)
    /\ map item_of (filter (item_entry "A") (timeline r)) = [1; 2]%nat.
Proof.
  exists_some (run_with_simpy 100 Sample.half Sample.chain Sample.chain_sc []).
  eexists. split; [vm_compute; reflexivity|].
  split; [left; reflexivity|].
  match goal with
  | |- map item_of (filter (item_entry "A") (timeline ?r)) = _ =>
      rewrite (items_numbered_in_order 100 Sample.half Sample.chain Sample.chain_sc []
                 r "A" _ ltac:(vm_compute; reflexivity) (or_introl eq_refl))
  end.
  reflexivity.
Defined.



(* ------------------------------------------------------------------ *)
(** ** The blocks that get metrics *)

Lemma dict_mem_same_keys {V W : Type} (k : string) (d : dict V) (d' : dict W) :
  dict_keys d = dict_keys d' -> dict_mem k d = dict_mem k d'.
Proof.
  intro E. destruct (dict_mem k d) eqn:M, (dict_mem k d') eqn:M'; try reflexivity.
  - apply dict_mem_keys in M. rewrite E in M. apply dict_mem_keys in M. congruence.
  - apply dict_mem_keys in M'. rewrite <- E in M'. apply dict_mem_keys in M'. congruence.
Qed.

Lemma loop_keys (duration : Q) (bhs : dict Behavior) (ns : list Node)
      (acc : dict BlockMetrics) (d : dict Node) :
  dict_keys acc = dict_keys d ->
  dict_keys (Deterministic.loop duration bhs ns acc)
  = dict_keys (fold_left (fun d n => if is_block n then dict_set (node_id n) n d else d)
                 ns d).
Proof.
  revert acc d. induction ns as [|n ns IH]; intros acc d E; simpl; [exact E|].
  destruct (is_block n); apply IH; [|exact E].
  rewrite !dict_keys_set, (dict_mem_same_keys _ acc d E), E. reflexivity.
Qed.

Lemma collect_metrics_keys (duration : Q) (s : Sim) (ids : list string)
      (acc : dict BlockMetrics) :
  (forall b, In b ids -> dict_get b (block_counters s) <> None
                         /\ dict_get b (block_stores s) <> None) ->
  NoDup (dict_keys acc ++ ids) ->
  dict_keys (collect_metrics duration s ids acc) = dict_keys acc ++ ids.
Proof.
  revert acc. induction ids as [|b ids IH]; intros acc H N; simpl.
  - rewrite app_nil_r. reflexivity.
  - destruct (H b (or_introl eq_refl)) as [C G].
    destruct (dict_get b (block_counters s)) as [c|]; [|congruence].
    destruct (dict_get b (block_stores s)) as [st|]; [|congruence].
    assert (M : dict_mem b acc = false).
    { destruct (dict_mem b acc) eqn:M; [|reflexivity].
      apply dict_mem_keys in M. apply NoDup_remove_2 in N.
      exfalso. apply N. apply in_or_app. left. exact M. }
    assert (K : dict_keys (dict_set b (block_metrics duration c st) acc) ++ ids
                = dict_keys acc ++ b :: ids)
      by (rewrite dict_keys_set, M, <- app_assoc; reflexivity).
    rewrite IH; [exact K|intros k I; apply H; right; exact I|rewrite K; exact N].
Qed.

Lemma block_ids_In (pj : Project) (b : string) :
  In b (block_ids pj) <->
  exists n, In n (nodes pj) /\ is_block n = true /\ node_id n = b.
Proof.
  unfold block_ids, block_nodes.
  assert (G : forall ns (d : dict Node),
            In b (dict_keys (fold_left (fun d n => if is_block n
                                                   then dict_set (node_id n) n d
                                                   else d) ns d))
            <-> In b (dict_keys d)
                \/ exists n, In n ns /\ is_block n = true /\ node_id n = b).
  { induction ns as [|n ns IH]; intro d; simpl.
    - split; [auto|intros [H|(n & [] & _)]; exact H].
    - rewrite IH. destruct (is_block n) eqn:B.
      + rewrite dict_keys_set_In. split.
        * intros [[->|H]|(n' & I & Bn & E)]; eauto 7.
        * intros [H|(n' & [->|I] & Bn & E)]; eauto 7.
      + split.
        * intros [H|(n' & I & Bn & E)]; eauto 7.
        * intros [H|(n' & [->|I] & Bn & E)]; [auto|congruence|eauto 7]. }
  rewrite G. simpl. split; [intros [[]|H]; exact H|auto].
Qed.

(** X5.  A response of status complete has one metrics entry for every block of
    the graph and no other, in the order in which the ids first appear among
    the nodes, on both paths. *)
Theorem one_metrics_entry_per_block
        (SIMPY_OK : bool) (fuel : nat) (draw : nat -> Q) (payload : Payload)
        (r : Response) :
  process SIMPY_OK fuel draw payload = Some (Returned r) -> status r = complete ->
  dict_keys (metrics r) = block_ids (project_or_empty (project_json payload))
  /\ NoDup (dict_keys (metrics r))
  /\ forall b, In b (dict_keys (metrics r)) <->
               exists n, In n (nodes (project_or_empty (project_json payload)))
                         /\ is_block n = true /\ node_id n = b.
Proof.
  intros P St.
  assert (K : dict_keys (metrics r)
              = block_ids (project_or_empty (project_json payload))).
  { unfold process in P. destruct SIMPY_OK.
    - destruct (run_with_simpy _ _ _ _ _) as [[r'|e]|] eqn:R; try discriminate.
      + injection P as <-. apply run_with_simpy_sound in R.
        destruct R as (s & -> & _ & _ & (K1 & K2 & _) & _). simpl.
        rewrite collect_metrics_keys; [reflexivity| |apply NoDup_block_ids].
        intros b I. fold (block_ids (project_or_empty (project_json payload))) in I.
        split; apply dict_get_keys; [rewrite K2|rewrite K1]; exact I.
      + destruct (is_Exception e); [|discriminate].
        injection P as <-. discriminate.
    - injection P as <-. simpl. apply loop_keys. reflexivity. }
  rewrite K. split; [reflexivity|]. split; [apply NoDup_block_ids|].
  apply block_ids_In.
Qed.

(** X5 at work: the chain of "A" and "B". *)
Lemma one_metrics_entry_per_block_witness :
  exists r,
    process true 100 Sample.half
      (request Sample.chain Sample.chain_sc []) = Some (Returned r)
    /\ dict_keys (metrics r) = ["A"; "B"]%string.
Proof.
  exists_some (process true 100 Sample.half (request Sample.chain Sample.chain_sc [])).
  split; [vm_compute; reflexivity|].
  apply (one_metrics_entry_per_block true 100 Sample.half
           (request Sample.chain Sample.chain_sc []));
    [vm_compute; reflexivity|reflexivity].
Defined.

(* ------------------------------------------------------------------ *)
(** ** Requests that SimPy refuses *)

Lemma make_stores_refuses (bhs : dict Behavior) (ids : list string) (acc : dict Store)
      (b : string) :
  In b ids -> (capacity_of bhs b <= 0)%Z ->
  make_stores bhs ids acc = inr CapacityNotPositive.
Proof.
  revert acc. induction ids as [|k ids IH]; intros acc I C; simpl; [destruct I|].
  destruct (capacity_of bhs k <=? 0)%Z eqn:E; [reflexivity|].
  destruct I as [->|I]; [apply Z.leb_gt in E; lia|apply IH; assumption].
Qed.

(** X6.  A block whose [int(queue_capacity or 100)] is zero or negative makes
    [simpy.Store] raise before anything runs: the answer is the error
    response, whatever the scenario. *)
Theorem capacity_not_positive_is_refused
        (fuel : nat) (draw : nat -> Q) (pj : Project) (sc : Scenario)
        (bhs : dict Behavior) (b : string) :
  In b (block_ids pj) -> (capacity_of bhs b <= 0)%Z ->
  process true fuel draw (request pj sc bhs)
  = Some (Returned (error_response CapacityNotPositive)).
Proof.
  intros I C. unfold process, run_with_simpy. simpl.
  fold (block_ids pj). rewrite (make_stores_refuses bhs _ [] b I C). reflexivity.
Qed.

(** X6 at work: a queue_capacity of one half. *)
Lemma capacity_not_positive_is_refused_witness :
  process true 0 Sample.half
    (request Sample.one_block Sample.plain_sc Sample.half_cap_bhs)
  = Some (Returned (error_response CapacityNotPositive)).
Proof.
  apply (capacity_not_positive_is_refused 0 Sample.half Sample.one_block
           Sample.plain_sc Sample.half_cap_bhs "A").
  - left. reflexivity.
  - vm_compute. discriminate.
Defined.

(** X7.  A negative [duration_ms], with Stores that can be built: [env.run]
    raises at once, and the answer is the error response. *)
Theorem negative_duration_is_refused
        (fuel : nat) (draw : nat -> Q) (pj : Project) (sc : Scenario)
        (bhs : dict Behavior) :
  duration_of sc <= 0 ->
  (forall b, In b (block_ids pj) -> (0 < capacity_of bhs b)%Z) ->
  process true fuel draw (request pj sc bhs)
  = Some (Returned (error_response (UntilNotAfterNow (duration_of sc)))).
Proof.
  intros D C. unfold process, run_with_simpy. simpl.
  destruct (make_stores_succeeds bhs (block_ids pj) [] C) as [stores M].
  unfold block_ids in M. rewrite M. unfold env_run, initial. rewrite now_launch. simpl.
  assert (L : Py.leb (duration_of sc) 0 = true) by (apply leb_le; exact D).
  rewrite L. reflexivity.
Qed.

(** X7 at work: a duration of -5 ms. *)
Lemma negative_duration_is_refused_witness :
  process true 0 Sample.half (request Sample.one_block Sample.negative_sc [])
  = Some (Returned (error_response (UntilNotAfterNow (-5)))).
Proof.
  apply (negative_duration_is_refused 0 Sample.half Sample.one_block
           Sample.negative_sc []).
  - vm_compute. discriminate.
  - intros b [<-|[]]. reflexivity.
Defined.

(* ------------------------------------------------------------------ *)
(** ** What [process] makes of an exception *)



(** X9.  Blocks without scripts, none with a negative processing time, Stores
    that can be built and a duration ahead: the run meets no exception at
    any step, and what [process] returns is of status complete. *)
Theorem parametric_run_never_fails
        (fuel : nat) (draw : nat -> Q) (pj : Project) (sc : Scenario)
        (bhs : dict Behavior) (o : Outcome) :
  0 < duration_of sc ->
  (forall b, In b (block_ids pj) ->
             (0 < capacity_of bhs b)%Z
             /\ sim_script (behavior_of bhs b) = None
             /\ 0 <= ptime_of bhs b) ->
  process true fuel draw (request pj sc bhs) = Some o ->
  exists r, o = Returned r /\ status r = complete /\ errors r = [].
Proof.
  intros D H. unfold process. simpl.
  destruct (run_with_simpy fuel draw pj sc bhs) as [[r|e]|] eqn:R; try discriminate.
  - intro E. injection E as <-. exists r.
    apply run_with_simpy_inl in R. destruct R as (_ & s & _ & _ & ->). auto.
  - exfalso. apply run_raised_cause in R. destruct e; simpl in R.
    + destruct R as (Neg & b & I & [->|(script & it & t & f & Sc & _)]).
      * destruct (H b I) as (_ & _ & P). lra.
      * destruct (H b I) as (_ & N & _). congruence.
    + destruct R as [-> Le]. lra.
    + destruct R as (b & I & Le). destruct (H b I) as (C & _). lia.
    + exact R.
    + destruct R as (b & script & it & t & I & Sc & _).
      destruct (H b I) as (_ & N & _). congruence.
Qed.

(** X9 at work: the chain with default parameters. *)
Lemma parametric_run_never_fails_witness :
  exists r,
    process true 100 Sample.half (request Sample.chain Sample.chain_sc [])
    = Some (Returned r)
    /\ status r = complete /\ errors r = [].
Proof.
  exists_some (process true 100 Sample.half (request Sample.chain Sample.chain_sc [])).
  split; [vm_compute; reflexivity|].
  match goal with
  | |- status ?r = _ /\ _ =>
      destruct (parametric_run_never_fails 100 Sample.half Sample.chain
                  Sample.chain_sc [] (Returned r)) as (r' & E & St & Er)
  end.
  - reflexivity.
  - intros b [<-|[<-|[]]]; (split; [reflexivity|split; [reflexivity|]]);
      vm_compute; discriminate.
  - vm_compute. reflexivity.
  - injection E as <-. auto.
Defined.

(* ------------------------------------------------------------------ *)
(** ** A run without stimuli *)

Lemma round4_zero (q : Q) : q == 0 -> Py.round4 q == 0.
Proof.
  intro E.
  assert (A : (Py.round_half_even (q * 10000) <= 0)%Z)
    by (apply round_half_even_le; rewrite E; discriminate).
  assert (B : (0 <= Py.round_half_even (q * 10000))%Z)
    by (apply round_half_even_ge; rewrite E; discriminate).
  unfold Py.round4. replace (Py.round_half_even (q * 10000)) with 0%Z by lia.
  reflexivity.
Qed.

Lemma length_heappush (x : Scheduled) (q : list Scheduled) :
  List.length (heappush x q) = S (List.length q).
Proof.
  induction q as [|y q IH]; simpl; [reflexivity|].
  destruct (key_lt x y); simpl; [reflexivity|]. rewrite IH. reflexivity.
Qed.

Lemma idle_block_start (b : string) (s : Sim) :
  idle s -> idle (block_start b s) /\ queue (block_start b s) = queue s.
Proof.
  intros (Hq & Hs & Hc & Ht). unfold block_start.
  destruct (dict_get b (frames s)) as [fr|]; [|repeat split; assumption].
  destruct (at_yield fr); try (repeat split; assumption).
  unfold store_get. cbn [block_stores set_frame set_frames].
  destruct (dict_get b (block_stores s)) as [st|] eqn:G; [|repeat split; assumption].
  rewrite (Hs b st G). simpl. split; [|reflexivity].
  split; [exact Hq|]. split; [|split; assumption].
  intros k st'. cbn [block_stores set_stores]. rewrite dict_get_update.
  destruct (String.eqb k b); [|apply Hs].
  destruct (dict_get k (block_stores s)) as [st0|] eqn:G0; simpl; [|discriminate].
  intro E. injection E as <-. simpl. apply (Hs k st0 G0).
Qed.

Lemma idle_run (es : list Edge) (bhs : dict Behavior) (draw : nat -> Q)
      (n : nat) (s : Sim) :
  idle s -> (exists u, In u (queue s) /\ s_event u = Until) ->
  (List.length (queue s) <= n)%nat ->
  exists s', run_steps es bhs draw n s = Some (inl s') /\ idle s'.
Proof.
  revert s. induction n as [|n IH]; intros s Id (u & Iu & Eu) Len.
  - destruct (queue s); [destruct Iu|simpl in Len; lia].
  - simpl. unfold step. destruct (queue s) as [|x q] eqn:Q; [destruct Iu|].
    assert (Idp : idle (set_now (s_time x) (set_queue q s))).
    { destruct Id as (Hq & Hs & Hc & Ht). rewrite Q in Hq.
      inversion Hq; subst. repeat split; assumption. }
    destruct Id as (Hq & _). rewrite Q in Hq. inversion Hq as [|? ? Hx _]; subst.
    destruct Hx as [Ex|[b Ex]]; rewrite Ex; simpl.
    + eauto.
    + destruct (idle_block_start b _ Idp) as [Id' Q']. simpl in Q'.
      apply IH; [exact Id'| |rewrite Q'; simpl in Len; lia].
      exists u. rewrite Q'. split; [|exact Eu].
      destruct Iu as [<-|Iu]; [congruence|exact Iu].
Qed.

Lemma make_stores_empty (bhs : dict Behavior) (ids : list string) (acc stores : dict Store) :
  make_stores bhs ids acc = inl stores ->
  (forall b st, dict_get b acc = Some st -> items st = []) ->
  forall b st, dict_get b stores = Some st -> items st = [].
Proof.
  revert acc. induction ids as [|k ids IH]; intros acc; simpl.
  - intro E. injection E as <-. auto.
  - destruct (capacity_of bhs k <=? 0)%Z; [discriminate|].
    intros E H. apply (IH _ E). intros b st. rewrite dict_get_set.
    destruct (String.eqb b k); [|apply H]. intro E'. injection E' as <-. reflexivity.
Qed.

Lemma idle_launch (ids : list string) (s : Sim) :
  idle s ->
  idle (launch ids [] s)
  /\ List.length (queue (launch ids [] s)) = (List.length (queue s) + List.length ids)%nat.
Proof.
  unfold launch. revert s. induction ids as [|b ids IH]; intros s Id; simpl.
  - split; [exact Id|lia].
  - destruct (IH (schedule 0 (Initialize (BlockProc b)) s)) as [A B].
    + destruct Id as (Hq & Hs & Hc & Ht). split; [|repeat split; assumption].
      simpl. apply Forall_heappush; [right; eexists; reflexivity|exact Hq].
    + split; [exact A|]. rewrite B. simpl. rewrite length_heappush. lia.
Qed.

(** X10.  A scenario without events, a duration ahead and Stores that can be built:
    after one step per block and one for the stop event the run is over;
    the timeline is empty and every block reports no item, an empty queue
    and utilization 0, whatever its parameters. *)
Theorem no_stimulus_no_work
        (fuel : nat) (draw : nat -> Q) (pj : Project) (sc : Scenario)
        (bhs : dict Behavior) :
  events sc = [] -> 0 < duration_of sc ->
  (forall b, In b (block_ids pj) -> (0 < capacity_of bhs b)%Z) ->
  (List.length (block_ids pj) < fuel)%nat ->
  exists r,
    process true fuel draw (request pj sc bhs) = Some (Returned r)
    /\ status r = complete /\ errors r = [] /\ timeline r = []
    /\ forall b m, In (b, m) (metrics r) ->
         processed_count m = 0%Z /\ failures m = 0%Z /\ queue_depth m = 0%Z
         /\ utilization m == 0.
Proof.
  intros Ev D C Fu.
  destruct (make_stores_succeeds bhs (block_ids pj) [] C) as [stores M].
  assert (L : Py.leb (duration_of sc) 0 = false).
  { destruct (Py.leb (duration_of sc) 0) eqn:E; [|reflexivity].
    apply leb_le in E. lra. }
  set (i0 := {| now := 0; queue := []; next_eid := 0; block_stores := stores;
                block_counters := map (fun b => (b, zero_counters)) (block_ids pj);
                frames := map (fun b => (b, {| item_seq := 0; at_yield := AtStart |}))
                              (block_ids pj);
                pending := []; sim_timeline := []; draws := 0 |}).
  assert (Id0 : idle i0).
  { split; [constructor|]. split; [|split; [|reflexivity]].
    - apply (make_stores_empty _ _ _ _ M). intros b st. discriminate.
    - intros b c G. simpl in G. apply dict_get_map_const in G. exact G. }
  destruct (idle_launch (dict_keys stores) i0 Id0) as [Id1 Len].
  assert (K : dict_keys stores = block_ids pj).
  { apply (make_stores_keys _ _ _ _ M). apply NoDup_block_ids. }
  set (s0 := schedule (duration_of sc - now (launch (dict_keys stores) [] i0)) Until
               (launch (dict_keys stores) [] i0)).
  assert (L0 : loop_start pj sc bhs = Some s0).
  { unfold loop_start. fold (block_ids pj). rewrite M. unfold initial.
    rewrite Ev, now_launch. cbn [now]. rewrite L.
    unfold s0. rewrite now_launch. reflexivity. }
  assert (Id : idle s0).
  { destruct Id1 as (Hq & Hs & Hc & Ht). split; [|repeat split; assumption].
    simpl. apply Forall_heappush; [left; reflexivity|exact Hq]. }
  destruct (idle_run (edges pj) bhs draw fuel s0 Id) as (s' & R & Hq & Hs & Hc & Ht).
  { eexists. split; [apply In_heappush; left; reflexivity|reflexivity]. }
  { unfold s0. cbn [queue schedule]. rewrite length_heappush, Len, K.
    cbn [queue i0 List.length]. lia. }
  exists (response_of pj sc s').
  split.
  { unfold process. simpl.
    rewrite (run_with_simpy_of_steps fuel draw pj sc bhs s0 s' L0 R). reflexivity. }
  split; [reflexivity|]. split; [reflexivity|]. split; [exact Ht|].
  intros b m I. simpl in I. apply collect_metrics_In in I.
  destruct I as [(c & st & G1 & G2 & ->)|[]].
  rewrite (Hc b c G1). unfold block_metrics. simpl. rewrite (Hs b st G2).
  repeat (split; [reflexivity|]).
  apply round4_zero.
  assert (P : Py.ltb 0 (duration_of sc) = true) by (apply ltb_lt; exact D).
  rewrite P. unfold Py.min.
  assert (N : Py.ltb 1 (0 / duration_of sc) = false).
  { apply ltb_ge. unfold Qdiv. rewrite Qmult_0_l. discriminate. }
  rewrite N. unfold Qdiv. apply Qmult_0_l.
Qed.

(** X10 at work: the chain without events, in three steps. *)
Lemma no_stimulus_no_work_witness :
  exists r,
    process true 3 Sample.half (request Sample.chain Sample.plain_sc [])
    = Some (Returned r)
    /\ status r = complete /\ timeline r = [].
Proof.
  destruct (no_stimulus_no_work 3 Sample.half Sample.chain Sample.plain_sc [])
    as (r & P & St & _ & Tl & _).
  - reflexivity.
  - reflexivity.
  - intros b [<-|[<-|[]]]; reflexivity.
  - vm_compute. lia.
  - exists r. auto.
Defined.

(* ------------------------------------------------------------------ *)
(** ** A block whose draws all fall on one side of its failure rate *)

Section Verdict.
Variables (es : list Edge) (bhs : dict Behavior) (draw : nat -> Q).
Variables (v : bool) (b : string).
Hypothesis no_script : sim_script (behavior_of bhs b) = None.
Hypothesis one_side : forall n, Py.ltb (draw n) (frate_of bhs b) = v.

Lemma verdict_same (s s' : Sim) :
  frames s' = frames s -> block_counters s' = block_counters s ->
  verdict_kept v b s -> verdict_kept v b s'.
Proof. unfold verdict_kept. intros -> ->. auto. Qed.

Lemma verdict_backstage (s s' : Sim) :
  backstage s s' -> verdict_kept v b s -> verdict_kept v b s'.
Proof. intros (_ & C & F & _). apply verdict_same; assumption. Qed.

Lemma verdict_set_frame (k : string) (fr : Frame) (s : Sim) :
  (forall start f, at_yield fr = AtTimeout start f -> k = b -> f = v) ->
  verdict_kept v b s -> verdict_kept v b (set_frame k fr s).
Proof.
  intros H [Vf Vc]. split; [|exact Vc].
  intros fr' start f. simpl. rewrite dict_get_update.
  destruct (String.eqb_spec b k) as [->|N]; [|apply Vf].
  destruct (dict_get k (frames s)); simpl; [|discriminate].
  intro E. injection E as <-. intro A. apply (H start f A eq_refl).
Qed.

Lemma block_start_verdict (k : string) (s : Sim) :
  verdict_kept v b s -> verdict_kept v b (block_start k s).
Proof.
  intro V. unfold block_start. destruct (dict_get k (frames s)) as [fr|]; [|exact V].
  destruct (at_yield fr); try exact V.
  eapply verdict_backstage; [apply store_get_backstage|].
  apply verdict_set_frame; [discriminate|exact V].
Qed.

Lemma block_take_verdict (k : string) (it : Item) (s : Sim) :
  verdict_kept v b s -> verdict_kept v b (block_take bhs draw k it s).
Proof.
  intro V. unfold block_take. destruct (dict_get k (frames s)) as [fr|]; [|exact V].
  destruct (at_yield fr); try exact V.
  pose proof (policy_backstage bhs draw k it s) as B.
  destruct (policy bhs draw k it s) as [[failed pt|] s1] eqn:Pol; simpl in B;
    [destruct (Py.ltb pt 0)|];
    (eapply verdict_backstage; [apply schedule_backstage|]);
    (apply verdict_set_frame; [|eapply verdict_backstage; [exact B|exact V]]);
    try discriminate.
  simpl. intros start f E ->. injection E as _ <-.
  unfold policy in Pol. rewrite no_script in Pol. injection Pol as <- _ _.
  apply one_side.
Qed.

Lemma block_done_verdict (k : string) (s : Sim) :
  verdict_kept v b s -> verdict_kept v b (block_done es k s).
Proof.
  intro V.
  destruct (dict_get k (frames s)) as [fr|] eqn:G;
    [|unfold block_done; rewrite G; exact V].
  destruct (at_yield fr) as [| |start failed|] eqn:A;
    try (unfold block_done; rewrite G, A; exact V).
  destruct (block_done_parts es k s fr start failed G A) as (_ & _ & P3 & P4).
  destruct V as [Vf Vc]. split.
  - intros fr' st f. rewrite P4, dict_get_update.
    destruct (String.eqb_spec b k) as [->|N]; [|apply Vf].
    rewrite G. simpl. intro E. injection E as <-. discriminate.
  - intro c. rewrite P3, !dict_get_update.
    destruct (String.eqb_spec b k) as [->|N]; [|apply Vc].
    destruct (dict_get k (block_counters s)) as [c0|] eqn:C; simpl; [|discriminate].
    intro E. injection E as <-.
    rewrite (Vf fr start failed G A). specialize (Vc c0 eq_refl).
    destruct v; simpl; exact Vc.
Qed.

Lemma deliver_verdict (ev : StimulusEvent) (s : Sim) :
  verdict_kept v b s -> verdict_kept v b (deliver ev s).
Proof.
  intro V. destruct (deliver_cases ev s) as [->|(t & st & _ & _ & _ & ->)]; [exact V|].
  destruct (store_put_backstage t (stimulus_item ev) s) as (_ & C & F & _).
  eapply verdict_same; [| |exact V]; simpl; assumption.
Qed.

Lemma fire_verdict (e : Event) (s s' : Sim) :
  verdict_kept v b s ->
  fire es bhs draw e s = Running s' \/ fire es bhs draw e s = Stopped s' ->
  verdict_kept v b s'.
Proof.
  intros V [E|E]; destruct e as [[k|]|[k|]|k|k it|p [exc|]|]; simpl in E;
    try discriminate; injection E as <-.
  - apply block_start_verdict; exact V.
  - eapply verdict_backstage; [apply injector_wait_backstage|exact V].
  - apply block_done_verdict; exact V.
  - unfold injector_fire. destruct (pending s) as [|ev rest]; [exact V|].
    eapply verdict_backstage; [apply injector_wait_backstage|].
    eapply verdict_same; [| |apply (deliver_verdict ev s V)]; reflexivity.
  - eapply verdict_backstage; [apply trigger_get_backstage|exact V].
  - apply block_take_verdict; exact V.
  - exact V.
  - exact V.
Qed.

Lemma step_verdict (s s' : Sim) :
  verdict_kept v b s ->
  step es bhs draw s = Running s' \/ step es bhs draw s = Stopped s' ->
  verdict_kept v b s'.
Proof.
  unfold step. intros V E.
  destruct (queue s) as [|x q]; [destruct E; discriminate|].
  eapply fire_verdict; [|exact E]. exact V.
Qed.

End Verdict.

Lemma loop_start_verdict (pj : Project) (sc : Scenario) (bhs : dict Behavior)
      (s0 : Sim) (v : bool) (b : string) :
  loop_start pj sc bhs = Some s0 -> verdict_kept v b s0.
Proof.
  intro L. destruct (loop_start_sound _ _ _ _ L) as (_ & Bk & _).
  destruct Bk as (_ & _ & Co & Nu & _). split.
  - intros fr start f G A. exfalso.
    revert L G A. unfold loop_start.
    destruct (make_stores bhs _ []) as [stores|e]; [|discriminate].
    destruct (Py.leb _ _); [discriminate|].
    intro E. injection E as <-. cbn [frames schedule]. unfold initial.
    rewrite frames_launch. cbn [frames]. intros G A.
    apply dict_get_map_const in G. subst fr. discriminate.
  - intros c G. revert L G. unfold loop_start.
    destruct (make_stores bhs _ []) as [stores|e]; [|discriminate].
    destruct (Py.leb _ _); [discriminate|].
    intro E. injection E as <-.
    match goal with
    | |- context [schedule ?d Until (initial ?i ?st ?ev)] =>
        destruct (schedule_backstage d Until (initial i st ev)) as (_ & C1 & _)
    end.
    rewrite C1. unfold initial.
    match goal with
    | |- context [launch ?i ?ev ?s] =>
        destruct (launch_backstage i ev s) as (_ & C2 & _)
    end.
    rewrite C2. cbn [block_counters]. intro G.
    apply dict_get_map_const in G. subst c. destruct v; reflexivity.
Qed.

(** X11.  A block without a script, with draws as [random.random()] gives them,
    from 0 up to but not 1.  With a failure rate of 0 or less, the default
    included, none of its items fails; with a failure rate of 1 or more all
    of them fail, and it reports no item as processed. *)
Theorem failure_rate_at_the_ends
        (fuel : nat) (draw : nat -> Q) (pj : Project) (sc : Scenario)
        (bhs : dict Behavior) (r : Response) (b : string) (m : BlockMetrics) :
  (forall n, 0 <= draw n /\ draw n < 1) ->
  sim_script (behavior_of bhs b) = None ->
  run_with_simpy fuel draw pj sc bhs = Some (inl r) -> In (b, m) (metrics r) ->
  (frate_of bhs b <= 0 ->
   failures m = 0%Z /\ count_entries failure_ev b (timeline r) = 0%Z)
  /\ (1 <= frate_of bhs b ->
      processed_count m = 0%Z /\ count_entries processed_ev b (timeline r) = 0%Z).
Proof.
  intros Dr Ns R I.
  destruct (counts_entries_of_metrics fuel draw pj sc bhs r b m R I) as [Cp Cf].
  apply run_with_simpy_inl in R. destruct R as (s0 & s & L & R & ->).
  simpl in I. apply collect_metrics_In in I. destruct I as [(c & st & C & _ & ->)|[]].
  simpl in *.
  assert (V : forall v, (forall n, Py.ltb (draw n) (frate_of bhs b) = v) ->
                        verdict_kept v b s).
  { intros v One. revert R.
    apply (run_steps_keeps (edges pj) bhs draw (verdict_kept v b)).
    - intros s1 s2. apply step_verdict; assumption.
    - apply (loop_start_verdict _ _ _ _ _ _ L). }
  split; intro F.
  - assert (One : forall n, Py.ltb (draw n) (frate_of bhs b) = false).
    { intro n. apply ltb_ge. destruct (Dr n). lra. }
    destruct (V false One) as [_ Vc]. specialize (Vc c C). simpl in Vc.
    split; [exact Vc|]. rewrite <- Cf. exact Vc.
  - assert (One : forall n, Py.ltb (draw n) (frate_of bhs b) = true).
    { intro n. apply ltb_lt. destruct (Dr n). lra. }
    destruct (V true One) as [_ Vc]. specialize (Vc c C). simpl in Vc.
    split; [exact Vc|]. rewrite <- Cp. exact Vc.
Qed.

(** X11 at work: block "A" of the chain, with the default failure rate. *)
Lemma failure_rate_at_the_ends_witness :
  exists r m,
    run_with_simpy 100 Sample.half Sample.chain Sample.chain_sc [] = Some (inl r)
    /\ In ("A"%string, m) (metrics r)
    /\ failures m = 0%Z.
Proof.
  exists_some (run_with_simpy 100 Sample.half Sample.chain Sample.chain_sc []).
  eexists. split; [vm_compute; reflexivity|]. split; [left; reflexivity|].
  match goal with
  | |- failures ?m = _ =>
      destruct (failure_rate_at_the_ends 100 Sample.half Sample.chain Sample.chain_sc []
                  ltac:(let v := eval vm_compute in
                          (run_with_simpy 100 Sample.half Sample.chain
                             Sample.chain_sc []) in
                        match v with Some (inl ?r) => exact r end)
                  "A" m) as [Lo _]
  end.
  - intro n. split; [discriminate|reflexivity].
  - reflexivity.
  - vm_compute. reflexivity.
  - left. reflexivity.
  - apply Lo. vm_compute. discriminate.
Defined.

(* ------------------------------------------------------------------ *)
(** ** Forwarding over the edges *)

Lemma try_put_stores (t' t : string) (it : Item) (s : Sim) (st : Store) :
  dict_get t (block_stores s) = Some st ->
  dict_get t (block_stores (fst (try_put t' it s)))
  = Some (if String.eqb t t' && has_room st
          then {| items := items st ++ [it]; capacity := capacity st;
                  get_waiting := get_waiting st |}
          else st).
Proof.
  intro G. unfold try_put.
  destruct (String.eqb_spec t t') as [<-|N]; simpl.
  - rewrite G. destruct (has_room st); simpl; [|exact G].
    rewrite dict_get_update, String.eqb_refl, G. reflexivity.
  - destruct (dict_get t' (block_stores s)) as [st'|]; [|exact G].
    destruct (has_room st'); simpl; [|exact G].
    rewrite dict_get_update. destruct (String.eqb_spec t t'); [contradiction|exact G].
Qed.

(** X12.  After an item of [b] is processed, the Store of every block [t] gets one
    copy of the item number per "connects" edge from [b] to [t], as far as
    it has room; the copies beyond are dropped, no put waits, and Stores that
    no edge leads to stay as they are. *)
Theorem forward_fans_out (b : string) (seq : nat) (es : list Edge) (s : Sim)
        (t : string) (st : Store) :
  dict_get t (block_stores s) = Some st ->
  dict_get t (block_stores (forward b seq es s))
  = Some {| items := items st
                     ++ repeat (SeqItem seq)
                          (Z.to_nat (Z.min (Z.of_nat (fan_out b t es)) (room st)));
            capacity := capacity st;
            get_waiting := get_waiting st |}.
Proof.
  revert s st. induction es as [|e es IH]; intros s st G.
  - assert (Z0 : Z.to_nat (Z.min (Z.of_nat (fan_out b t [])) (room st)) = O)
      by (unfold fan_out; cbn [filter List.length]; lia).
    rewrite Z0. cbn [forward repeat]. rewrite app_nil_r, G. destruct st; reflexivity.
  - assert (Fan : fan_out b t (e :: es)
                 = match forwards_to b e with
                   | Some t' => if String.eqb t' t then S (fan_out b t es)
                                else fan_out b t es
                   | None => fan_out b t es
                   end).
    { unfold fan_out. cbn [filter]. destruct (forwards_to b e) as [t'|]; [|reflexivity].
      destruct (String.eqb t' t); reflexivity. }
    rewrite Fan. cbn [forward].
    destruct (forwards_to b e) as [t'|]; [|apply IH; exact G].
    rewrite (IH _ _ (try_put_stores t' t (SeqItem seq) s st G)).
    rewrite (String.eqb_sym t' t).
    destruct (String.eqb t t'); cbn [andb]; [|reflexivity].
    unfold has_room, room.
    destruct (Z.ltb_spec (Z.of_nat (List.length (items st))) (capacity st)) as [L|L];
      cbn [items capacity get_waiting].
    + rewrite length_app. cbn [List.length].
      replace (Z.to_nat (Z.min (Z.of_nat (S (fan_out b t es)))
                           (capacity st - Z.of_nat (List.length (items st)))))
        with (S (Z.to_nat (Z.min (Z.of_nat (fan_out b t es))
                             (capacity st
                              - Z.of_nat (List.length (items st) + 1))))) by lia.
      cbn [repeat]. rewrite <- app_assoc. reflexivity.
    + replace (Z.to_nat (Z.min (Z.of_nat (S (fan_out b t es)))
                           (capacity st - Z.of_nat (List.length (items st)))))
        with (Z.to_nat (Z.min (Z.of_nat (fan_out b t es))
                          (capacity st - Z.of_nat (List.length (items st))))) by lia.
      reflexivity.
Qed.

(** X12 at work: three edges to "B", whose Store has two places, and one to "C". *)
Lemma forward_fans_out_witness :
  exists s,
    observe 0 Sample.half Sample.fan Sample.plain_sc Sample.fan_bhs = Some s
    /\ dict_get "B" (block_stores (forward "A" 7 (edges Sample.fan) s))
       = Some {| items := [SeqItem 7; SeqItem 7]; capacity := 2; get_waiting := false |}
    /\ dict_get "C" (block_stores (forward "A" 7 (edges Sample.fan) s))
       = Some {| items := [SeqItem 7]; capacity := 100; get_waiting := false |}.
Proof.
  exists_some (observe 0 Sample.half Sample.fan Sample.plain_sc Sample.fan_bhs).
  split; [vm_compute; reflexivity|].
  split.
  - match goal with
    | |- dict_get _ (block_stores (forward _ _ _ ?s)) = _ =>
        exact (forward_fans_out "A" 7 (edges Sample.fan) s "B"
                 {| items := []; capacity := 2; get_waiting := false |}
                 ltac:(vm_compute; reflexivity))
    end.
  - match goal with
    | |- dict_get _ (block_stores (forward _ _ _ ?s)) = _ =>
        exact (forward_fans_out "A" 7 (edges Sample.fan) s "C"
                 {| items := []; capacity := 100; get_waiting := false |}
                 ltac:(vm_compute; reflexivity))
    end.
Defined.

(* ------------------------------------------------------------------ *)
(** ** The order in which the injector takes the events *)

Lemma insert_event_perm (ev : StimulusEvent) (l : list StimulusEvent) :
  Permutation (insert_event ev l) (ev :: l).
Proof.
  induction l as [|x l IH]; simpl; [reflexivity|].
  destruct (Py.ltb (ev_time ev) (ev_time x)); [reflexivity|].
  rewrite IH. apply perm_swap.
Qed.

Lemma insert_event_sorted (ev : StimulusEvent) (l : list StimulusEvent) :
  StronglySorted by_time l -> StronglySorted by_time (insert_event ev l).
Proof.
  induction 1 as [|x l Hs IH Hx]; simpl.
  - constructor; constructor.
  - destruct (Py.ltb (ev_time ev) (ev_time x)) eqn:E.
    + apply ltb_lt in E. constructor; [constructor; assumption|].
      constructor; [apply Qlt_le_weak; exact E|].
      eapply Forall_impl; [|exact Hx]. unfold by_time. intros y Hy. lra.
    + apply ltb_ge in E. constructor; [exact IH|].
      apply (Permutation_Forall (Permutation_sym (insert_event_perm ev l))).
      constructor; [exact E|exact Hx].
Qed.

Lemma insert_event_at_time (t : Q) (ev : StimulusEvent) (l : list StimulusEvent) :
  StronglySorted by_time l ->
  filter (at_time t) (insert_event ev l)
  = filter (at_time t) l ++ (if at_time t ev then [ev] else []).
Proof.
  induction 1 as [|x l Hs IH Hx]; simpl.
  - destruct (at_time t ev); reflexivity.
  - destruct (Py.ltb (ev_time ev) (ev_time x)) eqn:E.
    + cbn [filter]. destruct (at_time t ev) eqn:A; [|rewrite app_nil_r; reflexivity].
      apply ltb_lt in E. unfold at_time in A. apply Qeq_bool_eq in A.
      assert (N : forall y, In y (x :: l) -> at_time t y = false).
      { intros y [<-|I]; unfold at_time.
        - destruct (Qeq_bool (ev_time x) t) eqn:B; [|reflexivity].
          apply Qeq_bool_eq in B. lra.
        - rewrite Forall_forall in Hx. specialize (Hx y I). unfold by_time in Hx.
          destruct (Qeq_bool (ev_time y) t) eqn:B; [|reflexivity].
          apply Qeq_bool_eq in B. lra. }
      assert (F : filter (at_time t) (x :: l) = []).
      { clear -N. induction (x :: l) as [|y l' IH']; [reflexivity|].
        simpl. rewrite (N y (or_introl eq_refl)). apply IH'.
        intros z I. apply N. right. exact I. }
      cbn [filter] in F. rewrite F. reflexivity.
    + cbn [filter]. rewrite IH. destruct (at_time t x); reflexivity.
Qed.

Lemma fold_insert_event (l acc : list StimulusEvent) :
  StronglySorted by_time acc ->
  Permutation (fold_left (fun acc ev => insert_event ev acc) l acc) (acc ++ l)
  /\ StronglySorted by_time (fold_left (fun acc ev => insert_event ev acc) l acc)
  /\ forall t, filter (at_time t) (fold_left (fun acc ev => insert_event ev acc) l acc)
               = filter (at_time t) acc ++ filter (at_time t) l.
Proof.
  revert acc. induction l as [|ev l IH]; intros acc S; simpl.
  - rewrite app_nil_r. split; [reflexivity|]. split; [exact S|].
    intro t. rewrite app_nil_r. reflexivity.
  - destruct (IH _ (insert_event_sorted ev acc S)) as (P & So & St).
    split; [|split; [exact So|]].
    + rewrite P, insert_event_perm. apply Permutation_middle.
    + intro t. rewrite St, insert_event_at_time by exact S.
      rewrite <- app_assoc. destruct (at_time t ev); reflexivity.
Qed.

(** X13.  The injector takes the events of the scenario, each once, in the order of
    their [time_ms], a missing or zero [time_ms] counting as 0; events of
    one time stay in the order of the request. *)
Theorem sorted_events_is_a_stable_sort (l : list StimulusEvent) :
  Permutation (sorted_events l) l
  /\ StronglySorted by_time (sorted_events l)
  /\ forall t, filter (at_time t) (sorted_events l) = filter (at_time t) l.
Proof.
  unfold sorted_events.
  destruct (fold_insert_event l [] (SSorted_nil _)) as (P & S & T).
  split; [exact P|]. split; [exact S|exact T].
Qed.

(* ------------------------------------------------------------------ *)
(** ** The counts of the closed-form path *)

(** X14.  On the closed-form path, with no negative duration or throughput and a
    failure rate from 0 to 1, the failures of a block are within its
    processed items, and processed_count and failures add up to them. *)
Theorem deterministic_counts_add_up
        (pj : Project) (sc : Scenario) (bhs : dict Behavior)
        (b : string) (m : BlockMetrics) :
  0 <= duration_of sc ->
  (forall tp, throughput_per_sec (params_of (behavior_of bhs b)) = Some tp -> 0 <= tp) ->
  0 <= Py.num_or (failure_rate (params_of (behavior_of bhs b))) 0 ->
  Py.num_or (failure_rate (params_of (behavior_of bhs b))) 0 <= 1 ->
  In (b, m) (metrics (Deterministic.run_deterministic pj sc bhs)) ->
  (0 <= failures m
   <= Deterministic.processed_of (duration_of sc) (params_of (behavior_of bhs b)))%Z
  /\ (processed_count m + failures m
      = Deterministic.processed_of (duration_of sc) (params_of (behavior_of bhs b)))%Z.
Proof.
  intros D Tp R0 R1 I. simpl in I. apply loop_In in I. destruct I as [->|[]].
  set (p := params_of (behavior_of bhs b)) in *.
  pose proof (processed_nonneg (duration_of sc) p D Tp) as P0.
  unfold Deterministic.block_metrics. simpl.
  set (P := Deterministic.processed_of (duration_of sc) p) in *.
  set (rate := Py.num_or (failure_rate p) 0) in *.
  assert (Q0 : 0 <= inject_Z P * rate).
  { apply Qmult_le_0_compat; [|exact R0].
    change 0 with (inject_Z 0). rewrite <- Zle_Qle. exact P0. }
  assert (Q1 : inject_Z P * rate <= inject_Z P).
  { assert (X0 : 0 <= inject_Z P)
      by (change 0 with (inject_Z 0); rewrite <- Zle_Qle; exact P0).
    nra. }
  assert (F : (0 <= Deterministic.failures_of (duration_of sc) p <= P)%Z).
  { unfold Deterministic.failures_of. fold P. fold rate.
    rewrite (int_floor _ Q0). split.
    - change 0%Z with (Qfloor 0). apply Qfloor_resp_le. exact Q0.
    - rewrite <- (Qfloor_Z P) at 2. apply Qfloor_resp_le. exact Q1. }
  split; [exact F|lia].
Qed.

(** X14 at work: half of 100 items failing. *)
Lemma deterministic_counts_add_up_witness :
  exists m,
    In ("A"%string, m)
       (metrics (Deterministic.run_deterministic Sample.one_block Sample.plain_sc
                   Sample.half_fail_bhs))
    /\ (processed_count m + failures m = 100)%Z.
Proof.
  exists (Deterministic.block_metrics (duration_of Sample.plain_sc)
            (params_of (behavior_of Sample.half_fail_bhs "A"))).
  split; [left; reflexivity|].
  destruct (deterministic_counts_add_up Sample.one_block Sample.plain_sc
              Sample.half_fail_bhs "A"
              (Deterministic.block_metrics (duration_of Sample.plain_sc)
                 (params_of (behavior_of Sample.half_fail_bhs "A")))) as [_ S].
  - vm_compute. discriminate.
  - intros tp E. vm_compute in E. discriminate.
  - vm_compute. discriminate.
  - vm_compute. discriminate.
  - left. reflexivity.
  - rewrite S. vm_compute. reflexivity.
Defined.

(* ------------------------------------------------------------------ *)
(** ** Runs whose blocks all have scripts *)

Lemma run_with_simpy_from (fuel : nat) (draw : nat -> Q)
      (pj : Project) (sc : Scenario) (bhs : dict Behavior) (s0 : Sim) :
  loop_start pj sc bhs = Some s0 ->
  run_with_simpy fuel draw pj sc bhs = run_from fuel draw pj sc bhs s0.
Proof.
  unfold run_with_simpy, loop_start, env_run, run_from.
  destruct (make_stores bhs _ []) as [stores|e]; [|discriminate].
  destruct (Py.leb _ _); [discriminate|].
  intro E. injection E as <-. reflexivity.
Qed.

Lemma run_with_simpy_no_loop (fuel : nat) (d1 d2 : nat -> Q)
      (pj : Project) (sc : Scenario) (bhs : dict Behavior) :
  loop_start pj sc bhs = None ->
  run_with_simpy fuel d1 pj sc bhs = run_with_simpy fuel d2 pj sc bhs.
Proof.
  unfold run_with_simpy, loop_start, env_run.
  destruct (make_stores bhs _ []) as [stores|e]; [|reflexivity].
  destruct (Py.leb _ _); [reflexivity|discriminate].
Qed.

Section Scripted.
Variables (es : list Edge) (bhs : dict Behavior) (d1 d2 : nat -> Q).
Variable ids : list string.
Hypothesis scripted : forall b, In b ids -> sim_script (behavior_of bhs b) <> None.

Lemma step_scripted (s : Sim) :
  dict_keys (frames s) = ids -> step es bhs d1 s = step es bhs d2 s.
Proof.
  intro K. unfold step. destruct (queue s) as [|x q]; [reflexivity|].
  destruct (s_event x) as [[b|]|[b|]|b|b it|p [exc|]|]; try reflexivity.
  simpl. f_equal. unfold block_take. cbn [frames set_now set_queue].
  destruct (dict_get b (frames s)) as [fr|] eqn:G; [|reflexivity].
  assert (Ib : In b ids) by (rewrite <- K; apply dict_get_keys; congruence).
  unfold policy. destruct (sim_script (behavior_of bhs b)) eqn:Sc; [reflexivity|].
  exfalso. apply (scripted b Ib Sc).
Qed.

Lemma run_steps_scripted (fuel : nat) (s : Sim) :
  dict_keys (frames s) = ids ->
  run_steps es bhs d1 fuel s = run_steps es bhs d2 fuel s.
Proof.
  revert s. induction fuel as [|n IH]; intros s K; simpl; [reflexivity|].
  rewrite <- (step_scripted s K).
  destruct (step es bhs d1 s) as [s'|s'|e] eqn:E; try reflexivity.
  apply IH. destruct (step_running es bhs d1 s s' E) as (x & q & _ & _ & F).
  destruct (fire_keeps es bhs d1 _ _ _ (or_introl F)) as (_ & _ & _ & Kf).
  rewrite Kf. exact K.
Qed.

End Scripted.



(* ------------------------------------------------------------------ *)
(** ** The injector, from event to event *)

Lemma wake_time_first (n t : Q) : n == 0 -> n + Py.max 0 (t - n) == Py.max 0 t.
Proof.
  intro E. unfold Py.max.
  destruct (Py.ltb 0 (t - n)) eqn:A; destruct (Py.ltb 0 t) eqn:B;
    try apply ltb_lt in A; try apply ltb_ge in A;
    try apply ltb_lt in B; try apply ltb_ge in B; lra.
Qed.

Lemma wake_time_next (n t0 t : Q) :
  n == Py.max 0 t0 -> t0 <= t -> n + Py.max 0 (t - n) == Py.max 0 t.
Proof.
  unfold Py.max. intros E L.
  destruct (Py.ltb 0 t0) eqn:C; destruct (Py.ltb 0 (t - n)) eqn:A;
    destruct (Py.ltb 0 t) eqn:B;
    try apply ltb_lt in A; try apply ltb_ge in A;
    try apply ltb_lt in B; try apply ltb_ge in B;
    try apply ltb_lt in C; try apply ltb_ge in C; lra.
Qed.

Lemma not_injector_store (e : Event) : store_event e -> ~ injector_event e.
Proof. intros S [->| ->]; destruct S. Qed.

Section InjectorRun.
Variables (es : list Edge) (bhs : dict Behavior) (draw : nat -> Q).

Lemma block_take_adds_any (P : Event -> Prop) (b : string) (it : Item) (s : Sim) :
  P (Timeout (BlockProc b)) ->
  (forall exc, P (ProcessEnd (BlockProc b) (Some exc))) ->
  adds P s (block_take bhs draw b it s).
Proof.
  intros Pt Pe. unfold block_take.
  destruct (dict_get b (frames s)) as [fr|]; [|apply adds_refl].
  destruct (at_yield fr); try apply adds_refl.
  assert (Q1 : adds P s (snd (policy bhs draw b it s))).
  { destruct (policy_state bhs draw b it s) as [->| ->];
      apply adds_same_queue; reflexivity. }
  destruct (policy bhs draw b it s) as [[failed pt|] s1]; simpl in Q1;
    [destruct (Py.ltb pt 0)|];
    (eapply adds_trans; [exact Q1|]); (apply schedule_adds_over; [reflexivity|auto]).
Qed.

Lemma block_start_pending (b : string) (s : Sim) : pending (block_start b s) = pending s.
Proof.
  unfold block_start. destruct (dict_get b (frames s)) as [fr|]; [|reflexivity].
  destruct (at_yield fr); try reflexivity.
  match goal with
  | |- pending (store_get b ?s0) = _ =>
      destruct (store_get_grows [] 0 1 b s0) as (_ & _ & P & _)
  end.
  rewrite P. reflexivity.
Qed.

Lemma block_take_pending (b : string) (it : Item) (s : Sim) :
  pending (block_take bhs draw b it s) = pending s.
Proof.
  unfold block_take. destruct (dict_get b (frames s)) as [fr|]; [|reflexivity].
  destruct (at_yield fr); try reflexivity.
  assert (P : pending (snd (policy bhs draw b it s)) = pending s).
  { destruct (policy_state bhs draw b it s) as [->| ->]; reflexivity. }
  destruct (policy bhs draw b it s) as [[failed pt|] s1]; simpl in P;
    [destruct (Py.ltb pt 0)|]; simpl; exact P.
Qed.

Lemma block_done_pending (b : string) (s : Sim) :
  pending (block_done es b s) = pending s.
Proof.
  unfold block_done. destruct (dict_get b (frames s)) as [fr|]; [|reflexivity].
  destruct (at_yield fr) as [| |start failed|]; try reflexivity.
  match goal with
  | |- pending (store_get b ?s0) = _ =>
      destruct (store_get_grows [] 0 1 b s0) as (_ & _ & P & _)
  end.
  rewrite P. destruct failed; [reflexivity|].
  cbn [pending set_frame set_frames].
  match goal with
  | |- pending (forward b ?n es ?s0) = _ =>
      destruct (forward_grows [] 0 1 b n es s0) as (_ & _ & P' & _)
  end.
  rewrite P'. reflexivity.
Qed.

(** What the callbacks of an event that is not the injector's do to the
    injector's list, the heap and the timeline. *)
Lemma fire_aside (e : Event) (s s' : Sim) :
  ~ injector_event e -> fire es bhs draw e s = Running s' ->
  pending s' = pending s
  /\ adds (fun e => ~ injector_event e) s s'
  /\ (sim_timeline s' = sim_timeline s
      \/ exists z, event_type z <> stimulus_ev /\ sim_timeline s' = sim_timeline s ++ [z]).
Proof.
  intros N E.
  assert (St : forall x, store_event x -> ~ injector_event x) by apply not_injector_store.
  destruct e as [[b|]|[b|]|b|b it|p [exc|]|]; simpl in E;
    try discriminate; try injection E as <-.
  - split; [apply block_start_pending|]. split; [apply block_start_adds; exact St|].
    left. apply block_start_timeline.
  - exfalso. apply N. left. reflexivity.
  - split; [apply block_done_pending|]. split; [apply block_done_adds; exact St|].
    destruct (dict_get b (frames s)) as [fr|] eqn:G;
      [|left; unfold block_done; rewrite G; reflexivity].
    destruct (at_yield fr) as [| |start failed|] eqn:A;
      try (left; unfold block_done; rewrite G, A; reflexivity).
    destruct (block_done_parts es b s fr start failed G A) as (_ & P2 & _).
    right. eexists. split; [|exact P2]. destruct failed; discriminate.
  - exfalso. apply N. right. reflexivity.
  - destruct (trigger_get_grows [] 0 1 b s) as (_ & _ & P & _).
    split; [exact P|]. split; [apply trigger_get_adds; exact St|].
    left. destruct (trigger_get_backstage b s) as (_ & _ & _ & T & _). exact T.
  - split; [apply block_take_pending|]. split.
    + apply block_take_adds_any; [|intro exc]; intros [X|X]; discriminate.
    + left. apply block_take_timeline.
  - split; [reflexivity|]. split; [apply adds_refl|]. left. reflexivity.
Qed.

Lemma injector_wait_queue (s : Sim) (y : Scheduled) :
  In y (queue (injector_wait s)) ->
  In y (queue s)
  \/ (exists ev rest, pending s = ev :: rest
                      /\ y = {| s_time := now s + Py.max 0 (ev_time ev - now s);
                                s_eid := next_eid s; s_event := Timeout Injector |})
  \/ (pending s = [] /\ s_event y = ProcessEnd Injector None).
Proof.
  unfold injector_wait. destruct (pending s) as [|ev rest]; simpl; intro I;
    apply In_heappush in I; destruct I as [->|I]; auto.
  right. left. eauto.
Qed.

Variables (cap : string -> Z) (known : string -> Prop).
Variable evs : list StimulusEvent.

Lemma pop_injecting (x : Scheduled) (q : list Scheduled) (s : Sim) :
  queue s = x :: q -> Injecting evs s -> Injecting evs (set_now (s_time x) (set_queue q s)).
Proof.
  intros Q (A & B & C & D & E & F). unfold Injecting. simpl.
  split; [|split; [|split; [|auto]]].
  - intros a b Ia Ib. apply A; rewrite Q; right; assumption.
  - intros a Ia. apply B. rewrite Q. right. exact Ia.
  - intros a Ia. apply C. rewrite Q. right. exact Ia.
Qed.

Lemma aside_injecting (s s' : Sim) :
  Injecting evs s -> pending s' = pending s ->
  adds (fun e => ~ injector_event e) s s' ->
  sim_timeline s' = sim_timeline s
  \/ (exists z, event_type z <> stimulus_ev /\ sim_timeline s' = sim_timeline s ++ [z]) ->
  Injecting evs s'.
Proof.
  intros (A & B & C & D & E & F) P1 P2 P3. unfold Injecting. rewrite P1.
  split; [|split; [|split; [|split; [exact D|]]]].
  - intros a b Ia Ib Ja Jb.
    destruct (P2 a Ia) as [Ia'|Na]; [|contradiction].
    destruct (P2 b Ib) as [Ib'|Nb]; [|contradiction].
    apply A; assumption.
  - intros a Ia Ea. destruct (P2 a Ia) as [Ia'|Na]; [apply B; assumption|].
    exfalso. apply Na. left. exact Ea.
  - intros a Ia Ea. destruct (P2 a Ia) as [Ia'|Na]; [apply C; assumption|].
    exfalso. apply Na. right. exact Ea.
  - destruct P3 as [-> | (z & Nz & ->)]; [split; assumption|].
    split.
    + apply Forall_app. split; [exact E|].
      constructor; [intro Z; contradiction|constructor].
    + rewrite filter_app. cbn [filter]. unfold is_stimulus_entry at 2.
      destruct (event_type z); try contradiction; simpl; rewrite app_nil_r; exact F.
Qed.

Lemma sorted_events_facts (l : list StimulusEvent) :
  StronglySorted by_time (sorted_events l)
  /\ forall ev, In ev (sorted_events l) -> In ev l.
Proof.
  unfold sorted_events.
  destruct (fold_insert_event l [] (SSorted_nil _)) as (P & S & _).
  split; [exact S|]. intros ev I. apply (Permutation_in _ P I).
Qed.

Lemma step_injecting (s s' : Sim) :
  Safe cap known s -> Injecting evs s ->
  step es bhs draw s = Running s' \/ step es bhs draw s = Stopped s' ->
  Injecting evs s'.
Proof.
  intros Sf Inj E.
  assert (Run : (exists x q, queue s = x :: q /\ s' = set_now (s_time x) (set_queue q s))
                \/ step es bhs draw s = Running s').
  { destruct E as [E|E]; [right; exact E|left].
    destruct (step_stopped es bhs draw s s' E) as (x & q & Q & _ & ->). eauto. }
  destruct Run as [(x & q & Q & ->)|R]; [apply (pop_injecting _ _ _ Q Inj)|].
  clear E. destruct (step_running es bhs draw s s' R) as (x & q & Q & _ & F).
  pose proof (pop_injecting _ _ _ Q Inj) as Ip.
  assert (Xq : ~ In x q).
  { destruct Sf as ((_ & _ & _ & Nd) & _). rewrite Q in Nd. simpl in Nd.
    inversion Nd as [|? ? Nx _]; subst. intro I. apply Nx. apply in_map. exact I. }
  assert (Lone : injector_event (s_event x) ->
                 forall y, In y q -> ~ injector_event (s_event y)).
  { intros Ix y Iy Jy. destruct Inj as (A & _).
    assert (E : x = y)
      by (apply A; [rewrite Q; left; reflexivity|rewrite Q; right; exact Iy
                   |exact Ix|exact Jy]).
    subst y. contradiction. }
  remember (set_now (s_time x) (set_queue q s)) as sp eqn:Esp.
  assert (Tx : now sp = s_time x) by (rewrite Esp; reflexivity).
  assert (Qp : queue sp = q) by (rewrite Esp; reflexivity).
  assert (Pp : pending sp = pending s) by (rewrite Esp; reflexivity).
  assert (Tp : sim_timeline sp = sim_timeline s) by (rewrite Esp; reflexivity).
  destruct Inj as (A & B & C & D & Et & Cn).
  pose proof Ip as Ip'. destruct Ip as (Ap & Bp & Cp & Dp & Ep & Cnp).
  destruct (s_event x) as [[b|]|[b|]|b|b it|p [exc|]|] eqn:Ex.
  all: try (match type of F with
            | fire _ _ _ ?e _ = _ =>
                assert (Ne : ~ injector_event e) by (intros [X|X]; discriminate);
                destruct (fire_aside e sp s' Ne F) as (P1 & P2 & P3)
            end;
            apply (aside_injecting sp s' Ip'); assumption).
  - (* the injector starts *)
    cbn [fire] in F. injection F as <-.
    assert (T0 : s_time x == 0) by (apply B; [rewrite Q; left; reflexivity|exact Ex]).
    assert (NoInj : forall y, In y q -> ~ injector_event (s_event y))
      by (apply Lone; left; reflexivity).
    destruct (sorted_events_facts (pending sp)) as [So Sub].
    set (s1 := set_pending (sorted_events (pending sp)) sp) in *.
    assert (W : forall y, In y (queue (injector_wait s1)) -> injector_event (s_event y) ->
                exists ev rest,
                  pending s1 = ev :: rest
                  /\ y = {| s_time := now s1 + Py.max 0 (ev_time ev - now s1);
                            s_eid := next_eid s1; s_event := Timeout Injector |}).
    { intros y Iy Jy. destruct (injector_wait_queue s1 y Iy) as [I1|[H|[_ H]]].
      - exfalso. apply (NoInj y); [rewrite <- Qp; exact I1|exact Jy].
      - exact H.
      - rewrite H in Jy. destruct Jy; discriminate. }
    destruct (injector_wait_backstage s1) as (_ & _ & _ & Tl & _).
    assert (Pw : pending (injector_wait s1) = sorted_events (pending sp)).
    { unfold injector_wait. destruct (pending s1); reflexivity. }
    unfold Injecting. rewrite Pw, Tl.
    split; [|split; [|split; [|split; [|split]]]].
    + intros a b Ia Ib Ja Jb.
      destruct (W a Ia Ja) as (ev & rest & P & ->).
      destruct (W b Ib Jb) as (ev' & rest' & P' & ->).
      rewrite P in P'. injection P' as <- _. reflexivity.
    + intros a Ia Ea. destruct (W a Ia (or_introl Ea)) as (ev & rest & _ & ->).
      discriminate.
    + intros a Ia Ea. split; [exact So|].
      destruct (W a Ia (or_intror Ea)) as (ev & rest & P & ->).
      exists ev, rest. split; [exact P|]. simpl.
      apply wake_time_first. cbn [now s1 set_pending]. rewrite Tx. exact T0.
    + intros ev I. apply Dp. apply Sub. exact I.
    + exact Ep.
    + rewrite length_sorted_events. exact Cnp.
  - (* the injector's timeout fires *)
    cbn [fire] in F. injection F as <-.
    destruct (C x) as (So & ev & rest & P & Tn);
      [rewrite Q; left; reflexivity|exact Ex|].
    assert (NoInj : forall y, In y q -> ~ injector_event (s_event y))
      by (apply Lone; right; reflexivity).
    unfold injector_fire. rewrite Pp, P.
    set (s1 := set_pending rest (deliver ev sp)) in *.
    destruct (deliver_stamped ev sp) as [Dst Dn].
    assert (Qd : forall y, In y (queue s1) -> ~ injector_event (s_event y)).
    { intros y Iy. destruct (deliver_adds _ not_injector_store ev sp y Iy) as [I1|N1];
        [apply NoInj; rewrite <- Qp; exact I1|exact N1]. }
    assert (W : forall y, In y (queue (injector_wait s1)) -> injector_event (s_event y) ->
                exists ev' rest',
                  rest = ev' :: rest'
                  /\ y = {| s_time := now s1 + Py.max 0 (ev_time ev' - now s1);
                            s_eid := next_eid s1; s_event := Timeout Injector |}).
    { intros y Iy Jy. destruct (injector_wait_queue s1 y Iy) as [I1|[H|[_ H]]].
      - exfalso. apply (Qd y I1 Jy).
      - exact H.
      - rewrite H in Jy. destruct Jy; discriminate. }
    destruct (injector_wait_backstage s1) as (_ & _ & _ & Tl & _).
    assert (Pw : pending (injector_wait s1) = rest).
    { unfold injector_wait, s1. cbn [pending set_pending]. destruct rest; reflexivity. }
    assert (Sr : StronglySorted by_time rest /\ Forall (by_time ev) rest).
    { rewrite P in So. apply StronglySorted_inv in So. exact So. }
    unfold Injecting. rewrite Pw, Tl.
    split; [|split; [|split; [|split; [|split]]]].
    + intros a b Ia Ib Ja Jb.
      destruct (W a Ia Ja) as (ev1 & rest1 & P1 & ->).
      destruct (W b Ib Jb) as (ev2 & rest2 & P2 & ->).
      rewrite P1 in P2. injection P2 as <- _. reflexivity.
    + intros a Ia Ea. destruct (W a Ia (or_introl Ea)) as (ev1 & rest1 & _ & ->).
      discriminate.
    + intros a Ia Ea. split; [apply Sr|].
      destruct (W a Ia (or_intror Ea)) as (ev1 & rest1 & P1 & ->).
      exists ev1, rest1. split; [exact P1|]. cbn [s_time].
      assert (N1 : now s1 = s_time x) by (unfold s1; cbn [now set_pending]; rewrite Dn; exact Tx).
      rewrite N1. apply (wake_time_next _ (ev_time ev)); [exact Tn|].
      destruct Sr as [_ Fr]. rewrite P1 in Fr. apply (Forall_inv Fr).
    + intros ev' I. apply D. rewrite P. right. exact I.
    + cbn [sim_timeline s1 set_pending].
      destruct (deliver_cases ev sp) as [->|(t & st & T & _ & _ & ->)]; [exact Ep|].
      unfold timeline_append. cbn [sim_timeline].
      destruct (store_put_backstage t (stimulus_item ev) sp) as (_ & _ & _ & T4 & _).
      rewrite T4. apply Forall_app. split; [exact Ep|].
      constructor; [|constructor]. intros _. exists ev.
      split; [apply D; rewrite P; left; reflexivity|].
      split; [exact T|]. split; [reflexivity|]. simpl. rewrite Tx. exact Tn.
    + cbn [sim_timeline s1 set_pending]. rewrite P in Cn. simpl in Cn.
      destruct Dst as [->|(z & _ & ->)]; [rewrite Tp; lia|].
      rewrite Tp, filter_app, length_app. simpl.
      destruct (is_stimulus_entry z); simpl; lia.
Qed.

End InjectorRun.

Lemma launch_blocks_queue (ids : list string) (s : Sim) (x : Scheduled) :
  In x (queue (fold_left (fun s b => schedule 0 (Initialize (BlockProc b)) s) ids s)) ->
  In x (queue s) \/ exists b, s_event x = Initialize (BlockProc b).
Proof.
  revert s. induction ids as [|b ids IH]; intros s I; simpl in I; [left; exact I|].
  apply IH in I. destruct I as [I|I]; [|right; exact I].
  simpl in I. apply In_heappush in I.
  destruct I as [->|I]; [right; eexists; reflexivity|left; exact I].
Qed.

Lemma launch_injector (ids : list string) (evs : list StimulusEvent) (s : Sim)
      (x : Scheduled) :
  (forall y, In y (queue s) -> ~ injector_event (s_event y)) ->
  In x (queue (launch ids evs s)) -> injector_event (s_event x) ->
  x = {| s_time := now s + 0;
         s_eid := next_eid (launch ids [] s);
         s_event := Initialize Injector |}.
Proof.
  intros N I J. unfold launch in I.
  assert (B : forall y, In y (queue (launch ids [] s)) -> ~ injector_event (s_event y)).
  { intros y Iy. apply launch_blocks_queue in Iy.
    destruct Iy as [Iy|[b E]]; [apply N; exact Iy|].
    rewrite E. intros [X|X]; discriminate. }
  destruct evs as [|ev evs].
  - exfalso. apply (B x I J).
  - simpl in I. apply In_heappush in I. destruct I as [->|I].
    + rewrite <- (now_launch ids [] s). reflexivity.
    + exfalso. apply (B x I J).
Qed.

Lemma loop_start_injecting (pj : Project) (sc : Scenario) (bhs : dict Behavior) (s0 : Sim) :
  loop_start pj sc bhs = Some s0 -> Injecting (events sc) s0.
Proof.
  unfold loop_start.
  destruct (make_stores bhs _ []) as [stores|e]; [|discriminate].
  destruct (Py.leb _ _); [discriminate|].
  intro E. injection E as <-. unfold initial.
  set (i0 := {| now := 0; queue := []; next_eid := 0; block_stores := stores;
                block_counters := _; frames := _; pending := events sc;
                sim_timeline := []; draws := 0 |}).
  set (ids := dict_keys stores).
  assert (W : forall x, In x (queue (schedule (duration_of sc - now (launch ids (events sc) i0))
                                       Until (launch ids (events sc) i0))) ->
                        injector_event (s_event x) ->
                        x = {| s_time := now i0 + 0;
                               s_eid := next_eid (launch ids [] i0);
                               s_event := Initialize Injector |}).
  { intros x I J. simpl in I. apply In_heappush in I.
    destruct I as [->|I]; [destruct J; discriminate|].
    apply (launch_injector ids (events sc) i0 x);
      [intros y Iy; destruct Iy|exact I|exact J]. }
  destruct (launch_backstage ids (events sc) i0) as (_ & _ & _ & T & _).
  assert (P : pending (launch ids (events sc) i0) = events sc).
  { unfold launch.
    assert (F : forall l s, pending (fold_left
                                       (fun s b => schedule 0 (Initialize (BlockProc b)) s)
                                       l s) = pending s).
    { induction l as [|b l IH]; intro s; simpl; [reflexivity|]. rewrite IH. reflexivity. }
    destruct (events sc) eqn:Ev; simpl; rewrite F; simpl; auto. }
  unfold Injecting. cbn [pending sim_timeline schedule]. rewrite P, T.
  split; [|split; [|split; [|split; [|split]]]].
  - intros a b Ia Ib Ja Jb. rewrite (W a Ia Ja), (W b Ib Jb). reflexivity.
  - intros a Ia Ea. rewrite (W a Ia (or_introl Ea)). reflexivity.
  - intros a Ia Ea. rewrite (W a Ia (or_intror Ea)) in Ea. discriminate.
  - auto.
  - constructor.
  - simpl. lia.
Qed.



(* ------------------------------------------------------------------ *)
(** ** The blocks that the timeline names *)

Lemma fire_names (es : list Edge) (bhs : dict Behavior) (draw : nat -> Q)
      (ids : list string) (e : Event) (s s' : Sim) :
  keyed ids s -> fire es bhs draw e s = Running s' ->
  sim_timeline s' = sim_timeline s
  \/ exists z, In (te_block_id z) ids /\ sim_timeline s' = sim_timeline s ++ [z].
Proof.
  intros (K1 & _ & K3) E; destruct e as [[b|]|[b|]|b|b it|p [exc|]|]; simpl in E;
    try discriminate; injection E as <-.
  - left. apply block_start_timeline.
  - left. destruct (injector_wait_backstage (set_pending (sorted_events (pending s)) s))
      as (_ & _ & _ & T & _). rewrite T. reflexivity.
  - destruct (dict_get b (frames s)) as [fr|] eqn:G;
      [|left; unfold block_done; rewrite G; reflexivity].
    destruct (at_yield fr) as [| |start failed|] eqn:A;
      try (left; unfold block_done; rewrite G, A; reflexivity).
    destruct (block_done_parts es b s fr start failed G A) as (_ & P2 & _).
    right. eexists. split; [|exact P2].
    assert (Ib : In b ids) by (rewrite <- K3; apply dict_get_keys; congruence).
    destruct failed; exact Ib.
  - unfold injector_fire. destruct (pending s) as [|ev rest]; [left; reflexivity|].
    destruct (injector_wait_backstage (set_pending rest (deliver ev s)))
      as (_ & _ & _ & T & _).
    rewrite T. cbn [sim_timeline set_pending].
    destruct (deliver_cases ev s) as [->|(t & st & _ & G & _ & ->)]; [left; reflexivity|].
    right. exists (stimulus_entry ev t s). split.
    + simpl. rewrite <- K1. apply dict_get_keys. congruence.
    + unfold timeline_append. cbn [sim_timeline].
      destruct (store_put_backstage t (stimulus_item ev) s) as (_ & _ & _ & T4 & _).
      rewrite T4. reflexivity.
  - left. destruct (trigger_get_backstage b s) as (_ & _ & _ & T & _). exact T.
  - left. apply block_take_timeline.
  - left. reflexivity.
Qed.

(** X17.  Every entry of the timeline names a block of the graph, and that block
    has its entry in the metrics. *)
Theorem timeline_names_blocks
        (fuel : nat) (draw : nat -> Q) (pj : Project) (sc : Scenario)
        (bhs : dict Behavior) (r : Response) (e : TimelineEntry) :
  run_with_simpy fuel draw pj sc bhs = Some (inl r) -> In e (timeline r) ->
  In (te_block_id e) (block_ids pj)
  /\ exists m, In (te_block_id e, m) (metrics r).
Proof.
  intros R I.
  assert (K : dict_keys (metrics r) = block_ids pj).
  { pose proof R as R'. apply run_with_simpy_sound in R'.
    destruct R' as (s & -> & _ & _ & (K1 & K2 & _) & _). simpl.
    rewrite collect_metrics_keys; [reflexivity| |apply NoDup_block_ids].
    intros b Ib. fold (block_ids pj) in Ib.
    split; apply dict_get_keys; [rewrite K2|rewrite K1]; exact Ib. }
  assert (N : In (te_block_id e) (block_ids pj)).
  { apply run_with_simpy_inl in R. destruct R as (s0 & s & L & R & ->).
    apply run_steps_stopped in R. destruct R as (n & s1 & St & Sp).
    assert (Inv : Sound (capacity_of bhs) (fun b => In b (block_ids pj))
                    (block_ids pj) (duration_of sc) s1
                  /\ Forall (fun e => In (te_block_id e) (block_ids pj)) (sim_timeline s1)).
    { revert St.
      apply (steps_keeps (edges pj) bhs draw
               (fun s => Sound (capacity_of bhs) (fun b => In b (block_ids pj))
                           (block_ids pj) (duration_of sc) s
                         /\ Forall (fun e => In (te_block_id e) (block_ids pj))
                                   (sim_timeline s))).
      - intros s2 s3 [So Na] E. split; [eapply step_sound; eassumption|].
        destruct (step_running _ _ _ _ _ E) as (x & q & Q & _ & F).
        destruct So as (_ & _ & Ky & _).
        assert (Kp : keyed (block_ids pj) (set_now (s_time x) (set_queue q s2)))
          by exact Ky.
        destruct (fire_names _ _ _ (block_ids pj) _ _ _ Kp F) as [T|(z & Iz & T)];
          simpl in T; rewrite T; [exact Na|].
        apply Forall_app. split; [exact Na|]. constructor; [exact Iz|constructor].
      - split; [apply (loop_start_sound _ _ _ _ L)|].
        revert L. unfold loop_start.
        destruct (make_stores bhs _ []) as [stores|e']; [|discriminate].
        destruct (Py.leb _ _); [discriminate|].
        intro E. injection E as <-.
        match goal with
        | |- context [schedule ?d Until (initial ?i ?st ?ev)] =>
            destruct (schedule_backstage d Until (initial i st ev)) as (_ & _ & _ & T1 & _)
        end.
        rewrite T1. unfold initial.
        match goal with
        | |- context [launch ?i ?ev ?s] =>
            destruct (launch_backstage i ev s) as (_ & _ & _ & T2 & _)
        end.
        rewrite T2. constructor. }
    destruct Inv as [_ Na].
    destruct (step_stopped _ _ _ _ _ Sp) as (x & q & _ & _ & ->).
    simpl in I. rewrite Forall_forall in Na. apply (Na e I). }
  split; [exact N|].
  rewrite <- K in N. unfold dict_keys in N. apply in_map_iff in N.
  destruct N as ([k m] & E & Im). simpl in E. subst k. exists m. exact Im.
Qed.

(** X17 at work: the chain of "A" and "B". *)
Lemma timeline_names_blocks_witness :
  exists r,
    run_with_simpy 100 Sample.half Sample.chain Sample.chain_sc [] = Some (inl r)
    /\ forall e, In e (timeline r) -> In (te_block_id e) ["A"; "B"]%string.
Proof.
  exists_some (run_with_simpy 100 Sample.half Sample.chain Sample.chain_sc []).
  split; [vm_compute; reflexivity|].
  intros e I.
  apply (timeline_names_blocks 100 Sample.half Sample.chain Sample.chain_sc [] _ e
           ltac:(vm_compute; reflexivity) I).
Defined.

(* ------------------------------------------------------------------ *)
(** ** A block that nothing is sent to *)

Lemma launch_grows_nothing (ids : list string) (evs : list StimulusEvent) (s : Sim) :
  pending (launch ids evs s) = pending s
  /\ block_stores (launch ids evs s) = block_stores s.
Proof.
  unfold launch.
  assert (F : forall l s,
            pending (fold_left (fun s b => schedule 0 (Initialize (BlockProc b)) s) l s)
            = pending s
            /\ block_stores (fold_left
                               (fun s b => schedule 0 (Initialize (BlockProc b)) s) l s)
               = block_stores s).
  { induction l as [|b l IH]; intro s0; simpl; [auto|].
    destruct (IH (schedule 0 (Initialize (BlockProc b)) s0)) as [A B].
    rewrite A, B. auto. }
  destruct evs; [apply F|]. simpl. apply F.
Qed.

(** The first state of the loop, field by field. *)
Lemma loop_start_parts (pj : Project) (sc : Scenario) (bhs : dict Behavior) (s0 : Sim) :
  loop_start pj sc bhs = Some s0 ->
  sim_timeline s0 = [] /\ pending s0 = events sc
  /\ block_counters s0 = map (fun b => (b, zero_counters)) (block_ids pj)
  /\ (forall b st, dict_get b (block_stores s0) = Some st -> items st = [])
  /\ Forall (fun x => s_event x = Until \/ exists p, s_event x = Initialize p) (queue s0).
Proof.
  intro L.
  revert L. unfold loop_start.
  destruct (make_stores bhs _ []) as [stores|e] eqn:M; [|discriminate].
  destruct (Py.leb _ _); [discriminate|].
  intro E. injection E as <-. unfold initial.
  match goal with
  | |- context [launch ?i ?ev ?s] =>
      destruct (launch_backstage i ev s) as (_ & C & _ & T & _);
      destruct (launch_grows_nothing i ev s) as (P & St)
  end.
  cbn [sim_timeline pending block_counters block_stores schedule].
  rewrite T, P, C, St. cbn [sim_timeline pending block_counters block_stores].
  split; [reflexivity|]. split; [reflexivity|]. split; [reflexivity|].
  split; [apply (make_stores_empty _ _ _ _ M); intros b st; discriminate|].
  apply Forall_heappush; [left; reflexivity|].
  apply Forall_forall. intros x I. apply launch_queue in I.
  destruct I as [[]|H]. right. exact H.
Qed.

Lemma idle_metrics (duration : Q) (st : Store) :
  0 < duration -> items st = [] ->
  processed_count (block_metrics duration zero_counters st) = 0%Z
  /\ failures (block_metrics duration zero_counters st) = 0%Z
  /\ queue_depth (block_metrics duration zero_counters st) = 0%Z
  /\ utilization (block_metrics duration zero_counters st) == 0.
Proof.
  intros D E. unfold block_metrics. simpl. rewrite E.
  repeat (split; [reflexivity|]).
  apply round4_zero.
  assert (P : Py.ltb 0 duration = true) by (apply ltb_lt; exact D).
  rewrite P. unfold Py.min.
  assert (N : Py.ltb 1 (0 / duration) = false).
  { apply ltb_ge. unfold Qdiv. rewrite Qmult_0_l. discriminate. }
  rewrite N. unfold Qdiv. apply Qmult_0_l.
Qed.

Section UnfedRun.
Variables (es : list Edge) (bhs : dict Behavior) (draw : nat -> Q).
Variable b : string.
Hypothesis no_edge : forall a e, In e es -> forwards_to a e <> Some b.

Lemma unfed_schedule (d : Q) (e : Event) (s : Sim) :
  quiet_event b e -> Unfed b s -> Unfed b (schedule d e s).
Proof.
  intros Qe (A & B & C & D & E). split; [exact A|]. split; [|auto].
  simpl. apply Forall_heappush; assumption.
Qed.

Lemma unfed_stores (k : string) (f : Store -> Store) (s : Sim) :
  (k = b -> forall st, items st = [] -> items (f st) = []) ->
  Unfed b s -> Unfed b (set_stores (dict_update k f (block_stores s)) s).
Proof.
  intros Hf (A & B & C & D & E). split; [|auto].
  intro st. simpl. rewrite dict_get_update.
  destruct (String.eqb_spec b k) as [->|N]; [|apply A].
  destruct (dict_get k (block_stores s)) as [st0|] eqn:G; simpl; [|discriminate].
  intro X. injection X as <-. apply (Hf eq_refl). apply (A st0 eq_refl).
Qed.

Lemma unfed_store_put (k : string) (it : Item) (s : Sim) :
  k <> b -> Unfed b s -> Unfed b (store_put k it s).
Proof.
  intros N U. unfold store_put. apply unfed_schedule; [exact I|].
  apply unfed_stores; [intro X; contradiction|exact U].
Qed.

Lemma unfed_try_put (k : string) (it : Item) (s : Sim) :
  k <> b -> Unfed b s -> Unfed b (fst (try_put k it s)).
Proof.
  intros N U. unfold try_put. destruct (dict_get k (block_stores s)) as [st|]; [|exact U].
  destruct (has_room st); [apply unfed_store_put; assumption|exact U].
Qed.

Lemma unfed_store_get (k : string) (s : Sim) : Unfed b s -> Unfed b (store_get k s).
Proof.
  intro U. unfold store_get. destruct (dict_get k (block_stores s)) as [st|] eqn:G; [|exact U].
  destruct (items st) as [|it rest] eqn:It.
  - apply unfed_stores; [|exact U]. intros _ st0 E. exact E.
  - assert (N : k <> b).
    { intros ->. destruct U as (A & _). rewrite (A st G) in It. discriminate. }
    apply unfed_schedule; [exact N|].
    apply unfed_stores; [intro X; contradiction|exact U].
Qed.

Lemma unfed_trigger_get (k : string) (s : Sim) : Unfed b s -> Unfed b (trigger_get k s).
Proof.
  intro U. unfold trigger_get. destruct (dict_get k (block_stores s)) as [st|]; [|exact U].
  destruct (get_waiting st); [apply unfed_store_get|]; exact U.
Qed.

Lemma unfed_forward (a : string) (seq : nat) (l : list Edge) (s : Sim) :
  (forall e, In e l -> In e es) -> Unfed b s -> Unfed b (forward a seq l s).
Proof.
  revert s. induction l as [|e l IH]; intros s Sub U; simpl; [exact U|].
  apply IH; [intros e' I; apply Sub; right; exact I|].
  destruct (forwards_to a e) as [t|] eqn:F; [|exact U].
  apply unfed_try_put; [|exact U].
  intros ->. apply (no_edge a e (Sub e (or_introl eq_refl)) F).
Qed.

Lemma unfed_same (s s' : Sim) :
  block_stores s' = block_stores s -> queue s' = queue s ->
  block_counters s' = block_counters s -> sim_timeline s' = sim_timeline s ->
  pending s' = pending s -> Unfed b s -> Unfed b s'.
Proof. unfold Unfed. intros -> -> -> -> ->. auto. Qed.

Lemma unfed_count (k : string) (f : Counters -> Counters) (s : Sim) :
  k <> b -> Unfed b s -> Unfed b (count k f s).
Proof.
  intros N (A & B & C & D & E). split; [exact A|]. split; [exact B|]. split; [|auto].
  intro c. simpl. rewrite dict_get_update.
  destruct (String.eqb_spec b k) as [->|_]; [contradiction|apply C].
Qed.

Lemma unfed_timeline_append (e : TimelineEntry) (s : Sim) :
  te_block_id e <> b -> Unfed b s -> Unfed b (timeline_append e s).
Proof.
  intros N (A & B & C & D & E). split; [exact A|]. split; [exact B|].
  split; [exact C|]. split; [|exact E].
  simpl. apply Forall_app. split; [exact D|]. constructor; [exact N|constructor].
Qed.

Lemma unfed_block_start (k : string) (s : Sim) : Unfed b s -> Unfed b (block_start k s).
Proof.
  intro U. unfold block_start. destruct (dict_get k (frames s)) as [fr|]; [|exact U].
  destruct (at_yield fr); try exact U.
  apply unfed_store_get. eapply unfed_same; [| | | | |exact U]; reflexivity.
Qed.

Lemma unfed_block_take (k : string) (it : Item) (s : Sim) :
  k <> b -> Unfed b s -> Unfed b (block_take bhs draw k it s).
Proof.
  intros N U. unfold block_take. destruct (dict_get k (frames s)) as [fr|]; [|exact U].
  destruct (at_yield fr); try exact U.
  assert (U1 : Unfed b (snd (policy bhs draw k it s))).
  { destruct (policy_state bhs draw k it s) as [->| ->]; [exact U|].
    eapply unfed_same; [| | | | |exact U]; reflexivity. }
  destruct (policy bhs draw k it s) as [[failed pt|] s1]; simpl in U1;
    [destruct (Py.ltb pt 0)|];
    (apply unfed_schedule; [simpl; auto|]);
    (eapply unfed_same; [| | | | |exact U1]; reflexivity).
Qed.

Lemma unfed_block_done (k : string) (s : Sim) :
  k <> b -> Unfed b s -> Unfed b (block_done es k s).
Proof.
  intros N U. unfold block_done. destruct (dict_get k (frames s)) as [fr|]; [|exact U].
  destruct (at_yield fr) as [| |start failed|]; try exact U.
  apply unfed_store_get.
  match goal with
  | |- Unfed b (set_frame k ?fr' ?s2) =>
      apply (unfed_same s2); try reflexivity
  end.
  assert (U1 : Unfed b (count k (add_busy (now s - start)) s))
    by (apply unfed_count; assumption).
  destruct failed.
  - apply unfed_timeline_append; [exact N|]. apply unfed_count; assumption.
  - apply unfed_forward; [auto|].
    apply unfed_timeline_append; [exact N|]. apply unfed_count; assumption.
Qed.

Lemma unfed_deliver (ev : StimulusEvent) (s : Sim) :
  target_of ev <> Some b -> Unfed b s -> Unfed b (deliver ev s).
Proof.
  intros N U. destruct (deliver_cases ev s) as [->|(t & st & T & _ & _ & ->)]; [exact U|].
  assert (Nt : t <> b) by (intros ->; contradiction).
  apply unfed_timeline_append; [exact Nt|]. apply unfed_store_put; assumption.
Qed.

Lemma unfed_injector_wait (s : Sim) : Unfed b s -> Unfed b (injector_wait s).
Proof.
  intro U. unfold injector_wait. destruct (pending s); apply unfed_schedule; simpl; auto.
Qed.

Lemma unfed_set_pending (p : list StimulusEvent) (s : Sim) :
  (forall ev, In ev p -> target_of ev <> Some b) -> Unfed b s -> Unfed b (set_pending p s).
Proof. intros Hp (A & B & C & D & E). repeat (split; [assumption|]). exact Hp. Qed.

Lemma unfed_fire (e : Event) (s s' : Sim) :
  quiet_event b e -> Unfed b s ->
  fire es bhs draw e s = Running s' \/ fire es bhs draw e s = Stopped s' ->
  Unfed b s'.
Proof.
  intros Qe U [E|E]; destruct e as [[k|]|[k|]|k|k it|p [exc|]|]; simpl in E;
    try discriminate; injection E as <-.
  - apply unfed_block_start; exact U.
  - apply unfed_injector_wait. apply unfed_set_pending; [|exact U].
    intros ev I. destruct U as (_ & _ & _ & _ & P). apply P.
    apply (proj2 (sorted_events_facts (pending s))). exact I.
  - apply unfed_block_done; [exact Qe|exact U].
  - unfold injector_fire. destruct (pending s) as [|ev rest] eqn:P; [exact U|].
    assert (Pe : forall ev', In ev' (ev :: rest) -> target_of ev' <> Some b).
    { destruct U as (_ & _ & _ & _ & Pn). rewrite P in Pn. exact Pn. }
    apply unfed_injector_wait. apply unfed_set_pending.
    + intros ev' I. apply Pe. right. exact I.
    + apply unfed_deliver; [apply Pe; left; reflexivity|exact U].
  - apply unfed_trigger_get; exact U.
  - apply unfed_block_take; [exact Qe|exact U].
  - exact U.
  - exact U.
Qed.

Lemma unfed_step (s s' : Sim) :
  Unfed b s ->
  step es bhs draw s = Running s' \/ step es bhs draw s = Stopped s' ->
  Unfed b s'.
Proof.
  unfold step. intros U E.
  destruct (queue s) as [|x q] eqn:Q; [destruct E; discriminate|].
  destruct U as (A & B & C & D & P). rewrite Q in B. inversion B as [|? ? Bx Bq]; subst.
  eapply unfed_fire; [exact Bx| |exact E].
  repeat (split; [assumption|]). exact P.
Qed.

End UnfedRun.

(** X18.  A block that no event of the scenario is for and no "connects" edge
    leads to gets nothing to do: it reports no item, an empty queue and
    utilization 0, and the timeline never names it. *)
Theorem unfed_block_stays_idle
        (fuel : nat) (draw : nat -> Q) (pj : Project) (sc : Scenario)
        (bhs : dict Behavior) (r : Response) (b : string) (m : BlockMetrics) :
  (forall ev, In ev (events sc) -> target_of ev <> Some b) ->
  (forall a e, In e (edges pj) -> forwards_to a e <> Some b) ->
  run_with_simpy fuel draw pj sc bhs = Some (inl r) -> In (b, m) (metrics r) ->
  processed_count m = 0%Z /\ failures m = 0%Z /\ queue_depth m = 0%Z
  /\ utilization m == 0
  /\ forall e, In e (timeline r) -> te_block_id e <> b.
Proof.
  intros Ev Ed R I.
  apply run_with_simpy_inl in R. destruct R as (s0 & s & L & R & ->).
  pose proof (loop_start_duration _ _ _ _ L) as D.
  assert (U : Unfed b s).
  { revert R. apply (run_steps_keeps (edges pj) bhs draw (Unfed b)).
    - intros s1 s2. apply unfed_step. exact Ed.
    - destruct (loop_start_parts _ _ _ _ L) as (T & P & C & St & Qu).
      split; [exact (St b)|]. split; [|split; [|split]].
      + eapply Forall_impl; [|exact Qu]. intros x [->|[p ->]]; exact Logic.I.
      + intros c G. rewrite C in G. apply dict_get_map_const in G. exact G.
      + rewrite T. constructor.
      + rewrite P. exact Ev. }
  destruct U as (A & _ & C & T & _).
  simpl in I. apply collect_metrics_In in I. destruct I as [(c & st & G1 & G2 & ->)|[]].
  rewrite (C c G1).
  destruct (idle_metrics (duration_of sc) st D (A st G2)) as (M1 & M2 & M3 & M4).
  repeat (split; [assumption|]).
  simpl. rewrite Forall_forall in T. exact T.
Qed.

(** X18 at work: block "B", which leads to "A" and gets nothing. *)
Lemma unfed_block_stays_idle_witness :
  exists r m,
    run_with_simpy 100 Sample.half Sample.upstream Sample.chain_sc [] = Some (inl r)
    /\ In ("B"%string, m) (metrics r)
    /\ processed_count m = 0%Z /\ failures m = 0%Z /\ queue_depth m = 0%Z.
Proof.
  exists_some (run_with_simpy 100 Sample.half Sample.upstream Sample.chain_sc []).
  eexists. split; [vm_compute; reflexivity|]. split; [right; left; reflexivity|].
  match goal with
  | |- processed_count ?m = _ /\ _ =>
      destruct (unfed_block_stays_idle 100 Sample.half Sample.upstream Sample.chain_sc
                  []
                  ltac:(let v := eval vm_compute in
                          (run_with_simpy 100 Sample.half Sample.upstream
                             Sample.chain_sc []) in
                        match v with Some (inl ?r) => exact r end)
                  "B" m) as (M1 & M2 & M3 & _)
  end.
  - intros ev [<-|[<-|[<-|[]]]]; discriminate.
  - intros a e [<-|[]]. unfold forwards_to, Sample.connects.
    cbn [edge_kind source_id target_id].
    destruct (_ && _)%bool; intro X; discriminate X.
  - vm_compute. reflexivity.
  - right. left. reflexivity.
  - auto.
Defined.

(* ------------------------------------------------------------------ *)
(** ** The time a block takes for an item *)

Section TimingRun.
Variables (es : list Edge) (bhs : dict Behavior) (draw : nat -> Q).
Variables (cap : string -> Z) (known : string -> Prop).
Variable b : string.
Hypothesis no_script : sim_script (behavior_of bhs b) = None.

Local Abbreviation other := (fun e : Event => e <> Timeout (BlockProc b)).

Lemma other_store (e : Event) : store_event e -> other e.
Proof. intros S ->. destruct S. Qed.

(** What an event that is not about [b] leaves of [b]. *)
Lemma fire_beside (e : Event) (s s' : Sim) :
  ~ about b e -> fire es bhs draw e s = Running s' ->
  dict_get b (frames s') = dict_get b (frames s)
  /\ adds other s s'
  /\ (sim_timeline s' = sim_timeline s
      \/ exists z, item_entry b z = false /\ sim_timeline s' = sim_timeline s ++ [z]).
Proof.
  intros N E.
  destruct e as [[k|]|[k|]|k|k it|p [exc|]|]; simpl in E;
    try discriminate; injection E as <-.
  - assert (Nk : k <> b) by (intros ->; apply N; left; reflexivity).
    split; [|split; [apply block_start_adds; apply other_store|
                     left; apply block_start_timeline]].
    unfold block_start. destruct (dict_get k (frames s)) as [fr|]; [|reflexivity].
    destruct (at_yield fr); try reflexivity.
    match goal with
    | |- context [store_get k ?s0] =>
        destruct (store_get_backstage k s0) as (_ & _ & F & _)
    end.
    rewrite F. simpl. rewrite dict_get_update.
    destruct (String.eqb_spec b k); [congruence|reflexivity].
  - destruct (injector_wait_backstage (set_pending (sorted_events (pending s)) s))
      as (_ & _ & F & T & _).
    rewrite F, T. split; [reflexivity|]. split; [|left; reflexivity].
    apply adds_trans with (s2 := set_pending (sorted_events (pending s)) s);
      [apply adds_same_queue; reflexivity|].
    apply injector_wait_adds; discriminate.
  - assert (Nk : k <> b) by (intros ->; apply N; right; right; reflexivity).
    split; [|split; [apply block_done_adds; apply other_store|]].
    + destruct (dict_get k (frames s)) as [fr|] eqn:G;
        [|unfold block_done; rewrite G; reflexivity].
      destruct (at_yield fr) as [| |start failed|] eqn:A;
        try (unfold block_done; rewrite G, A; reflexivity).
      destruct (block_done_parts es k s fr start failed G A) as (_ & _ & _ & P4).
      rewrite P4, dict_get_update.
      destruct (String.eqb_spec b k); [congruence|reflexivity].
    + destruct (dict_get k (frames s)) as [fr|] eqn:G;
        [|left; unfold block_done; rewrite G; reflexivity].
      destruct (at_yield fr) as [| |start failed|] eqn:A;
        try (left; unfold block_done; rewrite G, A; reflexivity).
      destruct (block_done_parts es k s fr start failed G A) as (_ & P2 & _).
      right. eexists. split; [|exact P2].
      unfold item_entry. destruct failed; simpl;
        destruct (String.eqb_spec k b); try congruence; reflexivity.
  - split; [|split; [apply injector_fire_adds; try discriminate; apply other_store|]].
    + unfold injector_fire. destruct (pending s) as [|ev rest]; [reflexivity|].
      destruct (injector_wait_backstage (set_pending rest (deliver ev s)))
        as (_ & _ & F & _).
      rewrite F. cbn [frames set_pending].
      destruct (deliver_cases ev s) as [->|(t & st & _ & _ & _ & ->)]; [reflexivity|].
      destruct (store_put_backstage t (stimulus_item ev) s) as (_ & _ & F3 & _).
      exact (f_equal (dict_get b) F3).
    + destruct (injector_fire_stamped s) as [T|(z & _ & T)]; [left; exact T|].
      unfold injector_fire in *. destruct (pending s) as [|ev rest]; [left; reflexivity|].
      destruct (injector_wait_backstage (set_pending rest (deliver ev s)))
        as (_ & _ & _ & T' & _).
      rewrite T'. cbn [sim_timeline set_pending].
      destruct (deliver_cases ev s) as [->|(t & st & _ & _ & _ & ->)]; [left; reflexivity|].
      right. exists (stimulus_entry ev t s). split.
      * unfold item_entry. simpl. apply andb_false_r.
      * unfold timeline_append. cbn [sim_timeline].
        destruct (store_put_backstage t (stimulus_item ev) s) as (_ & _ & _ & T4 & _).
        rewrite T4. reflexivity.
  - destruct (trigger_get_backstage k s) as (_ & _ & F & T & _).
    rewrite F. split; [reflexivity|].
    split; [apply trigger_get_adds; apply other_store|left; exact T].
  - assert (Nk : k <> b) by (intros ->; apply N; right; left; eexists; reflexivity).
    split; [|split; [|left; apply block_take_timeline]].
    + unfold block_take. destruct (dict_get k (frames s)) as [fr|]; [|reflexivity].
      destruct (at_yield fr); try reflexivity.
      pose proof (policy_backstage bhs draw k it s) as B.
      destruct (policy bhs draw k it s) as [[failed pt|] s1]; simpl in B;
        destruct B as (_ & _ & F & _);
        [destruct (Py.ltb pt 0)|]; simpl; rewrite F, dict_get_update;
        (destruct (String.eqb_spec b k); [congruence|reflexivity]).
    + apply block_take_adds_any; [|intro exc]; congruence.
  - split; [reflexivity|]. split; [apply adds_refl|left; reflexivity].
Qed.

Lemma beside_timing (s s' : Sim) :
  Timing bhs b s ->
  dict_get b (frames s') = dict_get b (frames s) -> adds other s s' ->
  sim_timeline s' = sim_timeline s
  \/ (exists z, item_entry b z = false /\ sim_timeline s' = sim_timeline s ++ [z]) ->
  Timing bhs b s'.
Proof.
  intros (A & B & C) F Ad T. unfold Timing. rewrite F.
  split; [|split].
  - intros x y Ix Iy Ex Ey.
    destruct (Ad x Ix) as [Ix'|Nx]; [|contradiction].
    destruct (Ad y Iy) as [Iy'|Ny]; [|contradiction].
    apply A; assumption.
  - intros x Ix Ex. destruct (Ad x Ix) as [Ix'|Nx]; [|contradiction].
    apply B; assumption.
  - destruct T as [->|(z & Nz & ->)]; [exact C|].
    apply Forall_app. split; [exact C|].
    constructor; [rewrite Nz; discriminate|constructor].
Qed.

Lemma pop_timing (x : Scheduled) (q : list Scheduled) (s : Sim) :
  queue s = x :: q -> Timing bhs b s -> Timing bhs b (set_now (s_time x) (set_queue q s)).
Proof.
  intros Q (A & B & C). unfold Timing. simpl. split; [|split; [|exact C]].
  - intros a c Ia Ic. apply A; rewrite Q; right; assumption.
  - intros a Ia. apply B. rewrite Q. right. exact Ia.
Qed.

(** No timeout of [b] is scheduled unless [b] is at its timeout. *)
Lemma no_timeout_unless (s : Sim) (fr : Frame) :
  Timing bhs b s -> dict_get b (frames s) = Some fr ->
  (forall start f, at_yield fr <> AtTimeout start f) ->
  forall x, In x (queue s) -> other (s_event x).
Proof.
  intros (_ & B & _) G N x Ix Ex.
  destruct (B x Ix Ex) as (fr' & start & f & G' & A & _).
  rewrite G in G'. injection G' as <-. apply (N start f A).
Qed.

Lemma step_timing (s s' : Sim) :
  Safe cap known s -> Timing bhs b s ->
  step es bhs draw s = Running s' \/ step es bhs draw s = Stopped s' ->
  Timing bhs b s'.
Proof.
  intros Sf Tm E.
  assert (Run : (exists x q, queue s = x :: q /\ s' = set_now (s_time x) (set_queue q s))
                \/ step es bhs draw s = Running s').
  { destruct E as [E|E]; [right; exact E|left].
    destruct (step_stopped es bhs draw s s' E) as (x & q & Q & _ & ->). eauto. }
  destruct Run as [(x & q & Q & ->)|R]; [apply (pop_timing _ _ _ Q Tm)|].
  clear E. destruct (step_running es bhs draw s s' R) as (x & q & Q & _ & F).
  pose proof (pop_timing _ _ _ Q Tm) as Tp.
  assert (Xq : ~ In x q).
  { destruct Sf as ((_ & _ & _ & Nd) & _). rewrite Q in Nd. simpl in Nd.
    inversion Nd as [|? ? Nx _]; subst. intro I. apply Nx. apply in_map. exact I. }
  assert (Due : s_event x = Timeout (BlockProc b) ->
                (forall y, In y q -> other (s_event y))
                /\ exists fr start f,
                     dict_get b (frames s) = Some fr /\ at_yield fr = AtTimeout start f
                     /\ s_time x == start + ptime_of bhs b).
  { intro Ex. destruct Tm as (A & B & _). split.
    - intros y Iy Ey. assert (X : x = y); [|subst y; contradiction].
      apply A; [rewrite Q; left; reflexivity|rewrite Q; right; exact Iy|exact Ex|exact Ey].
    - apply B; [rewrite Q; left; reflexivity|exact Ex]. }
  remember (set_now (s_time x) (set_queue q s)) as sp eqn:Esp.
  assert (Nw : now sp = s_time x) by (rewrite Esp; reflexivity).
  assert (Qp : queue sp = q) by (rewrite Esp; reflexivity).
  assert (Fp : frames sp = frames s) by (rewrite Esp; reflexivity).
  assert (Tl : sim_timeline sp = sim_timeline s) by (rewrite Esp; reflexivity).
  destruct (s_event x) as [[k|]|[k|]|k|k it|p [exc|]|] eqn:Ex.
  all: try (match type of F with
            | fire _ _ _ ?e _ = _ =>
                assert (Ne : ~ about b e)
                  by (intros [X|[[it' X]|X]]; discriminate);
                destruct (fire_beside e sp s' Ne F) as (P1 & P2 & P3)
            end;
            apply (beside_timing sp s' Tp); assumption).
  - (* a block starts *)
    destruct (String.eqb_spec k b) as [->|Nk].
    + cbn [fire] in F. injection F as <-. unfold block_start.
      destruct (dict_get b (frames sp)) as [fr|] eqn:G; [|exact Tp].
      destruct (at_yield fr) eqn:A; try exact Tp.
      assert (NoT : forall y, In y (queue sp) -> other (s_event y)).
      { apply (no_timeout_unless sp fr Tp G). intros start f. rewrite A. discriminate. }
      match goal with
      | |- Timing bhs b (store_get b ?s0) =>
          pose proof (store_get_adds other other_store b s0) as Ad;
          destruct (store_get_backstage b s0) as (_ & _ & F3 & T4 & _)
      end.
      destruct Tp as (_ & _ & C).
      unfold Timing. rewrite F3, T4. cbn [frames sim_timeline set_frame set_frames].
      split; [|split; [|exact C]].
      * intros a c Ia Ic Ea. exfalso.
        destruct (Ad a Ia) as [Ia'|Na]; [apply (NoT a Ia' Ea)|apply (Na Ea)].
      * intros a Ia Ea. exfalso.
        destruct (Ad a Ia) as [Ia'|Na]; [apply (NoT a Ia' Ea)|apply (Na Ea)].
    + assert (Ne : ~ about b (Initialize (BlockProc k)))
        by (intros [X|[[it' X]|X]]; congruence).
      destruct (fire_beside _ sp s' Ne F) as (P1 & P2 & P3).
      apply (beside_timing sp s' Tp); assumption.
  - (* the timeout of a block fires *)
    destruct (String.eqb_spec k b) as [->|Nk].
    + cbn [fire] in F. injection F as <-.
      destruct (Due eq_refl) as (NoT & fr & start & f & G & A & Tx).
      rewrite <- Fp in G.
      destruct (block_done_parts es b sp fr start f G A) as (_ & P2 & _ & P4).
      pose proof (block_done_adds other other_store es b sp) as Ad.
      destruct Tp as (_ & _ & C).
      unfold Timing. rewrite P2, P4.
      split; [|split].
      * intros a c Ia Ic Ea. exfalso.
        destruct (Ad a Ia) as [Ia'|Na]; [|apply (Na Ea)].
        rewrite Qp in Ia'. apply (NoT a Ia' Ea).
      * intros a Ia Ea. exfalso.
        destruct (Ad a Ia) as [Ia'|Na]; [|apply (Na Ea)].
        rewrite Qp in Ia'. apply (NoT a Ia' Ea).
      * apply Forall_app. split; [exact C|]. constructor; [|constructor].
        intros _. rewrite Nw.
        assert (El : elapsed_of (item_entry_of (s_time x) b fr start f)
                     = s_time x - start) by (destruct f; reflexivity).
        rewrite El, Tx. ring.
    + assert (Ne : ~ about b (Timeout (BlockProc k)))
        by (intros [X|[[it' X]|X]]; congruence).
      destruct (fire_beside _ sp s' Ne F) as (P1 & P2 & P3).
      apply (beside_timing sp s' Tp); assumption.
  - (* a block is handed an item *)
    destruct (String.eqb_spec k b) as [->|Nk].
    + cbn [fire] in F. injection F as <-. unfold block_take.
      destruct (dict_get b (frames sp)) as [fr|] eqn:G; [|exact Tp].
      destruct (at_yield fr) eqn:A; try exact Tp.
      assert (NoT : forall y, In y (queue sp) -> other (s_event y)).
      { apply (no_timeout_unless sp fr Tp G). intros start f. rewrite A. discriminate. }
      destruct Tp as (_ & _ & C).
      unfold policy. rewrite no_script.
      assert (Fr : forall fr' d e,
                dict_get b (frames (schedule d e
                   (set_frame b fr' (set_draws (S (draws sp)) sp)))) = Some fr').
      { intros fr' d e. simpl. rewrite dict_get_update, String.eqb_refl, G. reflexivity. }
      destruct (Py.ltb (ptime_of bhs b) 0).
      * unfold Timing. rewrite Fr. split; [|split; [|exact C]].
        -- intros a c Ia Ic Ea. exfalso. simpl in Ia. apply In_heappush in Ia.
           destruct Ia as [->|Ia]; [discriminate|apply (NoT a Ia Ea)].
        -- intros a Ia Ea. exfalso. simpl in Ia. apply In_heappush in Ia.
           destruct Ia as [->|Ia]; [discriminate|apply (NoT a Ia Ea)].
      * unfold Timing. rewrite Fr. split; [|split; [|exact C]].
        -- intros a c Ia Ic Ea Ec. simpl in Ia, Ic.
           apply In_heappush in Ia. apply In_heappush in Ic.
           destruct Ia as [->|Ia]; [|exfalso; apply (NoT a Ia Ea)].
           destruct Ic as [->|Ic]; [reflexivity|exfalso; apply (NoT c Ic Ec)].
        -- intros a Ia Ea. simpl in Ia. apply In_heappush in Ia.
           destruct Ia as [->|Ia]; [|exfalso; apply (NoT a Ia Ea)].
           eexists. eexists. eexists. split; [reflexivity|].
           split; [reflexivity|]. simpl. reflexivity.
    + assert (Ne : ~ about b (StoreGet k it))
        by (intros [X|[[it' X]|X]]; congruence).
      destruct (fire_beside _ sp s' Ne F) as (P1 & P2 & P3).
      apply (beside_timing sp s' Tp); assumption.
Qed.

End TimingRun.


